(** * EPUB TOC generator: the parsing engine (src/parsing_engine.py)

    A shallow embedding of the heading classifier, the numbering state
    machine, the tree builders and the top-level [generate_toc] run, with
    the properties of the specification stated over it.

    Conventions.
    - Python [str] is [string], the bytes of the UTF-8 encoding of the
      text. Stripping, searching, joining and [chr] are those of Python
      on every text; [repr] is written for ASCII text.
    - A Python exception raised inside [generate_toc] is a value of [exn];
      a function that can raise returns [py A] (a sum).
    - The [regex] package, [str.format] and the lower case of a text are
      what the engine takes from libraries; they are an interface ([PyLib])
      the definitions are parametric in. [MiniRe], [MiniFormat] and the
      lower case of ASCII implement a documented fragment of it and are
      used on concrete inputs only.
    - Dictionaries keyed by strings are [gmap string _]; a dictionary whose
      iteration order is observed is an association list. *)

From Stdlib Require Import ZArith Ascii String List Bool Lia DecimalString.
From stdpp Require Import gmap strings list fin_maps option.
Import ListNotations.
Local Open Scope string_scope.
Local Open Scope Z_scope.

Set Default Proof Using "Type".
Set Warnings "-register-all".

(** ** Python strings *)

Module PyStr.

(** A text is the sequence of the bytes of its UTF-8 encoding. The
    characters [str.isspace] accepts, and [str.strip] removes, are
    U+0009..U+000D, U+001C..U+0020, U+0085, U+00A0, U+1680,
    U+2000..U+200A, U+2028, U+2029, U+202F, U+205F and U+3000: they are
    encoded on one, two or three bytes. *)

(** TAB..CR, FS..US and SPACE. *)
Definition is_space (c : ascii) : bool :=
  let n := nat_of_ascii c in
  ((9 <=? n) && (n <=? 13) || (28 <=? n) && (n <=? 32))%nat.

(** U+0085 and U+00A0. *)
Definition is_space2 (a b : ascii) : bool :=
  let m := nat_of_ascii a in
  let n := nat_of_ascii b in
  ((m =? 194) && ((n =? 133) || (n =? 160)))%nat.

(** U+1680; U+2000..U+200A, U+2028, U+2029 and U+202F; U+205F; U+3000. *)
Definition is_space3 (a b c : ascii) : bool :=
  let m := nat_of_ascii a in
  let n := nat_of_ascii b in
  let k := nat_of_ascii c in
  ((m =? 225) && (n =? 154) && (k =? 128)
   || (m =? 226) && (n =? 128)
      && ((128 <=? k) && (k <=? 138) || (k =? 168) || (k =? 169) || (k =? 175))
   || (m =? 226) && (n =? 129) && (k =? 159)
   || (m =? 227) && (n =? 128) && (k =? 128))%nat.

(** The text after the white space it starts with. With [backwards] the
    text is read from its end, so that the bytes of a character come in
    the opposite order. *)
Fixpoint skip_spaces (backwards : bool) (s : string) : string :=
  match s with
  | String a r =>
      if is_space a then skip_spaces backwards r
      else
        match r with
        | String b r2 =>
            if (if backwards then is_space2 b a else is_space2 a b)
            then skip_spaces backwards r2
            else
              match r2 with
              | String c r3 =>
                  if (if backwards then is_space3 c b a else is_space3 a b c)
                  then skip_spaces backwards r3
                  else s
              | EmptyString => s
              end
        | EmptyString => s
        end
  | EmptyString => EmptyString
  end.

Definition rev (s : string) : string :=
  string_of_list_ascii (List.rev (list_ascii_of_string s)).

(** [s.lstrip()] *)
Definition lstrip (s : string) : string := skip_spaces false s.

(** [s.rstrip()] *)
Definition rstrip (s : string) : string := rev (skip_spaces true (rev s)).

(** [s.strip()] *)
Definition strip (s : string) : string := rstrip (lstrip s).

(** [s.startswith(p)] *)
Fixpoint startswith (p s : string) : bool :=
  match p, s with
  | EmptyString, _ => true
  | String a p', String b s' => if Ascii.eqb a b then startswith p' s' else false
  | String _ _, EmptyString => false
  end.

(** [s.endswith(p)] *)
Definition endswith (p s : string) : bool := startswith (rev p) (rev s).

(** [p in s] *)
Fixpoint contains (p s : string) : bool :=
  startswith p s ||
  match s with
  | String _ s' => contains p s'
  | EmptyString => false
  end.

Definition lower_ascii (c : ascii) : ascii :=
  let n := nat_of_ascii c in
  if ((65 <=? n) && (n <=? 90))%nat then ascii_of_nat (n + 32) else c.

(** [s.lower()] for an ASCII text. *)
Fixpoint lower (s : string) : string :=
  match s with
  | String c r => String (lower_ascii c) (lower r)
  | EmptyString => EmptyString
  end.

(** [sep.join(l)] *)
Fixpoint join (sep : string) (l : list string) : string :=
  match l with
  | [] => ""
  | [x] => x
  | x :: r => x ++ sep ++ join sep r
  end.

Definition hex_digit (n : nat) : ascii :=
  if (n <? 10)%nat then ascii_of_nat (48 + n) else ascii_of_nat (87 + n).

(** One character of [repr(s)], [q] being the quote [repr] chose. *)
Definition repr_char (q c : ascii) : string :=
  let n := nat_of_ascii c in
  if Ascii.eqb c "\" then "\\"
  else if Ascii.eqb c q then String "\" (String q "")
  else if (n =? 9)%nat then "\t"
  else if (n =? 10)%nat then "\n"
  else if (n =? 13)%nat then "\r"
  else if ((n <? 32)%nat || (n =? 127)%nat)
    then String "\" (String "x" (String (hex_digit (n / 16)) (String (hex_digit (n mod 16)) "")))
  else String c "".

Fixpoint has_char (c : ascii) (s : string) : bool :=
  match s with
  | String d r => Ascii.eqb c d || has_char c r
  | EmptyString => false
  end.

Fixpoint repr_body (q : ascii) (s : string) : string :=
  match s with
  | String c r => repr_char q c ++ repr_body q r
  | EmptyString => ""
  end.

(** [repr(s)] for a string: single quotes unless the text has a single
    quote and no double quote. *)
Definition dquote : ascii := ascii_of_nat 34.

Definition repr (s : string) : string :=
  let q := if has_char "'" s && negb (has_char dquote s) then dquote else "'"%char in
  String q (repr_body q s ++ String q "").

(** [str(l)] for a list of strings. *)
Definition str_of_list (l : list string) : string :=
  "[" ++ join ", " (map repr l) ++ "]".

End PyStr.

(** ** Exceptions and results *)

(** The exceptions [generate_toc] can meet; all derive from [Exception]. *)
Inductive exn : Type :=
| ReError            (* regex.error: the pattern does not compile *)
| SpineEmpty         (* Exception("Spine ...") raised by the run itself *)
| ParseError         (* ET.fromstring on the OPF text *)
| IOError            (* bk.readfile *)
| AttributeError     (* None.strip(), None.items() *)
| UnboundLocalError  (* display_text / anchor_id read before assignment *)
| FormatError        (* KeyError, IndexError or ValueError of str.format *)
| IndexError         (* pop from empty list *)
| KeyError           (* rl["parent_attrs"] and the like *)
| ValueError.        (* chr() arg not in range(0x110000) *)

Definition py (A : Type) : Type := (exn + A)%type.

Definition ret {A} (a : A) : py A := inr a.
Definition raise {A} (e : exn) : py A := inl e.
Definition bind {A B} (m : py A) (f : A -> py B) : py B :=
  match m with
  | inl e => inl e
  | inr a => f a
  end.

Notation "'let!' x ':=' m 'in' k" := (bind m (fun x => k))
  (at level 10, x pattern, m at level 200, k at level 200).

(** ** The library interface *)

(** What the engine uses of [regex], of [str.format] and of the character
    database behind [str.lower].
    - [re_compile pat ci] is [re.compile(pat, re.IGNORECASE if ci else 0)];
      [None] when it raises [re.error].
    - [re_match p text] is [p.match(text)]: [None] when there is no match at
      the start of [text], otherwise [match.groups()], a group that did not
      take part being [None].
    - [re_search pat text] is [re.search(pat, text)] with the truth value of
      its result; [None] when it raises [re.error].
    - [py_format tpl num text raw] is [tpl.format(num=.., text=.., raw=..)];
      [None] when it raises.
    - [str_lower s] is [s.lower()]. *)
Class PyLib := {
  pattern : Type;
  re_compile : string -> bool -> option pattern;
  re_match : pattern -> string -> option (list (option string));
  re_search : string -> string -> option bool;
  py_format : string -> string -> string -> string -> option string;
  str_lower : string -> string;
}.

(** ** Markup (what the engine reads of a BeautifulSoup tree) *)

(** An attribute value: a string, or the list the parser makes of a
    multi-valued attribute ([class], [rel], [headers], ...). *)
Inductive attr_value : Type :=
| AStr (s : string)
| AList (l : list string).

(** A child of a tag: a [NavigableString] or a [Tag]. *)
Inductive node : Type :=
| NText (s : string)
| NTag (name : string) (attrs : gmap string attr_value) (children : list node).

Record tag := {
  tag_name : string;
  tag_attrs : gmap string attr_value;
  tag_children : list node;
}.

(** The text nodes below a node, in document order. *)
Fixpoint all_strings (n : node) : list string :=
  match n with
  | NText s => [s]
  | NTag _ _ cs => concat (map all_strings cs)
  end.

(** [elem.get_text(strip=True)]: every text node stripped, the empty ones
    dropped, the rest concatenated. *)
Definition get_text_strip (cs : list node) : string :=
  PyStr.join ""
    (List.filter (fun s => negb (String.eqb s ""))
       (map PyStr.strip (concat (map all_strings cs)))).

(** [soup.find_all(tags)]: the tags below, in document order, whose name is
    in [tags] (every tag when [tags] is empty). *)
Fixpoint find_all_node (tags : list string) (n : node) : list tag :=
  match n with
  | NText _ => []
  | NTag nm at_ cs =>
      (if bool_decide (tags = []) || bool_decide (nm ∈ tags)
       then [{| tag_name := nm; tag_attrs := at_; tag_children := cs |}]
       else [])
      ++ concat (map (find_all_node tags) cs)
  end.

Definition find_all (tags : list string) (soup : list node) : list tag :=
  concat (map (find_all_node tags) soup).

(** ** Rules *)

(** A rule dictionary. A key read with [rule.get] is an [option]; [element]
    and [level] are read with [rule[...]]. *)
Record rule := {
  r_level : Z;
  r_element : string;
  r_parent_attrs : option (list (string * string));
  r_class : option string;
  r_child_element : option string;
  r_child_attrs : option (list (string * string));
  r_child_class : option string;
  r_text_pattern : option string;
  r_case_insensitive : bool;
  r_zone_type : option string;
  r_numbering : option string;
  r_display_template : option string;
}.

Section Engine.
Context `{PyLib}.

(** A rule after [rule["compiled_pattern"] = re.compile(pattern, flags)]. *)
Record crule := {
  cr_rule : rule;
  compiled_pattern : pattern;
}.

(** *** attrs_match *)

(** The test that decides whether [expected_value] is treated as a regex. *)
Definition sniffed (expected_value : string) : bool :=
  PyStr.startswith "^" expected_value
  || PyStr.endswith "$" expected_value
  || PyStr.contains ".*" expected_value.

(** [str(actual_value)] after the [class] list has been joined. *)
Definition actual_str (key : string) (elem_attrs : gmap string attr_value) : string :=
  match elem_attrs !! key with
  | None => ""
  | Some (AStr s) => s
  | Some (AList l) =>
      if String.eqb key "class" then PyStr.join " " l else PyStr.str_of_list l
  end.

(** One turn of the loop: [true] to go on, [false] for [return False]. *)
Definition attr_ok (elem_attrs : gmap string attr_value) (kv : string * string) : bool :=
  let '(key, expected_value) := kv in
  let actual_value := actual_str key elem_attrs in
  if sniffed expected_value then
    match re_search expected_value actual_value with
    | Some found => found
    | None => false
    end
  else PyStr.contains expected_value actual_value.

Fixpoint attrs_match_loop (elem_attrs : gmap string attr_value)
    (required_attrs : list (string * string)) : bool :=
  match required_attrs with
  | [] => true
  | kv :: rest =>
      if attr_ok elem_attrs kv then attrs_match_loop elem_attrs rest else false
  end.

Definition attrs_match (elem_attrs : gmap string attr_value)
    (required_attrs : list (string * string)) : bool :=
  match required_attrs with
  | [] => true
  | _ => attrs_match_loop elem_attrs required_attrs
  end.

(** *** classify_heading *)

Record classification := {
  c_level : Z;
  c_text : string;
  c_zone_type : string;
  c_numbering : option string;
  c_display_template : string;
  c_compiled_pattern : pattern;
}.

(** [rule.get("parent_attrs")], falling back on the legacy [class] key. *)
Definition effective_attrs (attrs : option (list (string * string)))
    (legacy : option string) : list (string * string) :=
  match attrs with
  | Some a => a
  | None =>
      let legacy_class := PyStr.strip (default "" legacy) in
      if bool_decide (legacy_class = "") then [] else [("class", legacy_class)]
  end.

(** The children kept by the list comprehension: all but blank strings. *)
Definition significant_children (cs : list node) : list node :=
  List.filter (fun c => match c with
                        | NText s => negb (String.eqb (PyStr.strip s) "")
                        | NTag _ _ _ => true
                        end) cs.

(** The text a rule extracts from [elem], or [None] where the loop body
    runs into a [continue] before the pattern test. *)
Definition rule_text (r : rule) (elem : tag) : option string :=
  if negb (String.eqb (tag_name elem) (r_element r)) then None
  else if negb (attrs_match (tag_attrs elem)
                  (effective_attrs (r_parent_attrs r) (r_class r))) then None
  else
    let child_element := PyStr.strip (default "" (r_child_element r)) in
    if negb (bool_decide (child_element = "")) then
      match significant_children (tag_children elem) with
      | [NTag nm at_ cs] =>
          if negb (String.eqb nm child_element) then None
          else if negb (attrs_match at_
                          (effective_attrs (r_child_attrs r) (r_child_class r)))
          then None
          else Some (get_text_strip cs)
      | _ => None
      end
    else Some (get_text_strip (tag_children elem)).

(** The rule applied to [elem]: its classification when every test holds. *)
Definition rule_applies (cr : crule) (elem : tag) : option classification :=
  match rule_text (cr_rule cr) elem with
  | None => None
  | Some text =>
      match re_match (compiled_pattern cr) text with
      | None => None
      | Some _ =>
          Some {| c_level := r_level (cr_rule cr);
                  c_text := text;
                  c_zone_type := default "chapter" (r_zone_type (cr_rule cr));
                  c_numbering := r_numbering (cr_rule cr);
                  c_display_template := default "" (r_display_template (cr_rule cr));
                  c_compiled_pattern := compiled_pattern cr |}
      end
  end.

(** [classify_heading(elem)] for the closure built over [rules];
    [None] is the tuple of six [None]. *)
Fixpoint classify_heading (rules : list crule) (elem : tag) : option classification :=
  match rules with
  | [] => None
  | cr :: rest =>
      match rule_applies cr elem with
      | Some c => Some c
      | None => classify_heading rest elem
      end
  end.

(** *** Numbering helpers *)

(** [str(n)] for a counter. *)
Definition str_of_nat (n : nat) : string := NilEmpty.string_of_uint (Nat.to_uint n).

Fixpoint repeat_str (s : string) (n : nat) : string :=
  match n with
  | O => ""
  | S k => s ++ repeat_str s k
  end.

Definition roman_table : list (nat * string) :=
  [(1000, "M"); (900, "CM"); (500, "D"); (400, "CD"); (100, "C"); (90, "XC");
   (50, "L"); (40, "XL"); (10, "X"); (9, "IX"); (5, "V"); (4, "IV"); (1, "I")]%nat.

(** The [while num > 0] loop, [tbl] being [val[i:]] zipped with [syb[i:]]. *)
Fixpoint int_to_roman_loop (tbl : list (nat * string)) (num : nat) (roman : string) : string :=
  match tbl with
  | [] => roman
  | (v, sy) :: rest =>
      if (0 <? num)%nat
      then int_to_roman_loop rest (num - (num / v) * v)%nat (roman ++ repeat_str sy (num / v))
      else roman
  end.

Definition int_to_roman (num : nat) : string := int_to_roman_loop roman_table num "".

Definition is_slug_char (c : ascii) : bool :=
  let n := nat_of_ascii c in
  ((97 <=? n) && (n <=? 122) || (48 <=? n) && (n <=? 57))%nat.

(** [re.sub(r"[^a-z0-9]+", "-", s)]; [in_run] says the previous character
    was already replaced. *)
Fixpoint sub_runs (in_run : bool) (s : string) : string :=
  match s with
  | EmptyString => ""
  | String c r =>
      if is_slug_char c then String c (sub_runs false r)
      else if in_run then sub_runs true r
      else String "-" (sub_runs true r)
  end.

Fixpoint lstrip_char (x : ascii) (s : string) : string :=
  match s with
  | String c r => if Ascii.eqb c x then lstrip_char x r else s
  | EmptyString => ""
  end.

Definition strip_char (x : ascii) (s : string) : string :=
  PyStr.rev (lstrip_char x (PyStr.rev (lstrip_char x s))).

Definition safe_id_from_text (text : string) : string :=
  let s := strip_char "-" (sub_runs false (str_lower text)) in
  if bool_decide (s = "") then "toc-item" else s.

(** Returns [(num_part, clean_text)]; [groups[0].strip()] raises when the
    first group did not take part in the match. *)
Definition extract_clean_text_and_number (raw_text : string) (p : pattern)
    : py (string * string) :=
  match re_match p raw_text with
  | None => ret ("", PyStr.strip raw_text)
  | Some groups =>
      let! num_part :=
        match groups with
        | [] => ret ""
        | Some g :: _ => ret (PyStr.strip g)
        | None :: _ => raise AttributeError
        end in
      let clean_text :=
        match groups with
        | _ :: Some g :: _ =>
            if bool_decide (g = "") then PyStr.strip raw_text else PyStr.strip g
        | _ => PyStr.strip raw_text
        end in
      ret (num_part, clean_text)
  end.

(** *** TOCContext *)

Record sec_counter := { sec2 : nat; sec3 : nat; sec4 : nat }.

Record TOCContext := {
  chapter_counter : nat;
  appendix_counter : nat;
  frontmatter_counter : nat;
  backmatter_counter : nat;
  part_counter : nat;
  section_counters : gmap string sec_counter;
}.

Definition TOCContext_init : TOCContext :=
  {| chapter_counter := 0; appendix_counter := 0; frontmatter_counter := 0;
     backmatter_counter := 0; part_counter := 0; section_counters := ∅ |}.

Definition set_section_counters (ctx : TOCContext) (m : gmap string sec_counter) :=
  {| chapter_counter := chapter_counter ctx;
     appendix_counter := appendix_counter ctx;
     frontmatter_counter := frontmatter_counter ctx;
     backmatter_counter := backmatter_counter ctx;
     part_counter := part_counter ctx;
     section_counters := m |}.

(** [get_section_counter]: the context after the lazy creation, and the
    counter now stored under [base_id]. *)
Definition get_section_counter (ctx : TOCContext) (base_id : string)
    : TOCContext * sec_counter :=
  match section_counters ctx !! base_id with
  | Some c => (ctx, c)
  | None =>
      let c := {| sec2 := 0; sec3 := 0; sec4 := 0 |} in
      (set_section_counters ctx (<[base_id := c]> (section_counters ctx)), c)
  end.

(** *** The numbering pass *)

(** A matched element is referred to by the position of its document in
    [spine_files] and its index in [soup.find_all(self.tags)]. *)
Definition elem_ref : Type := (nat * nat)%type.

(** An entry of [all_raw_items]; [display_text] and [anchor_id] are the
    keys the numbering pass adds. *)
Record raw_item := {
  i_level : Z;
  i_elem : elem_ref;
  i_file_name : string;
  i_raw_text : string;
  i_zone_type : string;
  i_numbering : option string;
  i_display_template : string;
  i_compiled_pattern : pattern;
  i_display_text : option string;
  i_anchor_id : option string;
}.

Definition set_numbering (it : raw_item) (display_text anchor_id : string) : raw_item :=
  {| i_level := i_level it; i_elem := i_elem it; i_file_name := i_file_name it;
     i_raw_text := i_raw_text it; i_zone_type := i_zone_type it;
     i_numbering := i_numbering it; i_display_template := i_display_template it;
     i_compiled_pattern := i_compiled_pattern it;
     i_display_text := Some display_text; i_anchor_id := Some anchor_id |}.

(** An entry of [toc_items]. *)
Record toc_item := {
  ti_level : Z;
  ti_text : string;
  ti_file : string;
  ti_anchor : string;
}.

(** [template.format(num=.., text=.., raw=..)] *)
Definition format_template (template num text raw : string) : py string :=
  match py_format template num text raw with
  | Some s => ret s
  | None => raise FormatError
  end.

(** [chr(i)]: the character of code point [i], as the bytes of its UTF-8
    encoding, and [ValueError] beyond U+10FFFF. *)
Definition chr (i : N) : py string :=
  let byte (n : N) := ascii_of_N n in
  let tail (n : N) := byte (128 + n mod 64)%N in
  if (i <? 128)%N then ret (String (byte i) "")
  else if (i <? 2048)%N then
    ret (String (byte (192 + i / 64)%N) (String (tail i) ""))
  else if (i <? 65536)%N then
    ret (String (byte (224 + i / 4096)%N) (String (tail (i / 64)%N) (String (tail i) "")))
  else if (i <? 1114112)%N then
    ret (String (byte (240 + i / 262144)%N)
           (String (tail (i / 4096)%N) (String (tail (i / 64)%N) (String (tail i) ""))))
  else raise ValueError.

(** [chr(ord("A") + appendix_counter - 1)] *)
Definition appendix_letter (appendix_counter : nat) : py string :=
  chr (65 + N.of_nat appendix_counter - 1)%N.

Definition truthy (s : string) : bool := negb (String.eqb s "").

(** The branch [if item["level"] == 1] up to the assignment of
    [display_text] and [anchor_id]. [locals] holds what these two function
    locals were bound to by an earlier turn of the loop; a zone type that
    none of the branches names leaves them as they were. *)
Definition level1_assign (ctx : TOCContext) (locals : option string * option string)
    (item : raw_item) : py (TOCContext * string * string) :=
  let zt := i_zone_type item in
  let raw := i_raw_text item in
  let template := i_display_template item in
  let! (raw_num, clean_text) :=
    extract_clean_text_and_number raw (i_compiled_pattern item) in
  if String.eqb zt "chapter" then
    let n := S (chapter_counter ctx) in
    let ctx' := {| chapter_counter := n;
                   appendix_counter := appendix_counter ctx;
                   frontmatter_counter := frontmatter_counter ctx;
                   backmatter_counter := backmatter_counter ctx;
                   part_counter := part_counter ctx;
                   section_counters := section_counters ctx |} in
    let auto_num := str_of_nat n in
    let anchor_id := auto_num in
    let! display_text :=
      if truthy template then format_template template auto_num clean_text raw
      else ret ("Chapter " ++ auto_num) in
    ret (ctx', display_text, anchor_id)
  else if String.eqb zt "part" then
    let n := S (part_counter ctx) in
    let ctx' := {| chapter_counter := chapter_counter ctx;
                   appendix_counter := appendix_counter ctx;
                   frontmatter_counter := frontmatter_counter ctx;
                   backmatter_counter := backmatter_counter ctx;
                   part_counter := n;
                   section_counters := section_counters ctx |} in
    let roman := int_to_roman n in
    let anchor_id := "part-" ++ str_lower roman in
    let! display_text :=
      if truthy template then format_template template roman clean_text raw
      else ret raw in
    ret (ctx', display_text, anchor_id)
  else if String.eqb zt "appendix" then
    let n := S (appendix_counter ctx) in
    let ctx' := {| chapter_counter := chapter_counter ctx;
                   appendix_counter := n;
                   frontmatter_counter := frontmatter_counter ctx;
                   backmatter_counter := backmatter_counter ctx;
                   part_counter := part_counter ctx;
                   section_counters := section_counters ctx |} in
    let! letter := appendix_letter n in
    let anchor_id := "app-" ++ str_lower letter in
    let! display_text :=
      if truthy template then format_template template letter clean_text raw
      else ret ("Appendix " ++ letter) in
    ret (ctx', display_text, anchor_id)
  else if String.eqb zt "frontmatter" || String.eqb zt "backmatter" then
    let anchor_id := substring 0 4 zt ++ "-" ++ safe_id_from_text raw in
    let! display_text :=
      if truthy template then format_template template "" raw raw
      else ret raw in
    ret (ctx, display_text, anchor_id)
  else
    match locals with
    | (Some display_text, Some anchor_id) => ret (ctx, display_text, anchor_id)
    | _ => raise UnboundLocalError
    end.

(** [for j in range(idx - 1, -1, -1)]: the nearest item before [idx] with
    level 1. *)
Fixpoint find_parent (all_raw_items : list raw_item) (idx : nat) : option raw_item :=
  match idx with
  | O => None
  | S j =>
      match all_raw_items !! j with
      | Some it => if i_level it =? 1 then Some it else find_parent all_raw_items j
      | None => find_parent all_raw_items j
      end
  end.

(** The branch [else] after a parent was found: the counter slot for
    [lvl] is incremented in the dictionary and the anchor is built. *)
Definition section_assign (ctx : TOCContext) (base_id : string) (lvl : Z)
    : TOCContext * string :=
  let '(ctx1, counter) := get_section_counter ctx base_id in
  let store c := set_section_counters ctx1 (<[base_id := c]> (section_counters ctx1)) in
  if lvl =? 2 then
    let seq := S (sec2 counter) in
    (store {| sec2 := seq; sec3 := sec3 counter; sec4 := sec4 counter |},
     base_id ++ "-" ++ str_of_nat seq)
  else if lvl =? 3 then
    let seq := S (sec3 counter) in
    (store {| sec2 := sec2 counter; sec3 := seq; sec4 := sec4 counter |},
     base_id ++ "-s" ++ str_of_nat seq)
  else
    let seq := S (sec4 counter) in
    (store {| sec2 := sec2 counter; sec3 := sec3 counter; sec4 := seq |},
     base_id ++ "-ss" ++ str_of_nat seq).

(** The state the numbering loop works on. [ns_stamps] records the
    assignments [item["elem"]["id"] = ...] in the order they are made. *)
Record nstate := {
  ns_ctx : TOCContext;
  ns_items : list raw_item;
  ns_toc_items : list toc_item;
  ns_occurrences : nat;
  ns_locals : option string * option string;
  ns_stamps : list (elem_ref * string);
}.

(** One turn of [for idx, item in enumerate(all_raw_items)]. *)
Definition number_item (st : nstate) (idx : nat) (item : raw_item) : py nstate :=
  if i_level item =? 1 then
    let! (ctx', display_text, anchor_id) :=
      level1_assign (ns_ctx st) (ns_locals st) item in
    ret {| ns_ctx := ctx';
           ns_items := <[idx := set_numbering item display_text anchor_id]> (ns_items st);
           ns_toc_items := ns_toc_items st ++
             [{| ti_level := 1; ti_text := display_text;
                 ti_file := i_file_name item; ti_anchor := anchor_id |}];
           ns_occurrences := S (ns_occurrences st);
           ns_locals := (Some display_text, Some anchor_id);
           ns_stamps := ns_stamps st ++ [(i_elem item, anchor_id)] |}
  else
    match find_parent (ns_items st) idx with
    | None => ret st
    | Some parent =>
        let! base_id :=
          match i_anchor_id parent with
          | Some a => ret a
          | None => raise KeyError
          end in
        let lvl := i_level item in
        let '(ctx', anchor) := section_assign (ns_ctx st) base_id lvl in
        ret {| ns_ctx := ctx';
               ns_items := <[idx := set_numbering item (i_raw_text item) anchor]> (ns_items st);
               ns_toc_items := ns_toc_items st ++
                 [{| ti_level := lvl; ti_text := i_raw_text item;
                     ti_file := i_file_name item; ti_anchor := anchor |}];
               ns_occurrences := S (ns_occurrences st);
               ns_locals := ns_locals st;
               ns_stamps := ns_stamps st ++ [(i_elem item, anchor)] |}
    end.

(** The loop from index [idx] on, [n] turns; when a turn raises, the state
    reached so far comes back with the exception. *)
Fixpoint number_from (st : nstate) (idx n : nat) : nstate * option exn :=
  match n with
  | O => (st, None)
  | S n' =>
      match ns_items st !! idx with
      | None => (st, None)
      | Some item =>
          match number_item st idx item with
          | inl e => (st, Some e)
          | inr st' => number_from st' (S idx) n'
          end
      end
  end.

Definition toc_root_item : toc_item :=
  {| ti_level := 0; ti_text := "Table of Contents";
     ti_file := "toc.html"; ti_anchor := "toc" |}.

Definition numbering_init (all_raw_items : list raw_item) (occurrences : nat) : nstate :=
  {| ns_ctx := TOCContext_init; ns_items := all_raw_items;
     ns_toc_items := [toc_root_item]; ns_occurrences := occurrences;
     ns_locals := (None, None); ns_stamps := [] |}.

Definition number_all (all_raw_items : list raw_item) (occurrences : nat)
    : nstate * option exn :=
  number_from (numbering_init all_raw_items occurrences) 0 (length all_raw_items).

End Engine.

(** ** Tree construction *)

(** The node dictionaries are shared and mutated after they were appended
    to their parent, so they live in a store: a reference is an index in
    the heap, a cell holds the node's own keys and the references of its
    [children]. *)
Record tnode := {
  n_level : Z;
  n_text : string;
  n_src : string;
}.

Definition cell : Type := (option tnode * list nat)%type.
Definition heap : Type := list cell.

(** A tree read back from the store. *)
Inductive tree : Type :=
| TNode (level : Z) (text src : string) (children : list tree).

Definition tree_level (t : tree) : Z := let 'TNode l _ _ _ := t in l.
Definition tree_text (t : tree) : string := let 'TNode _ x _ _ := t in x.
Definition tree_src (t : tree) : string := let 'TNode _ _ x _ := t in x.
Definition tree_children (t : tree) : list tree := let 'TNode _ _ _ c := t in c.

(** [node["children"].append(child)] on the cell at [parent]. *)
Definition append_child (h : heap) (parent child : nat) : heap :=
  alter (fun c : cell => (c.1, (c.2 ++ [child])%list)) parent h.

(** The store read back below the references [refs]. *)
Fixpoint reify (fuel : nat) (h : heap) (refs : list nat) : list tree :=
  match fuel with
  | O => []
  | S f =>
      flat_map (fun r =>
        match h !! r with
        | Some (Some d, cs) => [TNode (n_level d) (n_text d) (n_src d) (reify f h cs)]
        | _ => []
        end) refs
  end.

(** [f"{item['file']}#{item['anchor']}"] *)
Definition item_src (item : toc_item) : string := ti_file item ++ "#" ++ ti_anchor item.

Module BuildTree.

(** The stack holds references, the top first. *)
Record state := { st_heap : heap; st_stack : list nat }.

(** [while len(stack) > item["level"]: stack.pop()] *)
Fixpoint pop_while (level : Z) (stack : list nat) : py (list nat) :=
  match stack with
  | [] => if 0 >? level then raise IndexError else ret []
  | _ :: below =>
      if Z.of_nat (length stack) >? level then pop_while level below else ret stack
  end.

(** The body of [for item in items]. *)
Definition step (st : state) (item : toc_item) : py state :=
  if ti_level item =? 0 then ret st
  else
    let node := length (st_heap st) in
    let h := (st_heap st ++
      [(Some {| n_level := ti_level item; n_text := ti_text item;
                n_src := item_src item |}, [])])%list in
    let! stack := pop_while (ti_level item) (st_stack st) in
    match stack with
    | [] => raise IndexError
    | top :: _ => ret {| st_heap := append_child h top node; st_stack := node :: stack |}
    end.

Fixpoint loop (st : state) (items : list toc_item) : py state :=
  match items with
  | [] => ret st
  | item :: rest => let! st' := step st item in loop st' rest
  end.

(** [root = {"children": []}; stack = [root]] *)
Definition init : state := {| st_heap := [(None, [])]; st_stack := [0%nat] |}.

(** [root["children"]] read back from the store. *)
Definition result (st : state) : list tree :=
  match st_heap st !! 0%nat with
  | Some (_, cs) => reify (length (st_heap st)) (st_heap st) cs
  | None => []
  end.

End BuildTree.

Definition build_tree (items : list toc_item) : py (list tree) :=
  let! st := BuildTree.loop BuildTree.init items in
  ret (BuildTree.result st).

(** The second builder of [generate_toc], the one that feeds the NCX. *)
Module NavPoints.

(** A cell is an [np] dictionary: its [level] key is set only when the
    node is linked, the tree node carries text and src. *)
Record state := {
  st_heap : list (option Z * tnode * list nat);
  st_navpoints : list nat;
  st_stack : list nat;
}.

Definition top_level (st_heap : list (option Z * tnode * list nat)) (r : nat) : option Z :=
  match st_heap !! r with
  | Some (lv, _, _) => lv
  | None => None
  end.

(** [while stack and stack[-1]["level"] >= level: stack.pop()] *)
Fixpoint pop_while (h : list (option Z * tnode * list nat)) (level : Z)
    (stack : list nat) : py (list nat) :=
  match stack with
  | [] => ret []
  | top :: below =>
      match top_level h top with
      | None => raise KeyError
      | Some l => if l >=? level then pop_while h level below else ret stack
      end
  end.

Definition set_level (lv : Z) (c : option Z * tnode * list nat) :=
  (Some lv, c.1.2, c.2).

Definition add_child (child : nat) (c : option Z * tnode * list nat) :=
  (c.1, (c.2 ++ [child])%list).

(** The body of [for idx, item in enumerate(toc_items)]. *)
Definition step (st : state) (item : toc_item) : py state :=
  let np := length (st_heap st) in
  let h := (st_heap st ++
    [(None, {| n_level := ti_level item; n_text := ti_text item;
               n_src := item_src item |}, [])])%list in
  let level := ti_level item in
  if level >? 0 then
    let! stack := pop_while h level (st_stack st) in
    if level =? 1 then
      ret {| st_heap := alter (set_level 1) np h;
             st_navpoints := st_navpoints st ++ [np];
             st_stack := [np] |}
    else
      match stack with
      | top :: _ =>
          ret {| st_heap := alter (set_level level) np (alter (add_child np) top h);
                 st_navpoints := st_navpoints st;
                 st_stack := np :: stack |}
      | [] =>
          ret {| st_heap := h; st_navpoints := st_navpoints st; st_stack := stack |}
      end
  else
    ret {| st_heap := h; st_navpoints := np :: st_navpoints st;
           st_stack := st_stack st |}.

Fixpoint loop (st : state) (items : list toc_item) : py state :=
  match items with
  | [] => ret st
  | item :: rest => let! st' := step st item in loop st' rest
  end.

Definition init : state := {| st_heap := []; st_navpoints := []; st_stack := [] |}.

Fixpoint reify (fuel : nat) (h : list (option Z * tnode * list nat))
    (refs : list nat) : list tree :=
  match fuel with
  | O => []
  | S f =>
      flat_map (fun r =>
        match h !! r with
        | Some (_, d, cs) => [TNode (n_level d) (n_text d) (n_src d) (reify f h cs)]
        | None => []
        end) refs
  end.

Definition result (st : state) : list tree :=
  reify (length (st_heap st)) (st_heap st) (st_navpoints st).

End NavPoints.

Definition build_navpoints (toc_items : list toc_item) : py (list tree) :=
  let! st := NavPoints.loop NavPoints.init toc_items in
  ret (NavPoints.result st).

(** [max_depth(t["children"], depth)] *)
Fixpoint child_depth (depth : nat) (t : tree) : nat :=
  match t with
  | TNode _ _ _ [] => depth
  | TNode _ _ _ cs => list_max (map (child_depth (S depth)) cs)
  end.

(** [max_depth(nodes)] *)
Definition max_depth (nodes : list tree) : nat :=
  match nodes with
  | [] => 0%nat
  | _ => list_max (map (child_depth 1) nodes)
  end.

(** ** The package and the run *)

(** The parsed OPF, as far as the run looks into it. *)
Record opf_metadata := {
  md_title : option string;                       (* text of dc:title, if the element is there *)
  md_identifiers : list (option string * string); (* dc:identifier: id attribute, text *)
}.

Record opf := {
  opf_unique_identifier : option string;
  opf_metadata_elem : option opf_metadata;
  opf_manifest : option (list (option string * option string)); (* item: id, href *)
  opf_spine : option (list (option string));                    (* itemref: idref *)
}.

Definition get_title_and_uid (opf_root : opf) : string * string :=
  match opf_metadata_elem opf_root with
  | None => ("Untitled", "unknown")
  | Some metadata =>
      let title :=
        match md_title metadata with
        | Some t => if truthy t then PyStr.strip t else "Untitled"
        | None => "Untitled"
        end in
      let id_elem :=
        match opf_unique_identifier opf_root with
        | Some uid_id =>
            if truthy uid_id
            then List.find (fun e => bool_decide (e.1 = Some uid_id)) (md_identifiers metadata)
            else head (md_identifiers metadata)
        | None => head (md_identifiers metadata)
        end in
      let uid :=
        match id_elem with
        | Some (_, t) => if truthy t then PyStr.strip t else "unknown"
        | None => "unknown"
        end in
      (title, uid)
  end.

(** What is handed to [bk.writefile] and [bk.addfile]: the content is kept
    as the data it is rendered from. A soup is written with the [id]
    attributes stamped on its elements. *)
Inductive payload : Type :=
| PSoup (soup : list node) (stamps : list (nat * string))
| PNcx (uid title : string) (depth : nat) (navpoints : list tree)
| PHtmlToc (title : string) (toc : list tree) (style_cls : list (string * string)).

(** A call that changes the package. *)
Inductive effect : Type :=
| WriteFile (id : string) (data : payload)
| AddFile (id href : string) (data : payload) (mime : string)
| SpineInsertBefore (pos : nat) (id : string).

(** The host's book container. [bk_readfile] is [None] where [readfile]
    raises; [bk_rejects] tells the calls the host answers by raising. *)
Record book := {
  bk_getspine : list (option string * option string);
  bk_get_opf : option opf;
  bk_readfile : string -> option (list node);
  bk_id_to_href : string -> string;
  bk_toc_ncx_id : option string;
  bk_rejects : effect -> bool;
}.

(** What [generate_toc] hands back: the pair of the two [return e, n]
    forms, or the [None] of a bare [return]. *)
Inductive py_value : Type :=
| RetPair (error : option exn) (occurrences : nat)
| RetNone.

Record outcome := {
  returned : py_value;
  effects : list effect;
}.

Section Run.
Context `{PyLib}.

Record MarkupParser := {
  bk : book;
  rules : list rule;
  tags : list string;
  style : list (string * list (string * string));
  occurrences : nat;
}.

(** [MarkupParser.__init__] *)
Definition MarkupParser_init (b : book) (criteria_rules : list rule)
    (criteria_tags : list string)
    (criteria_style : list (string * list (string * string))) : MarkupParser :=
  {| bk := b; rules := criteria_rules; tags := criteria_tags;
     style := criteria_style; occurrences := 0 |}.

(** The first loop: every rule gets its [compiled_pattern]. *)
Fixpoint compile_rules (rs : list rule) : py (list crule) :=
  match rs with
  | [] => ret []
  | r :: rest =>
      match re_compile (default ".*" (r_text_pattern r)) (r_case_insensitive r) with
      | None => raise ReError
      | Some p =>
          let! crs := compile_rules rest in
          ret ({| cr_rule := r; compiled_pattern := p |} :: crs)
      end
  end.

(** [[itm for itm, ln in self.bk.getspine() if itm is not None]] *)
Definition spine_files (b : book) : list string :=
  omap fst (bk_getspine b).

(** The matched elements of one document, [pos] being its place in
    [spine_files] and [k] the index of the next element. *)
Fixpoint scan_elems (crs : list crule) (file_name : string) (pos k : nat)
    (elems : list tag) : list raw_item :=
  match elems with
  | [] => []
  | elem :: rest =>
      match classify_heading crs elem with
      | None => scan_elems crs file_name pos (S k) rest
      | Some c =>
          {| i_level := c_level c; i_elem := (pos, k); i_file_name := file_name;
             i_raw_text := c_text c; i_zone_type := c_zone_type c;
             i_numbering := c_numbering c;
             i_display_template := c_display_template c;
             i_compiled_pattern := c_compiled_pattern c;
             i_display_text := None; i_anchor_id := None |}
          :: scan_elems crs file_name pos (S k) rest
      end
  end.

(** [file_soups[fname] = soup]: a key that is there keeps its place. *)
Fixpoint dict_set {A} (d : list (string * A)) (key : string) (v : A) : list (string * A) :=
  match d with
  | [] => [(key, v)]
  | (k', v') :: rest =>
      if String.eqb k' key then (k', v) :: rest else (k', v') :: dict_set rest key v
  end.

(** The collecting loop over [spine_files], from position [pos] on. *)
Fixpoint scan_files (b : book) (crs : list crule) (tgs : list string) (pos : nat)
    (files : list string)
    (acc : list raw_item * list (string * (nat * list node)))
    : py (list raw_item * list (string * (nat * list node))) :=
  match files with
  | [] => ret acc
  | fname :: rest =>
      match bk_readfile b fname with
      | None => raise IOError
      | Some soup =>
          let items := scan_elems crs (bk_id_to_href b fname) pos 0 (find_all tgs soup) in
          scan_files b crs tgs (S pos) rest
            ((acc.1 ++ items)%list, dict_set acc.2 fname (pos, soup))
      end
  end.

(** A call to the host: logged, unless the host raises. *)
Definition perform (b : book) (log : list effect) (e : effect)
    : list effect * option exn :=
  if bk_rejects b e then (log, Some IOError) else ((log ++ [e])%list, None).

(** The stamps made on the elements of the document parsed at [pos]. *)
Definition stamps_of (pos : nat) (stamps : list (elem_ref * string)) : list (nat * string) :=
  omap (fun s : elem_ref * string =>
          if Nat.eqb s.1.1 pos then Some (s.1.2, s.2) else None) stamps.

(** [for fname, soup in file_soups.items(): self.bk.writefile(fname, str(soup))] *)
Fixpoint write_soups (b : book) (stamps : list (elem_ref * string))
    (file_soups : list (string * (nat * list node))) (log : list effect)
    : list effect * option exn :=
  match file_soups with
  | [] => (log, None)
  | (fname, (pos, soup)) :: rest =>
      match perform b log (WriteFile fname (PSoup soup (stamps_of pos stamps))) with
      | (log', None) => write_soups b stamps rest log'
      | failed => failed
      end
  end.

(** [style_cls]: per level, the [k="v"] pairs with a non-empty value. *)
Definition style_cls_of (st : list (string * list (string * string)))
    : list (string * string) :=
  map (fun lev_cl : string * list (string * string) =>
         (lev_cl.1,
          PyStr.join " "
            (omap (fun kv : string * string =>
                     if truthy kv.2
                     then Some (kv.1 ++ "=" ++ String PyStr.dquote (kv.2 ++ String PyStr.dquote ""))
                     else None) lev_cl.2))) st.

(** [getRules(level)] raises where a rule of that level lacks one of the
    keys it indexes. *)
Definition getRules_ok (rs : list rule) (level : Z) : bool :=
  forallb (fun rl =>
    negb (r_level rl =? level)
    || (bool_decide (is_Some (r_parent_attrs rl))
        && bool_decide (is_Some (r_child_attrs rl))
        && bool_decide (is_Some (r_child_element rl))
        && bool_decide (is_Some (r_text_pattern rl)))) rs.

Definition failed (e : exn) (n : nat) (log : list effect) : outcome :=
  {| returned := RetPair (Some e) n; effects := log |}.

(** The part of [generate_toc] from the OPF update on, [manifest] and
    [spine] being there. *)
Definition integrate (self : MarkupParser) (manifest : list (option string * option string))
    (spine : list (option string)) (toc_html_content : payload) (n : nat)
    (log : list effect) : outcome :=
  let b := bk self in
  let toc_item := List.find (fun it => bool_decide (it.2 = Some "toc.html")) manifest in
  let toc_id :=
    match toc_item with
    | Some (Some i, _) => if truthy i then i else "toc"
    | _ => "toc"
    end in
  let upsert :=
    match toc_item with
    | None => AddFile toc_id "toc.html" toc_html_content "application/xhtml+xml"
    | Some _ => WriteFile toc_id toc_html_content
    end in
  match perform b log upsert with
  | (log1, Some e) => failed e n log1
  | (log1, None) =>
      let spine_step :=
        if existsb (fun r => bool_decide (r = Some toc_id)) spine then (log1, None)
        else perform b log1 (SpineInsertBefore 1 toc_id) in
      match spine_step with
      | (log2, Some e) => failed e n log2
      | (log2, None) =>
          if getRules_ok (rules self) 1 && getRules_ok (rules self) 2
             && getRules_ok (rules self) 3
          then {| returned := RetPair None n; effects := log2 |}
          else failed KeyError n log2
      end
  end.

(** [bookpath_to_id("toc.ncx")] decides between adding the navigation
    document and overwriting it. *)
Definition ncx_upsert (b : book) (ncx : payload) : effect :=
  match bk_toc_ncx_id b with
  | None => AddFile "ncx" "toc.ncx" ncx "application/xml"
  | Some ncx_id => WriteFile ncx_id ncx
  end.

(** The part of [generate_toc] after the numbering loop. *)
Definition emit (self : MarkupParser) (root : opf) (title uid : string)
    (st : nstate) (file_soups : list (string * (nat * list node))) : outcome :=
  let b := bk self in
  let n := ns_occurrences st in
  match write_soups b (ns_stamps st) file_soups [] with
  | (log, Some e) => failed e n log
  | (log, None) =>
      match build_tree (ns_toc_items st) with
      | inl e => failed e n log
      | inr toc_tree =>
          match build_navpoints (ns_toc_items st) with
          | inl e => failed e n log
          | inr navpoints =>
              let max_d := max_depth toc_tree in
              let ncx := PNcx uid title (if (0 <? max_d)%nat then max_d else 1%nat) navpoints in
              match perform b log (ncx_upsert b ncx) with
              | (log1, Some e) => failed e n log1
              | (log1, None) =>
                  let toc_html_content := PHtmlToc title toc_tree (style_cls_of (style self)) in
                  match opf_manifest root, opf_spine root with
                  | Some manifest, Some spine =>
                      integrate self manifest spine toc_html_content n log1
                  | _, _ => {| returned := RetNone; effects := log1 |}
                  end
              end
          end
      end
  end.

Definition generate_toc (self : MarkupParser) : outcome :=
  let b := bk self in
  let n0 := occurrences self in
  match compile_rules (rules self) with
  | inl e => failed e n0 []
  | inr crs =>
      match spine_files b with
      | [] => failed SpineEmpty n0 []
      | files =>
          match bk_get_opf b with
          | None => failed ParseError n0 []
          | Some root =>
              let '(title, uid) := get_title_and_uid root in
              match scan_files b crs (tags self) 0 files ([], []) with
              | inl e => failed e n0 []
              | inr (all_raw_items, file_soups) =>
                  match all_raw_items with
                  | [] => {| returned := RetPair None n0; effects := [] |}
                  | _ =>
                      match number_all all_raw_items n0 with
                      | (st, Some e) => failed e (ns_occurrences st) []
                      | (st, None) => emit self root title uid st file_soups
                      end
                  end
              end
          end
      end
  end.

End Run.

(** ** A fragment of the libraries, for concrete inputs *)

(** [str.format] on templates whose replacement fields are plain keyword
    names: [{name}], and the escapes [{{] and [}}]. A field naming anything
    but [num], [text] or [raw] raises ([KeyError], or [IndexError] for a
    positional field), as does an unbalanced brace ([ValueError]).
    Conversions, format specifications and attribute or index access are
    outside the fragment. *)
Module MiniFormat.

Definition lookup (num text raw name : string) : option string :=
  if String.eqb name "num" then Some num
  else if String.eqb name "text" then Some text
  else if String.eqb name "raw" then Some raw
  else None.

(** [field] is the name read so far when inside a replacement field. *)
Fixpoint go (num text raw : string) (field : option string) (t : string)
    : option string :=
  match field, t with
  | None, EmptyString => Some ""
  | None, String "{" (String "{" r) => String "{" <$> go num text raw None r
  | None, String "}" (String "}" r) => String "}" <$> go num text raw None r
  | None, String "{" r => go num text raw (Some "") r
  | None, String "}" _ => None
  | None, String c r => String c <$> go num text raw None r
  | Some _, EmptyString => None
  | Some name, String "}" r =>
      match lookup num text raw name with
      | Some v => String.append v <$> go num text raw None r
      | None => None
      end
  | Some _, String "{" _ => None
  | Some name, String c r => go num text raw (Some (name ++ String c "")) r
  end.

Definition format (template num text raw : string) : option string :=
  go num text raw None template.

End MiniFormat.

(** A backtracking matcher for the patterns built from literal characters,
    [.], [^], [$], [\d], [\s], [\w], an escaped punctuation character,
    capturing groups, [|], and the greedy [*], [+] and [?]. A pattern with
    an unbalanced parenthesis does not compile. Character classes, counted
    and lazy repetition and [(?...)] groups are outside the fragment; the
    compiler refuses them. *)
Module MiniRe.

Inductive re : Type :=
| Eps
| Chr (c : ascii)
| Any                       (* [.]: any character but a newline *)
| Digit | Space | Word
| Bol | Eol
| Seq (a b : re)
| Alt (a b : re)
| Star (a : re)
| Group (i : nat) (a : re).

Record compiled := { c_re : re; c_groups : nat; c_ignorecase : bool }.

(** Spans of the groups matched so far, the latest first. *)
Definition caps : Type := list (nat * (nat * nat)).

Definition is_digit (c : ascii) : bool :=
  let n := nat_of_ascii c in ((48 <=? n) && (n <=? 57))%nat.

Definition is_word (c : ascii) : bool :=
  let n := nat_of_ascii c in
  ((48 <=? n) && (n <=? 57) || (65 <=? n) && (n <=? 90)
   || (97 <=? n) && (n <=? 122) || (n =? 95))%nat.

Definition newline : ascii := ascii_of_nat 10.

Definition chr_eq (ci : bool) (a b : ascii) : bool :=
  if ci then Ascii.eqb (PyStr.lower_ascii a) (PyStr.lower_ascii b) else Ascii.eqb a b.

Definition one (p : ascii -> bool) (s : list ascii) (c : caps)
    (k : list ascii -> caps -> option caps) : option caps :=
  match s with
  | x :: r => if p x then k r c else None
  | [] => None
  end.

(** [run ci r n s c k]: match [r] at the suffix [s] of a subject of
    length [n], then continue with [k]; the first success in priority
    order is the answer. *)
Fixpoint run (ci : bool) (r : re) (n : nat) (s : list ascii) (c : caps)
    (k : list ascii -> caps -> option caps) {struct r} : option caps :=
  match r with
  | Eps => k s c
  | Chr x => one (chr_eq ci x) s c k
  | Any => one (fun y => negb (Ascii.eqb y newline)) s c k
  | Digit => one is_digit s c k
  | Space => one PyStr.is_space s c k
  | Word => one is_word s c k
  | Bol => if (length s =? n)%nat then k s c else None
  | Eol =>
      match s with
      | [] => k s c
      | [x] => if Ascii.eqb x newline then k s c else None
      | _ => None
      end
  | Seq a b => run ci a n s c (fun s' c' => run ci b n s' c' k)
  | Alt a b =>
      match run ci a n s c k with
      | Some res => Some res
      | None => run ci b n s c k
      end
  | Star a =>
      (fix star (fuel : nat) (s : list ascii) (c : caps) : option caps :=
         match fuel with
         | O => k s c
         | S f =>
             match run ci a n s c
                     (fun s' c' => if (length s' <? length s)%nat
                                   then star f s' c' else None) with
             | Some res => Some res
             | None => k s c
             end
         end) (S (length s)) s c
  | Group i a =>
      run ci a n s c
        (fun s' c' => k s' ((i, ((n - length s)%nat, (n - length s')%nat)) :: c'))
  end.

Definition group_text (subject : string) (c : caps) (i : nat) : option string :=
  match List.find (fun e : nat * (nat * nat) => Nat.eqb e.1 i) c with
  | Some (_, (b, e)) => Some (substring b (e - b) subject)
  | None => None
  end.

(** [p.match(subject)]: the groups 1..n of a match at the start. *)
Definition pmatch (p : compiled) (subject : string) : option (list (option string)) :=
  let s := list_ascii_of_string subject in
  match run (c_ignorecase p) (c_re p) (length s) s [] (fun _ c => Some c) with
  | Some c => Some (map (group_text subject c) (seq 1 (c_groups p)))
  | None => None
  end.

(** Does [p] match at some position of the subject, the leftmost first? *)
Fixpoint search_from (p : compiled) (n : nat) (s : list ascii) : bool :=
  match run (c_ignorecase p) (c_re p) n s [] (fun _ c => Some c) with
  | Some _ => true
  | None =>
      match s with
      | [] => false
      | _ :: r => search_from p n r
      end
  end.

Definition psearch (p : compiled) (subject : string) : bool :=
  let s := list_ascii_of_string subject in search_from p (length s) s.

(** *** Reading a pattern *)

Inductive parsed (A : Type) : Type :=
| POk (a : A)
| PError          (* [re.error] *)
| PUnsupported.   (* outside the fragment *)
Arguments POk {A} a.
Arguments PError {A}.
Arguments PUnsupported {A}.

Definition is_quantifier (c : ascii) : bool :=
  Ascii.eqb c "*" || Ascii.eqb c "+" || Ascii.eqb c "?" || Ascii.eqb c "{".

Definition no_second_quantifier (a : re) (s : list ascii) : parsed (re * list ascii) :=
  match s with
  | c :: _ => if is_quantifier c then PUnsupported else POk (a, s)
  | [] => POk (a, s)
  end.

Definition quantify (a : re) (s : list ascii) : parsed (re * list ascii) :=
  match s with
  | "*"%char :: r => no_second_quantifier (Star a) r
  | "+"%char :: r => no_second_quantifier (Seq a (Star a)) r
  | "?"%char :: r => no_second_quantifier (Alt a Eps) r
  | "{"%char :: _ => PUnsupported
  | _ => POk (a, s)
  end.

Definition escape (c : ascii) : parsed re :=
  if Ascii.eqb c "d" then POk Digit
  else if Ascii.eqb c "s" then POk Space
  else if Ascii.eqb c "w" then POk Word
  else if is_word c then PUnsupported
  else POk (Chr c).

(** [g] counts the groups opened so far. *)
Fixpoint p_alt (fuel : nat) (s : list ascii) (g : nat) {struct fuel}
    : parsed (re * list ascii * nat) :=
  match fuel with
  | O => PUnsupported
  | S f =>
      match p_seq f s g with
      | POk (a, "|"%char :: r, g1) =>
          match p_alt f r g1 with
          | POk (b, r2, g2) => POk (Alt a b, r2, g2)
          | e => e
          end
      | res => res
      end
  end
with p_seq (fuel : nat) (s : list ascii) (g : nat) {struct fuel}
    : parsed (re * list ascii * nat) :=
  match fuel with
  | O => PUnsupported
  | S f =>
      match s with
      | [] => POk (Eps, s, g)
      | "|"%char :: _ => POk (Eps, s, g)
      | ")"%char :: _ => POk (Eps, s, g)
      | _ =>
          match p_atom f s g with
          | POk (a, r, g1) =>
              match quantify a r with
              | POk (a', r') =>
                  match p_seq f r' g1 with
                  | POk (b, r2, g2) => POk (Seq a' b, r2, g2)
                  | e => e
                  end
              | PError => PError
              | PUnsupported => PUnsupported
              end
          | e => e
          end
      end
  end
with p_atom (fuel : nat) (s : list ascii) (g : nat) {struct fuel}
    : parsed (re * list ascii * nat) :=
  match fuel with
  | O => PUnsupported
  | S f =>
      match s with
      | [] => PUnsupported
      | "("%char :: "?"%char :: _ => PUnsupported
      | "("%char :: r =>
          match p_alt f r (S g) with
          | POk (a, ")"%char :: r2, g2) => POk (Group (S g) a, r2, g2)
          | POk _ => PError
          | e => e
          end
      | "."%char :: r => POk (Any, r, g)
      | "^"%char :: r => POk (Bol, r, g)
      | "$"%char :: r => POk (Eol, r, g)
      | "\"%char :: c :: r =>
          match escape c with
          | POk a => POk (a, r, g)
          | PError => PError
          | PUnsupported => PUnsupported
          end
      | "\"%char :: [] => PError
      | c :: r =>
          if is_quantifier c || Ascii.eqb c "[" then PUnsupported
          else POk (Chr c, r, g)
      end
  end.

(** [re.compile(pat, flags)]: a closing parenthesis left over has no
    opening one. *)
Definition compile (pat : string) (ignorecase : bool) : parsed compiled :=
  let s := list_ascii_of_string pat in
  match p_alt (4 * length s + 4) s 0 with
  | POk (r, [], g) => POk {| c_re := r; c_groups := g; c_ignorecase := ignorecase |}
  | POk (_, _ :: _, _) => PError
  | PError => PError
  | PUnsupported => PUnsupported
  end.

End MiniRe.

(** The fragment as an implementation of the interface. A pattern outside
    the fragment is refused like one that does not compile, and only the
    letters of ASCII are lowered, so this implementation stands for the
    libraries on patterns and templates of the fragment and on ASCII text
    only. *)
Definition mini_lib : PyLib :=
  {| pattern := MiniRe.compiled;
     re_compile pat ci :=
       match MiniRe.compile pat ci with
       | MiniRe.POk p => Some p
       | _ => None
       end;
     re_match := MiniRe.pmatch;
     re_search pat text :=
       match MiniRe.compile pat false with
       | MiniRe.POk p => Some (MiniRe.psearch p text)
       | _ => None
       end;
     py_format := MiniFormat.format;
     str_lower := PyStr.lower |}.

(** The compiled form of a pattern of the fragment (the empty pattern for
    any other). *)
Definition mini_compiled (pat : string) : MiniRe.compiled :=
  match MiniRe.compile pat false with
  | MiniRe.POk p => p
  | _ => {| MiniRe.c_re := MiniRe.Eps; MiniRe.c_groups := 0; MiniRe.c_ignorecase := false |}
  end.

(** * The rest of the engine *)

(** ** attrs_equal *)

(** [==] on attribute values. *)
#[global] Instance attr_value_eq_dec : EqDecision attr_value.
Proof. solve_decision. Defined.

(** [attrs_equal(a, b)]; [None] is Python's [None]. *)
Definition attrs_equal (a b : option (gmap string attr_value)) : bool :=
  match a, b with
  | None, None => true
  | None, Some _ | Some _, None => false
  | Some da, Some db =>
      if negb (bool_decide (dom da = dom db)) then false
      else bool_decide (map_Forall (fun k v => db !! k = Some v) da)
  end.

(** ** The navigation document *)

(** [xml.sax.saxutils.escape]: [&], [>] and [<] become entities. *)
Fixpoint escape (data : string) : string :=
  match data with
  | EmptyString => ""
  | String c r =>
      (if Ascii.eqb c "&" then "&amp;"
       else if Ascii.eqb c ">" then "&gt;"
       else if Ascii.eqb c "<" then "&lt;"
       else String c "") ++ escape r
  end.

(** A [navPoint] element: its [id] and [playOrder] attributes, the text of
    its [navLabel], the [src] of its [content], and the nested points. *)
Inductive nav_xml : Type :=
| NavPoint (id playOrder label src : string) (children : list nav_xml).

(** [add_nav_point(parent_el, node, play_order_counter)]: the element
    appended to [parent_el] and the counter cell afterwards, [counter]
    being [play_order_counter[0]] at the call. *)
Fixpoint add_nav_point (node : tree) (counter : nat) : nav_xml * nat :=
  match node with
  | TNode _ text src children =>
      let n := S counter in
      let '(kids, after) :=
        (fix each (cs : list tree) (c : nat) : list nav_xml * nat :=
           match cs with
           | [] => ([], c)
           | child :: rest =>
               let '(x, c1) := add_nav_point child c in
               let '(xs, c2) := each rest c1 in
               (x :: xs, c2)
           end) children n in
      (NavPoint ("navPoint-" ++ str_of_nat n) (str_of_nat n) (escape text) src kids, after)
  end.

(** [for node in navpoints: add_nav_point(nav_map, node, play_counter)] *)
Fixpoint add_nav_points (nodes : list tree) (counter : nat) : list nav_xml * nat :=
  match nodes with
  | [] => ([], counter)
  | node :: rest =>
      let '(x, c1) := add_nav_point node counter in
      let '(xs, c2) := add_nav_points rest c1 in
      (x :: xs, c2)
  end.

(** The [navMap] of the document: [play_counter = [0]]. *)
Definition nav_map (navpoints : list tree) : list nav_xml :=
  (add_nav_points navpoints 0).1.

(** [1 + calc_max_depth(t["children"])] *)
Fixpoint calc_depth (t : tree) : nat :=
  match t with
  | TNode _ _ _ cs => S (list_max (map calc_depth cs))
  end.

(** [calc_max_depth(nodes)]: [max(..., default=0)]. *)
Definition calc_max_depth (nodes : list tree) : nat := list_max (map calc_depth nodes).

(** The content of the [dtb:depth] meta element. *)
Definition dtb_depth (toc_tree : list tree) : string :=
  let max_d := max_depth toc_tree in
  str_of_nat (if (0 <? max_d)%nat then max_d else 1%nat).

(** ** Preferences (src/utilities.py) *)

Section Prefs.
Context {A : Type} `{Countable A}.

(** The loop of [remove_dupes], [output] and [seen] being what they are
    when [values] is what is left to visit. *)
Fixpoint remove_dupes_loop (values : list A) (output : list A) (seen : gset A) : list A :=
  match values with
  | [] => output
  | value :: rest =>
      if decide (value ∈ seen) then remove_dupes_loop rest output seen
      else remove_dupes_loop rest (output ++ [value]) ({[value]} ∪ seen)
  end.

Definition remove_dupes (values : list A) : list A := remove_dupes_loop values [] ∅.

End Prefs.

Section PrefGroups.
Context {V : Type}.

(** [d[new] = d.pop(old)] when [old] is a key of [d]. *)
Definition rename_key (old new : string) (d : gmap string V) : gmap string V :=
  match d !! old with
  | Some v => <[new := v]> (delete old d)
  | None => d
  end.

Definition fix_old_keys (combo_values : gmap string V) : gmap string V :=
  rename_key "block_changes" "blockquote_changes"
    (rename_key "sec_changes" "section_changes" combo_values).

(** [check_for_new_prefs]: [default_values] is the dictionary's items, in
    order; the group is returned as the loop leaves it. *)
Fixpoint check_for_new_prefs (prefs_group : gmap string V)
    (default_values : list (string * V)) : gmap string V :=
  match default_values with
  | [] => prefs_group
  | (key, value) :: rest =>
      match prefs_group !! key with
      | Some _ => check_for_new_prefs prefs_group rest
      | None => check_for_new_prefs (<[key := value]> prefs_group) rest
      end
  end.

End PrefGroups.

(** ** Reading a roman numeral *)

(** The table of [int_to_roman] below its first entry. *)
Definition roman_rest : list (nat * string) := tl roman_table.

Definition roman_digit (c : ascii) : nat :=
  if Ascii.eqb c "I" then 1
  else if Ascii.eqb c "V" then 5
  else if Ascii.eqb c "X" then 10
  else if Ascii.eqb c "L" then 50
  else if Ascii.eqb c "C" then 100
  else if Ascii.eqb c "D" then 500
  else if Ascii.eqb c "M" then 1000
  else 0.

(** The value of a numeral: a letter that stands before a greater one is
    subtracted. *)
Fixpoint roman_value (s : string) : nat :=
  match s with
  | EmptyString => 0
  | String c r =>
      match r with
      | String d _ =>
          if (roman_digit c <? roman_digit d)%nat
          then (roman_value r - roman_digit c)%nat
          else (roman_digit c + roman_value r)%nat
      | EmptyString => roman_digit c
      end
  end.

(** ** Walking trees *)

(** Number of nodes of a tree, and of a forest. *)
Fixpoint tree_size (t : tree) : nat :=
  match t with
  | TNode _ _ _ cs => S (list_sum (map tree_size cs))
  end.

Definition forest_size (nodes : list tree) : nat := list_sum (map tree_size nodes).

(** The [playOrder] attributes of a [navPoint] and of the points nested in
    it, in document order; likewise the [id] attributes. *)
Fixpoint nav_orders (x : nav_xml) : list string :=
  match x with
  | NavPoint _ playOrder _ _ kids => playOrder :: concat (map nav_orders kids)
  end.

Fixpoint nav_ids (x : nav_xml) : list string :=
  match x with
  | NavPoint id _ _ _ kids => id :: concat (map nav_ids kids)
  end.

(** ** Shape of an identifier *)

(** Two hyphens in a row somewhere in the text. *)
Fixpoint hyphen_pair (l : list ascii) : bool :=
  match l with
  | [] => false
  | a :: r =>
      match r with
      | [] => false
      | b :: _ => (Ascii.eqb a "-" && Ascii.eqb b "-") || hyphen_pair r
      end
  end.

(** ** Reading the store *)

(** The nodes of a tree, every node before its children. *)
Fixpoint preorder (t : tree) : list tnode :=
  match t with
  | TNode l x s cs => {| n_level := l; n_text := x; n_src := s |} :: concat (map preorder cs)
  end.

Definition forest_preorder (forest : list tree) : list tnode := concat (map preorder forest).

(** The keys [build_tree] copies from a record into its node. *)
Definition item_node (item : toc_item) : tnode :=
  {| n_level := ti_level item; n_text := ti_text item; n_src := item_src item |}.

Definition tree_of (d : tnode) (children : list tree) : tree :=
  TNode (n_level d) (n_text d) (n_src d) children.

(** The tree [t] sits in the store at reference [r]: the cell at [r] holds
    its keys, its children sit at the references of the cell, in order;
    references grow from a node to its children and stay below [bound]. *)
Inductive stored (h : heap) (bound : nat) : nat -> tree -> Prop :=
| stored_node r d cs ts :
    (r < bound)%nat -> h !! r = Some (Some d, cs) ->
    stored_kids h bound r cs ts ->
    stored h bound r (tree_of d ts)
with stored_kids (h : heap) (bound : nat) : nat -> list nat -> list tree -> Prop :=
| stored_nil r : stored_kids h bound r [] []
| stored_cons r c cs t ts :
    (r < c)%nat -> stored h bound c t -> stored_kids h bound r cs ts ->
    stored_kids h bound r (c :: cs) (t :: ts).

Scheme stored_mut := Induction for stored Sort Prop
  with stored_kids_mut := Induction for stored_kids Sort Prop.

Combined Scheme stored_both from stored_mut, stored_kids_mut.

(** The open nodes of [build_tree]: the nodes on its stack, each with its
    reference, its keys and the children that are complete. *)
Definition frame : Type := (nat * tnode * list tree)%type.

(** The store holds the open nodes [open] (the innermost first) over the
    complete trees [rootkids] of the virtual root: each open node has its
    complete children followed by [above], the next open node. *)
Fixpoint chain (h : heap) (bound : nat) (above : list nat) (open : list frame)
    (rootkids : list tree) : Prop :=
  match open with
  | [] =>
      exists cs, h !! 0%nat = Some (None, (cs ++ above)%list)
        /\ stored_kids h bound 0 cs rootkids
  | (r, d, ts) :: below =>
      (0 < r < bound)%nat
      /\ exists cs, h !! r = Some (Some d, (cs ++ above)%list)
           /\ stored_kids h bound r cs ts
           /\ chain h r [r] below rootkids
  end.

(** Popping the stack completes the innermost open node. *)
Definition close_top (z : list frame * list tree) : list frame * list tree :=
  match z with
  | ([], rootkids) => ([], rootkids)
  | ([(_, d, ts)], rootkids) => ([], (rootkids ++ [tree_of d ts])%list)
  | ((_, d, ts) :: (r', d', ts') :: below, rootkids) =>
      ((r', d', (ts' ++ [tree_of d ts])%list) :: below, rootkids)
  end.

Fixpoint close_n (k : nat) (z : list frame * list tree) : list frame * list tree :=
  match k with
  | O => z
  | S k' => close_n k' (close_top z)
  end.

(** The nodes made so far, in the order of [preorder]. *)
Definition zipper_listing (z : list frame * list tree) : list tnode :=
  (forest_preorder z.2
   ++ concat (map (fun f : frame => f.1.2 :: forest_preorder f.2) (rev z.1)))%list.

(** The stack of [build_tree], the top first, the virtual root last. *)
Definition frame_refs (open : list frame) : list nat :=
  (map (fun f : frame => f.1.1) open ++ [0%nat])%list.

(** The invariant of the loop of [build_tree]. *)
Definition build_inv (st : BuildTree.state) (z : list frame * list tree) : Prop :=
  chain (BuildTree.st_heap st) (length (BuildTree.st_heap st)) [] z.1 z.2
  /\ BuildTree.st_stack st = frame_refs z.1.

(** ** What the numbering pass keeps *)

Section Kept.
Context `{PyLib}.

(** The records the numbering pass gives an anchor: those of level 1 and
    those that come after a record of level 1; [seen1] tells whether one
    came before. *)
Fixpoint headings_kept (seen1 : bool) (items : list raw_item) : list raw_item :=
  match items with
  | [] => []
  | item :: rest =>
      if (i_level item =? 1) || seen1 then item :: headings_kept true rest
      else headings_kept false rest
  end.

(** The pass adds [display_text] and [anchor_id] to a record and leaves
    its other keys alone. *)
Definition numbered_from (now before : raw_item) : Prop :=
  now = before \/ exists display_text anchor_id, now = set_numbering before display_text anchor_id.

(** What holds of the state of the pass after every turn. *)
Definition accounted (all_raw_items : list raw_item) (n0 : nat) (st : nstate) : Prop :=
  Forall2 numbered_from (ns_items st) all_raw_items
  /\ ns_occurrences st = (n0 + length (ns_stamps st))%nat
  /\ map ti_anchor (ns_toc_items st) = ("toc" :: map snd (ns_stamps st))%list
  /\ frontmatter_counter (ns_ctx st) = 0%nat
  /\ backmatter_counter (ns_ctx st) = 0%nat.

(** Whether a record of level 1 stands before [idx]. *)
Definition seen_one (items : list raw_item) (idx : nat) : bool :=
  if find_parent items idx is Some _ then true else false.

End Kept.

(** ** The collecting loop *)

Section Scan.
Context `{PyLib}.

(** The entry of [file_soups] for a document stems from its last reading:
    [pos] is the last place of [fname] in [files], and the soup is what
    [readfile] gives for it. *)
Definition last_reading (b : book) (files : list string)
    (e : string * (nat * list node)) : Prop :=
  files !! e.2.1 = Some e.1
  /\ bk_readfile b e.1 = Some e.2.2
  /\ forall later, (e.2.1 < later)%nat -> files !! later <> Some e.1.

(** The records one reading of the document at [pos] contributes. *)
Definition reading (b : book) (crs : list crule) (tgs : list string)
    (pos : nat) (fname : string) : list raw_item :=
  scan_elems crs (bk_id_to_href b fname) pos 0
    (find_all tgs (default [] (bk_readfile b fname))).

End Scan.

(** ** The top of the navigation map *)

(** The keys of a node, without its children. *)
Definition tree_node (t : tree) : tnode :=
  {| n_level := tree_level t; n_text := tree_text t; n_src := tree_src t |}.

(** The keys of the navigation point stored at [r]. *)
Definition node_at (h : list (option Z * tnode * list nat)) (r : nat) : option tnode :=
  (fun c : option Z * tnode * list nat => c.1.2) <$> h !! r.

(** ** The HTML page of the table of contents *)

(** [style_cls.get(f"{level}", "")]: the entry assigned last wins. *)
Definition style_cls_get (style_cls : list (string * string)) (level : nat) : string :=
  match List.find (fun kv : string * string => String.eqb kv.1 (str_of_nat level))
          (rev style_cls) with
  | Some kv => kv.2
  | None => ""
  end.

(** The lines [generate_html_toc] appends for one node of its loop. *)
Fixpoint html_toc_node (style_cls : list (string * string)) (level : nat) (node : tree)
    : list string :=
  match node with
  | TNode _ text src children =>
      if String.eqb src "toc.html" then []
      else
        let cls := style_cls_get style_cls level in
        let link :=
          "<a href=" ++ String PyStr.dquote (src ++ String PyStr.dquote (" " ++ cls ++ ">"))
          ++ escape text ++ "</a>" in
        (("  <li>" ++ link)%string
         :: match children with
            | [] => []
            | _ =>
                map (String.append "  ")
                  ("<ol>"%string
                   :: concat (map (html_toc_node style_cls (S level)) children)
                      ++ ["</ol>"%string])
            end
         ++ ["  </li>"%string])%list
  end.

(** [generate_html_toc(tree, level)] *)
Definition generate_html_toc (style_cls : list (string * string)) (level : nat)
    (toc_tree : list tree) : list string :=
  match toc_tree with
  | [] => []
  | _ =>
      ("<ol>"%string :: concat (map (html_toc_node style_cls level) toc_tree)
       ++ ["</ol>"%string])%list
  end.

(** A line that opens a list item, whatever its indentation. *)
Definition opens_item (line : string) : bool :=
  PyStr.startswith "<li>" (PyStr.lstrip line).

(** ** Setting up the preferences (src/utilities.py) *)

Section SetupPrefs.
Context {V : Type}.

(** The default dictionaries of the module. *)
Context (font_tweaks miscellaneous_settings update_settings : gmap string V).
Context (combobox_defaults rules_default : gmap string V).

(** One [if name not in prefs: ... else: check_for_new_prefs(...)] of
    [setupPrefs]; [fix_keys] tells whether the group goes through
    [fix_old_keys] first. *)
Definition setup_group (fix_keys : bool) (name : string) (defaults : gmap string V)
    (prefs : gmap string (gmap string V)) : gmap string (gmap string V) :=
  match prefs !! name with
  | None => <[name := defaults]> prefs
  | Some group =>
      <[name := check_for_new_prefs (if fix_keys then fix_old_keys group else group)
                  (map_to_list defaults)]> prefs
  end.

Definition setupPrefs (prefs : gmap string (gmap string V)) : gmap string (gmap string V) :=
  setup_group true "title_rules" rules_default
    (setup_group true "combobox_values" combobox_defaults
       (setup_group false "update_settings" update_settings
          (setup_group false "miscellaneous_settings" miscellaneous_settings
             (setup_group false "font_tweaks" font_tweaks prefs)))).

(** The groups [setupPrefs] looks after: whether the group has its old
    keys renamed, and its defaults. *)
Definition group_defaults (name : string) : option (bool * gmap string V) :=
  if String.eqb name "font_tweaks" then Some (false, font_tweaks)
  else if String.eqb name "miscellaneous_settings" then Some (false, miscellaneous_settings)
  else if String.eqb name "update_settings" then Some (false, update_settings)
  else if String.eqb name "combobox_values" then Some (true, combobox_defaults)
  else if String.eqb name "title_rules" then Some (true, rules_default)
  else None.

(** What a group is after the set-up. *)
Definition settled (fix_keys : bool) (defaults : gmap string V)
    (group : option (gmap string V)) : gmap string V :=
  match group with
  | None => defaults
  | Some g => (if fix_keys then fix_old_keys g else g) ∪ defaults
  end.

End SetupPrefs.

(** ** Reading the store of the navigation points *)

(** A navigation point as a cell of the tree store: its keys and the
    references of its children. *)
Definition nav_proj (c : option Z * tnode * list nat) : cell := (Some c.1.2, c.2).

Definition nav_store (h : list (option Z * tnode * list nat)) : heap := nav_proj <$> h.

(** The open navigation points, the innermost first: each has its [level]
    key set, its complete children, then [above], the next open point. *)
Fixpoint nav_chain (h : list (option Z * tnode * list nat)) (bound : nat)
    (above : list nat) (open : list frame) : Prop :=
  match open with
  | [] => True
  | (r, d, ts) :: below =>
      (r < bound)%nat
      /\ exists cs, h !! r = Some (Some (n_level d), d, (cs ++ above)%list)
           /\ stored_kids (nav_store h) bound r cs ts
           /\ nav_chain h r [r] below
  end.

(** The tree the open points make once they are complete, [extra] being
    the children still to hang under the innermost one. *)
Fixpoint close_up (extra : list tree) (open : list frame) : list tree :=
  match open with
  | [] => extra
  | (_, d, ts) :: below => close_up [tree_of d (ts ++ extra)%list] below
  end.

(** The nodes of the open points, the outermost first. *)
Definition open_listing (open : list frame) : list tnode :=
  concat (map (fun f : frame => f.1.2 :: forest_preorder f.2) (rev open)).

(** The outermost open point is of level 1. *)
Fixpoint rooted (open : list frame) : Prop :=
  match open with
  | [] => True
  | f :: below =>
      match below with
      | [] => n_level f.1.2 = 1
      | _ => rooted below
      end
  end.

(** The reference of the outermost open point. *)
Fixpoint bottom_ref (open : list frame) : list nat :=
  match open with
  | [] => []
  | f :: below =>
      match below with
      | [] => [f.1.1]
      | _ => bottom_ref below
      end
  end.

(** A complete point at the top of the map: its reference, a bound on the
    references of its subtree, and its tree; no point of the stack lies in
    its subtree. *)
Definition top_ok (h : list (option Z * tnode * list nat)) (stack : list nat)
    (e : nat * nat * tree) : Prop :=
  stored (nav_store h) e.1.2 e.1.1 e.2
  /\ (e.1.2 <= length h)%nat
  /\ Forall (fun s => s < e.1.1 \/ e.1.2 <= s)%nat stack.

(** The invariant of the loop that builds the navigation points. *)
Definition nav_inv (st : NavPoints.state) (tops : list (nat * nat * tree))
    (open : list frame) : Prop :=
  nav_chain (NavPoints.st_heap st) (length (NavPoints.st_heap st)) [] open
  /\ NavPoints.st_stack st = map (fun f : frame => f.1.1) open
  /\ rooted open
  /\ NavPoints.st_navpoints st
     = (map (fun e : nat * nat * tree => e.1.1) tops ++ bottom_ref open)%list
  /\ Forall (top_ok (NavPoints.st_heap st) (NavPoints.st_stack st)) tops.

Definition nav_listing (tops : list (nat * nat * tree)) (open : list frame) : list tnode :=
  (forest_preorder (map snd tops) ++ open_listing open)%list.

(** The records that become navigation points below the top of the map or
    at its end: those of level 1, and those of a greater level that come
    after one of level 1. *)
Fixpoint nav_kept (seen1 : bool) (items : list toc_item) : list toc_item :=
  match items with
  | [] => []
  | item :: rest =>
      if ti_level item >? 0 then
        if (ti_level item =? 1) || seen1 then item :: nav_kept true rest
        else nav_kept false rest
      else nav_kept seen1 rest
  end.

Definition no_open (open : list frame) : bool :=
  match open with
  | [] => true
  | _ => false
  end.

(** ** Depth of the trees under construction *)

(** The depth the open nodes reach once they are complete, [extra] being
    the depth of what still hangs under the innermost one. *)
Fixpoint frames_depth (extra : nat) (open : list frame) : nat :=
  match open with
  | [] => extra
  | (_, _, ts) :: below => frames_depth (S (Nat.max (calc_max_depth ts) extra)) below
  end.

Definition zipper_depth (z : list frame * list tree) : nat :=
  Nat.max (calc_max_depth z.2) (frames_depth 0 z.1).

Definition nav_depth (tops : list (nat * nat * tree)) (open : list frame) : nat :=
  Nat.max (calc_max_depth (map snd tops)) (frames_depth 0 open).

Definition frame_level (f : frame) : Z := n_level f.1.2.

(** How the number of open nodes and the depth reached evolve in
    [build_tree], record by record. *)
Definition tree_track (s : nat * nat) (level : Z) : nat * nat :=
  if level =? 0 then s
  else
    let len := Nat.min (Z.to_nat level) (S s.1) in
    (len, Nat.max s.2 len).

(** The levels left on the stack of the navigation builder by
    [while stack and stack[-1]["level"] >= level: stack.pop()]. *)
Fixpoint pop_levels (level : Z) (levels : list Z) : list Z :=
  match levels with
  | [] => []
  | l :: rest => if l >=? level then pop_levels level rest else levels
  end.

(** How the levels on the stack and the depth reached evolve in the
    navigation builder. *)
Definition nav_track (s : list Z * nat) (level : Z) : list Z * nat :=
  if level >? 0 then
    if level =? 1 then ([1], Nat.max s.2 1)
    else
      match pop_levels level s.1 with
      | [] => ([], s.2)
      | rest => (level :: rest, Nat.max s.2 (S (length rest)))
      end
  else (s.1, Nat.max s.2 1).

(** Every level on the stack is at least the depth of its point. *)
Fixpoint at_least_depth (levels : list Z) : Prop :=
  match levels with
  | [] => True
  | l :: rest => Z.of_nat (length levels) <= l /\ at_least_depth rest
  end.

(** * Vocabulary of the statements *)

Section Vocabulary.
Context `{PyLib}.

(** What one required pair asks of the element: a successful regex search
    when the expected value is sniffed as a pattern, a substring
    otherwise. *)
Definition entry_holds (actual : gmap string attr_value) (kv : string * string) : Prop :=
  if sniffed kv.2
  then re_search kv.2 (actual_str kv.1 actual) = Some true
  else PyStr.contains kv.2 (actual_str kv.1 actual) = true.

(** The successful path through the body of the loop over the rules, in
    the terms of the functions the body calls: the element has the rule's
    tag, its attributes satisfy the rule's, the single significant child
    (when the rule names one) has the child tag and attributes, and the
    compiled pattern matches the extracted [text] from its start.
    [rule_matches] below says the same without these functions. *)
Definition conditions_hold (cr : crule) (elem : tag) (text : string) : Prop :=
  let r := cr_rule cr in
  tag_name elem = r_element r
  /\ attrs_match (tag_attrs elem) (effective_attrs (r_parent_attrs r) (r_class r)) = true
  /\ (let child_element := PyStr.strip (default "" (r_child_element r)) in
      if bool_decide (child_element = "")
      then text = get_text_strip (tag_children elem)
      else exists at_ cs,
          significant_children (tag_children elem) = [NTag child_element at_ cs]
          /\ attrs_match at_ (effective_attrs (r_child_attrs r) (r_child_class r)) = true
          /\ text = get_text_strip cs)
  /\ is_Some (re_match (compiled_pattern cr) text).

(** A string child that is white space only. *)
Definition blank (n : node) : Prop :=
  exists s, n = NText s /\ PyStr.strip s = "".

(** The text of an element: the strings below it in document order, each
    one stripped, put together. *)
Fixpoint text_below (n : node) : string :=
  match n with
  | NText s => PyStr.strip s
  | NTag _ _ cs => fold_right (fun c rest => text_below c ++ rest) "" cs
  end.

(** The strings of a list put together. *)
Definition glue (l : list string) : string := fold_right String.append "" l.

Definition texts_below (cs : list node) : string :=
  fold_right (fun c rest => text_below c ++ rest) "" cs.

(** What a rule requires of attributes: the dictionary of the rule when
    it has one; otherwise its legacy class, stripped, under the key
    [class], and nothing when the rule has none or an empty one. *)
Definition requires (attrs : option (list (string * string))) (legacy : option string)
    (required : list (string * string)) : Prop :=
  match attrs, legacy with
  | Some a, _ => required = a
  | None, Some cls =>
      (PyStr.strip cls = "" /\ required = [])
      \/ (PyStr.strip cls <> "" /\ required = [("class", PyStr.strip cls)])
  | None, None => required = []
  end.

(** Every required pair is met by the attributes: by a regex search when
    the expected value starts with [^], ends with [$] or contains [.*],
    and as a substring otherwise. *)
Definition meets (actual : gmap string attr_value) (required : list (string * string))
    : Prop :=
  forall key expected, In (key, expected) required ->
    if PyStr.startswith "^" expected || PyStr.endswith "$" expected
       || PyStr.contains ".*" expected
    then re_search expected (actual_str key actual) = Some true
    else PyStr.contains expected (actual_str key actual) = true.

(** The conditions of a rule on an element, [text] being the text the
    pattern is tried on: the element has the tag of the rule and meets the
    attributes it requires; when the rule names a child element, the
    children of the element are one tag of that name, which meets the
    attributes required of the child, among blank strings only, and the
    text is the text of this child, otherwise it is the text of the
    element; the compiled pattern matches at the start of the text. *)
Definition rule_matches (cr : crule) (elem : tag) (text : string) : Prop :=
  let r := cr_rule cr in
  let child_element :=
    match r_child_element r with
    | Some name => PyStr.strip name
    | None => ""
    end in
  tag_name elem = r_element r
  /\ (exists required,
        requires (r_parent_attrs r) (r_class r) required
        /\ meets (tag_attrs elem) required)
  /\ ((child_element = "" /\ text = texts_below (tag_children elem))
      \/ (child_element <> ""
          /\ exists before at_ cs after required,
              tag_children elem = (before ++ NTag child_element at_ cs :: after)%list
              /\ Forall blank before /\ Forall blank after
              /\ requires (r_child_attrs r) (r_child_class r) required
              /\ meets at_ required
              /\ text = texts_below cs))
  /\ (exists groups, re_match (compiled_pattern cr) text = Some groups).

(** The tuple the matching rule returns. *)
Definition classification_of (cr : crule) (text : string) : classification :=
  {| c_level := r_level (cr_rule cr);
     c_text := text;
     c_zone_type := default "chapter" (r_zone_type (cr_rule cr));
     c_numbering := r_numbering (cr_rule cr);
     c_display_template := default "" (r_display_template (cr_rule cr));
     c_compiled_pattern := compiled_pattern cr |}.

(** Every level-1 item before [idx] carries its anchor: the invariant of
    the numbering loop that makes [parent["anchor_id"]] defined. *)
Definition parents_numbered (items : list raw_item) (idx : nat) : Prop :=
  forall j it, (j < idx)%nat -> items !! j = Some it -> i_level it = 1 ->
    is_Some (i_anchor_id it).

End Vocabulary.

(** The specification read to the letter: every multi-valued attribute is
    joined with spaces, whatever its key. *)
Definition claimed_actual_str (key : string) (elem_attrs : gmap string attr_value) : string :=
  match elem_attrs !! key with
  | None => ""
  | Some (AStr s) => s
  | Some (AList l) => PyStr.join " " l
  end.

Definition claimed_attrs_match `{PyLib} (elem_attrs : gmap string attr_value)
    (required_attrs : list (string * string)) : bool :=
  forallb (fun kv : string * string =>
    if sniffed kv.2
    then bool_decide (re_search kv.2 (claimed_actual_str kv.1 elem_attrs) = Some true)
    else PyStr.contains kv.2 (claimed_actual_str kv.1 elem_attrs)) required_attrs.

(** The display text [level1_assign] produces, or the exception. *)
Definition display_of (r : py (TOCContext * string * string)) : py string :=
  match r with
  | inl e => inl e
  | inr (_, display_text, _) => inr display_text
  end.

(** The substitution as the specification words it: [num] is the number
    token the pattern captured, except in the part and appendix zones, and
    [text] is the clean title in every zone. *)
Definition claimed_level1_display `{PyLib} (ctx : TOCContext) (item : raw_item) : py string :=
  let zt := i_zone_type item in
  let raw := i_raw_text item in
  let! (number_token, clean_title) :=
    extract_clean_text_and_number raw (i_compiled_pattern item) in
  let! num :=
    if String.eqb zt "part" then ret (int_to_roman (S (part_counter ctx)))
    else if String.eqb zt "appendix" then appendix_letter (S (appendix_counter ctx))
    else ret number_token in
  format_template (i_display_template item) num clean_title raw.

Definition entry (lvl : Z) (text file anchor : string) : toc_item :=
  {| ti_level := lvl; ti_text := text; ti_file := file; ti_anchor := anchor |}.

(** The tree node [build_tree] makes of an entry, over given children. *)
Definition node_of (item : toc_item) (children : list tree) : tree :=
  TNode (ti_level item) (ti_text item) (item_src item) children.

(** The shape the specification gives for the level sequence 1, 2, 3, 2, 1. *)
Definition claimed_shape_12321 (forest : list tree) : Prop :=
  exists t1 t2 c2 c3,
    forest = [t1; t2]
    /\ tree_children t1 = [c2] /\ tree_level c2 = 2
    /\ tree_children c2 = [c3] /\ tree_level c3 = 3
    /\ tree_children t2 = [].

(** The cell at [r] is a navigation point whose [level] key is set. *)
Definition linked (h : list (option Z * tnode * list nat)) (r : nat) : Prop :=
  exists lv d cs, h !! r = Some (Some lv, d, cs).

(** Sorting the calls made on the host. *)
Definition rewrites_content (e : effect) : bool :=
  match e with
  | WriteFile _ (PSoup _ _) => true
  | _ => false
  end.

Definition writes_ncx (e : effect) : bool :=
  match e with
  | WriteFile _ (PNcx _ _ _ _) | AddFile _ _ (PNcx _ _ _ _) _ => true
  | _ => false
  end.

Definition registers_toc_page (e : effect) : bool :=
  match e with
  | WriteFile _ (PHtmlToc _ _ _) | AddFile _ _ (PHtmlToc _ _ _) _ => true
  | SpineInsertBefore _ _ => true
  | _ => false
  end.

(** The call that rewrites one scanned document. *)
Definition content_write (stamps : list (elem_ref * string))
    (entry : string * (nat * list node)) : effect :=
  WriteFile entry.1 (PSoup entry.2.2 (stamps_of entry.2.1 stamps)).

(** ** Concrete inputs on the fragment *)

Module NumberingExamples.

#[local] Existing Instance mini_lib.

Definition heading (lvl : Z) (k : nat) (raw zone template pat : string)
    : @raw_item mini_lib :=
  {| i_level := lvl; i_elem := (0%nat, k); i_file_name := "ch.xhtml";
     i_raw_text := raw; i_zone_type := zone; i_numbering := None;
     i_display_template := template; i_compiled_pattern := mini_compiled pat;
     i_display_text := None; i_anchor_id := None |}.

Definition chapter (k : nat) (raw : string) : @raw_item mini_lib :=
  heading 1 k raw "chapter" "" "Chapter (\d+): (.*)".

Definition section (k : nat) (raw : string) : @raw_item mini_lib :=
  heading 2 k raw "chapter" "" ".*".

(** Two chapters, each followed by two sections. *)
Definition book_items : list (@raw_item mini_lib) :=
  [chapter 0 "Chapter 1: One"; section 1 "a"; section 2 "b";
   chapter 3 "Chapter 2: Two"; section 4 "c"; section 5 "d"].

(** The state after the first chapter of [book_items] was numbered. *)
Definition after_first_chapter : @nstate mini_lib :=
  {| ns_ctx := {| chapter_counter := 1; appendix_counter := 0; frontmatter_counter := 0;
                  backmatter_counter := 0; part_counter := 0; section_counters := ∅ |};
     ns_items := <[0%nat := set_numbering (chapter 0 "Chapter 1: One") "Chapter 1" "1"]>
                   book_items;
     ns_toc_items := [toc_root_item;
                      {| ti_level := 1; ti_text := "Chapter 1";
                         ti_file := "ch.xhtml"; ti_anchor := "1" |}];
     ns_occurrences := 1;
     ns_locals := (Some "Chapter 1", Some "1");
     ns_stamps := [((0%nat, 0%nat), "1")] |}.

End NumberingExamples.

Module DisplayExamples.

#[local] Existing Instance mini_lib.

(** The first chapter of a book, whose heading says 5. *)
Definition chapter_five : raw_item :=
  NumberingExamples.heading 1 0 "Chapter 5: Intro" "chapter" "{num}. {text}"
    "Chapter (\d+): (.*)".

Definition preface : raw_item :=
  NumberingExamples.heading 1 0 "Preface" "frontmatter" "[{num}] {text}" "(Pre)(face)".

(** The end-to-end example of the specification (with [:\s*] for the
    separator class of its pattern). *)
Definition introduction : raw_item :=
  NumberingExamples.heading 1 0 "Chapter 1: Introduction" "chapter" "Lesson {num}: {text}"
    "^Chapter\s+(\d+):\s*(.*)".

End DisplayExamples.

Module RunExamples.

#[local] Existing Instance mini_lib.

(** The rule for [<h1>Chapter n: title</h1>] headings. *)
Definition chapter_rule : rule :=
  {| r_level := 1; r_element := "h1";
     r_parent_attrs := Some []; r_class := None;
     r_child_element := Some ""; r_child_attrs := Some []; r_child_class := None;
     r_text_pattern := Some "Chapter (\d+): (.*)"; r_case_insensitive := false;
     r_zone_type := Some "chapter"; r_numbering := None;
     r_display_template := Some "" |}.

Definition chapter_doc : list node :=
  [NTag "html" ∅
     [NTag "body" ∅
        [NTag "h1" ∅ [NText "Chapter 1: One"];
         NTag "p" ∅ [NText "Once upon a time."]]]].


Definition metadata : opf_metadata :=
  {| md_title := Some "A Book"; md_identifiers := [(Some "uid", "urn:book")] |}.

Definition package (spine : list (option string * option string)) (doc : list node)
    (root : opf) : book :=
  {| bk_getspine := spine;
     bk_get_opf := Some root;
     bk_readfile := fun id => if String.eqb id "ch1" then Some doc else None;
     bk_id_to_href := fun _ => "Text/ch1.xhtml";
     bk_toc_ncx_id := None;
     bk_rejects := fun _ => false |}.

Definition ch1_spine : list (option string * option string) := [(Some "ch1", Some "yes")].

(** An OPF without [<manifest>]. *)
Definition opf_without_manifest : opf :=
  {| opf_unique_identifier := Some "uid"; opf_metadata_elem := Some metadata;
     opf_manifest := None; opf_spine := Some [Some "ch1"] |}.

(** An OPF without [<spine>]. *)
Definition opf_without_spine : opf :=
  {| opf_unique_identifier := Some "uid"; opf_metadata_elem := Some metadata;
     opf_manifest := Some [(Some "ch1", Some "Text/ch1.xhtml")]; opf_spine := None |}.

Definition opf_complete : opf :=
  {| opf_unique_identifier := Some "uid"; opf_metadata_elem := Some metadata;
     opf_manifest := Some [(Some "ch1", Some "Text/ch1.xhtml")];
     opf_spine := Some [Some "ch1"] |}.

Definition parser (b : book) : MarkupParser :=
  MarkupParser_init b [chapter_rule] ["h1"; "h2"] [("1", [("class", "calibre13")])].

Definition without_manifest : MarkupParser :=
  parser (package ch1_spine chapter_doc opf_without_manifest).

Definition without_spine : MarkupParser :=
  parser (package ch1_spine chapter_doc opf_without_spine).

End RunExamples.

(** ** Sorting the calls, continued *)

(** The call that writes or overwrites the HTML page of the table of
    contents, and the call that puts it into the spine. *)
Definition writes_toc_page (e : effect) : bool :=
  match e with
  | WriteFile _ (PHtmlToc _ _ _) | AddFile _ "toc.html" (PHtmlToc _ _ _) _ => true
  | _ => false
  end.

Definition inserts_in_spine (e : effect) : bool :=
  match e with
  | SpineInsertBefore 1 _ => true
  | _ => false
  end.

(** The keys [getRules] indexes are all there. *)
Definition complete_rule (rl : rule) : Prop :=
  is_Some (r_parent_attrs rl) /\ is_Some (r_child_attrs rl)
  /\ is_Some (r_child_element rl) /\ is_Some (r_text_pattern rl).

Module RunExamples2.

#[local] Existing Instance mini_lib.

(** A rule for an element the run does not look at, with a pattern that
    does not compile. *)
Definition broken_rule : rule :=
  {| r_level := 2; r_element := "h6";
     r_parent_attrs := Some []; r_class := None;
     r_child_element := Some ""; r_child_attrs := Some []; r_child_class := None;
     r_text_pattern := Some "(unclosed"; r_case_insensitive := false;
     r_zone_type := None; r_numbering := None; r_display_template := None |}.

Definition with_broken_rule : MarkupParser :=
  MarkupParser_init
    (RunExamples.package RunExamples.ch1_spine RunExamples.chapter_doc RunExamples.opf_complete)
    [RunExamples.chapter_rule; broken_rule] ["h1"; "h2"] [].

(** The package of the examples with its document listed twice in the
    spine. *)
Definition listed_twice : MarkupParser :=
  RunExamples.parser
    (RunExamples.package [(Some "ch1", Some "yes"); (Some "ch1", Some "yes")]
       RunExamples.chapter_doc RunExamples.opf_complete).

End RunExamples2.

(** ** Counting the ids that are written *)

(** The number of [id] attributes a call writes into a content document. *)
Definition stamps_written (e : effect) : nat :=
  match e with
  | WriteFile _ (PSoup _ stamps) => length stamps
  | _ => 0%nat
  end.

(** * Properties *)

(** ** The helpers on the examples of the specification *)

Module Sanity.

Example roman_examples :
  map int_to_roman [1; 4; 9; 40; 90; 1994]%nat = ["I"; "IV"; "IX"; "XL"; "XC"; "MCMXCIV"].
Proof. reflexivity. Qed.

Example slug_examples :
  @safe_id_from_text mini_lib "Hello, World!" = "hello-world"
  /\ @safe_id_from_text mini_lib "?!...!" = "toc-item".
Proof. split; reflexivity. Qed.

Example appendix_letters :
  map appendix_letter [1; 2; 26]%nat = [inr "A"; inr "B"; inr "Z"].
Proof. reflexivity. Qed.

(** U+00E9, U+3000 and U+1F600 on two, three and four bytes; nothing
    beyond U+10FFFF. *)
Example chr_examples :
  map (fun r => match r with
                | inr s => Some (map nat_of_ascii (list_ascii_of_string s))
                | inl _ => None
                end) (map chr [233; 12288; 128512; 1114111; 1114112]%N)
  = [Some [195; 169]; Some [227; 128; 128]; Some [240; 159; 152; 128];
     Some [244; 143; 191; 191]; None]%nat.
Proof. reflexivity. Qed.

(** White space outside ASCII is stripped as well: a no-break space
    (U+00A0) before and an ideographic space (U+3000) after the text. *)
Example strip_examples :
  let text (l : list nat) := string_of_list_ascii (map ascii_of_nat l) in
  PyStr.strip (text [32; 194; 160; 97; 32; 98; 227; 128; 128; 10]%nat) = "a b"
  /\ PyStr.strip (text [194; 160; 227; 128; 128]%nat) = ""
  /\ PyStr.strip (text [195; 160; 32]%nat) = text [195; 160]%nat.
Proof. repeat split; reflexivity. Qed.

Example format_examples :
  MiniFormat.format "Lesson {num}: {text}" "1" "Introduction" "Chapter 1: Introduction"
    = Some "Lesson 1: Introduction"
  /\ MiniFormat.format "{title}" "1" "Introduction" "Chapter 1" = None.
Proof. split; reflexivity. Qed.

Example match_examples :
  (MiniRe.pmatch (mini_compiled "Chapter (\d+): (.*)") "Chapter 5: Intro"
     = Some [Some "5"; Some "Intro"])
  /\ MiniRe.pmatch (mini_compiled "Chapter (\d+): (.*)") "Preface" = None
  /\ MiniRe.compile "^(" false = MiniRe.PError.
Proof. repeat split; reflexivity. Qed.

End Sanity.

(** ** Strings *)

Lemma append_nil_r (s : string) : s ++ "" = s.
Proof. induction s as [|c s IH]; [done|]. change (String c (s ++ "") = String c s). by rewrite IH. Qed.

Lemma append_assoc (a b c : string) : (a ++ b) ++ c = a ++ (b ++ c).
Proof. induction a as [|x a IH]; [done|]. change (String x ((a ++ b) ++ c) = String x (a ++ (b ++ c))). by rewrite IH. Qed.

Lemma list_ascii_append (a b : string) :
  list_ascii_of_string (a ++ b) = (list_ascii_of_string a ++ list_ascii_of_string b)%list.
Proof. induction a as [|x a IH]; [done|]. change (x :: list_ascii_of_string (a ++ b) = x :: (list_ascii_of_string a ++ list_ascii_of_string b)%list). by rewrite IH. Qed.

(** ** Attribute matching *)

Section AttrsMatch.
Context `{PyLib}.

Lemma attr_ok_entry_holds actual kv : attr_ok actual kv = true <-> entry_holds actual kv.
Proof.
  destruct kv as [key expected]. unfold attr_ok, entry_holds. simpl.
  destruct (sniffed expected); [|done].
  destruct (re_search expected (actual_str key actual)) as [[]|]; split; congruence.
Qed.

Lemma attrs_match_unfold actual required :
  attrs_match actual required = attrs_match_loop actual required.
Proof. by destruct required. Qed.

Lemma attrs_match_loop_Forall actual required :
  attrs_match_loop actual required = true <-> Forall (entry_holds actual) required.
Proof.
  induction required as [|kv rest IH]; simpl.
  - split; [constructor | done].
  - split.
    + intros Hm. destruct (attr_ok actual kv) eqn:Hkv; [|done].
      constructor.
      * by apply (proj1 (attr_ok_entry_holds actual kv)).
      * by apply (proj1 IH).
    + intros Hall. inversion Hall as [|? ? Hkv Hrest]; subst.
      apply (proj2 (attr_ok_entry_holds actual kv)) in Hkv. rewrite Hkv.
      by apply (proj2 IH).
Qed.

Lemma attrs_match_Forall actual required :
  attrs_match actual required = true <-> Forall (entry_holds actual) required.
Proof. rewrite attrs_match_unfold. apply attrs_match_loop_Forall. Qed.

(** A required pair that fails makes the whole match fail. *)
Lemma attrs_match_failing_entry actual required kv :
  In kv required -> attr_ok actual kv = false -> attrs_match actual required = false.
Proof.
  intros Hin Hko. apply not_true_is_false. rewrite attrs_match_Forall.
  intros Hall. rewrite Forall_forall in Hall.
  apply Hall, attr_ok_entry_holds in Hin. congruence.
Qed.

End AttrsMatch.

(** C8, as stated, fails: a multi-valued attribute other than [class] is
    not joined with spaces. For [<a rel="a b">] the parser stores
    [["a", "b"]], the engine compares against [str(["a", "b"])], and the
    required value [a b] that the joined text contains is not found. *)
Lemma attrs_match_joins_class_only :
  let actual : gmap string attr_value := {[ "rel" := AList ["a"; "b"] ]} in
  let required := [("rel", "a b")] in
  @claimed_attrs_match mini_lib actual required = true
  /\ @attrs_match mini_lib actual required = false
  /\ @actual_str "rel" actual = "['a', 'b']".
Proof. vm_compute. done. Qed.

(** C8, amended: [attrs_match] is true on an empty requirement; otherwise
    it is true exactly when every required pair holds, where the actual
    value is the attribute (the empty string when absent), a list under
    the key [class] joined with spaces and a list under any other key
    rendered by [str]; the expected value is searched as a regex exactly
    when it starts with [^], ends with [$] or contains [.*], and is a
    substring test otherwise. The two examples of the specification hold. *)
Theorem attrs_match_characterised `{PyLib} (actual : gmap string attr_value)
    (required : list (string * string)) :
  attrs_match actual [] = true
  /\ (attrs_match actual required = true <->
      forall key expected, In (key, expected) required ->
        if PyStr.startswith "^" expected || PyStr.endswith "$" expected
           || PyStr.contains ".*" expected
        then re_search expected (actual_str key actual) = Some true
        else PyStr.contains expected (actual_str key actual) = true)
  /\ (forall key, actual !! key = None -> actual_str key actual = "")
  /\ (forall key s, actual !! key = Some (AStr s) -> actual_str key actual = s)
  /\ (forall l, actual !! "class" = Some (AList l) ->
        actual_str "class" actual = PyStr.join " " l)
  /\ (forall key l, key <> "class" -> actual !! key = Some (AList l) ->
        actual_str key actual = PyStr.str_of_list l)
  /\ attrs_match {[ "class" := AStr "a b c" ]} [("class", "b")] = true
  /\ (re_search "^y$" "x" = Some false ->
      attrs_match {[ "class" := AStr "x" ]} [("class", "^y$")] = false).
Proof.
  split; [done|]. split.
  { rewrite attrs_match_Forall, Forall_forall. split.
    - intros Hall key expected Hin. apply (Hall (key, expected) Hin).
    - intros Hall [key expected] Hin. apply (Hall key expected Hin). }
  split; [intros key Hk; unfold actual_str; by rewrite Hk|].
  split; [intros key s Hk; unfold actual_str; by rewrite Hk|].
  split; [intros l Hk; unfold actual_str; by rewrite Hk|].
  split.
  { intros key l Hne Hk. unfold actual_str. rewrite Hk.
    destruct (String.eqb_spec key "class"); congruence. }
  split; [vm_compute; reflexivity|].
  intros Hsearch. unfold attrs_match, attrs_match_loop, attr_ok.
  replace (sniffed "^y$") with true by (vm_compute; reflexivity).
  replace (actual_str "class" {[ "class" := AStr "x" ]}) with "x"
    by (vm_compute; reflexivity).
  by rewrite Hsearch.
Qed.

(** The characterisation at work on the fragment: the second example. *)
Lemma attrs_match_characterised_witness :
  @attrs_match mini_lib {[ "class" := AStr "x" ]} [("class", "^y$")] = false.
Proof.
  apply (attrs_match_characterised (H := mini_lib) ∅ []).
  vm_compute. reflexivity.
Defined.

(** ** Classification *)

(** The text a rule is tried on. *)

Lemma node_children_ind (P : node -> Prop) :
  (forall s, P (NText s)) ->
  (forall nm at_ cs, Forall P cs -> P (NTag nm at_ cs)) ->
  forall n, P n.
Proof.
  intros Htext Htag. fix IH 1. intros [s|nm at_ cs]; [apply Htext|]. apply Htag.
  induction cs as [|c cs IHcs]; constructor; [apply IH | exact IHcs].
Qed.

Lemma glue_app (l1 l2 : list string) : glue (l1 ++ l2) = glue l1 ++ glue l2.
Proof.
  induction l1 as [|x l1 IH]; [done|].
  change (x ++ glue (l1 ++ l2)%list = (x ++ glue l1) ++ glue l2).
  by rewrite IH, append_assoc.
Qed.

Lemma join_nonempty (l : list string) :
  PyStr.join "" (List.filter (fun s => negb (String.eqb s "")) l) = glue l.
Proof.
  induction l as [|x l IH]; [done|]. cbn [List.filter].
  destruct (String.eqb_spec x "") as [->|Hne]; simpl negb; cbv iota.
  - by rewrite IH.
  - change (glue (x :: l)) with (x ++ glue l). rewrite <- IH.
    destruct (List.filter _ l) as [|y rest]; [by rewrite append_nil_r|]. done.
Qed.

Lemma text_below_strings (n : node) :
  text_below n = glue (map PyStr.strip (all_strings n)).
Proof.
  induction n as [s|nm at_ cs IH] using node_children_ind; [symmetry; apply append_nil_r|].
  cbn [text_below all_strings].
  induction IH as [|c cs Hc _ IHcs]; [done|].
  cbn [fold_right map concat]. by rewrite map_app, glue_app, Hc, IHcs.
Qed.

Lemma get_text_strip_below (cs : list node) : get_text_strip cs = texts_below cs.
Proof.
  unfold get_text_strip, texts_below. rewrite join_nonempty.
  induction cs as [|c cs IH]; [done|].
  cbn [fold_right map concat]. by rewrite map_app, glue_app, text_below_strings, IH.
Qed.

Section Classify.
Context `{PyLib}.

Lemma rule_text_spec (cr : crule) (elem : tag) (text : string) :
  rule_text (cr_rule cr) elem = Some text <->
  tag_name elem = r_element (cr_rule cr)
  /\ attrs_match (tag_attrs elem)
       (effective_attrs (r_parent_attrs (cr_rule cr)) (r_class (cr_rule cr))) = true
  /\ (let child_element := PyStr.strip (default "" (r_child_element (cr_rule cr))) in
      if bool_decide (child_element = "")
      then text = get_text_strip (tag_children elem)
      else exists at_ cs,
          significant_children (tag_children elem) = [NTag child_element at_ cs]
          /\ attrs_match at_
               (effective_attrs (r_child_attrs (cr_rule cr)) (r_child_class (cr_rule cr))) = true
          /\ text = get_text_strip cs).
Proof.
  unfold rule_text. cbv zeta.
  destruct (String.eqb_spec (tag_name elem) (r_element (cr_rule cr))) as [Hn|Hn]; simpl;
    [|split; [done | intros [? _]; done]].
  destruct (attrs_match (tag_attrs elem) _) eqn:Hp; simpl;
    [|split; [done | intros (_ & ? & _); done]].
  case_bool_decide as Hc; simpl.
  - split; [intros [= <-]; done | intros (_ & _ & ->); done].
  - split.
    + intros Hm.
      destruct (significant_children (tag_children elem)) as [|[s|nm at_ cs] [|? ?]];
        try done.
      destruct (String.eqb_spec nm (PyStr.strip (default "" (r_child_element (cr_rule cr)))))
        as [->|Hne]; simpl in Hm; [|done].
      destruct (attrs_match at_ _) eqn:Hca; simpl in Hm; [|done].
      injection Hm as <-. split; [done|]. split; [done|]. by exists at_, cs.
    + intros (_ & _ & at_ & cs & -> & Hca & ->).
      rewrite String.eqb_refl. simpl. by rewrite Hca.
Qed.

Lemma rule_applies_spec (cr : crule) (elem : tag) (c : classification) :
  rule_applies cr elem = Some c <->
  exists text, conditions_hold cr elem text /\ c = classification_of cr text.
Proof.
  unfold rule_applies, conditions_hold. cbv zeta. split.
  - destruct (rule_text (cr_rule cr) elem) as [text|] eqn:Ht; [|done].
    destruct (re_match (compiled_pattern cr) text) eqn:Hm; [|done].
    intros [= <-]. exists text. apply rule_text_spec in Ht as (? & ? & ?).
    rewrite Hm. by eauto 10.
  - intros (text & (Hn & Hp & Hc & [g Hm]) & ->).
    assert (rule_text (cr_rule cr) elem = Some text) as -> by by apply rule_text_spec.
    by rewrite Hm.
Qed.

Lemma rule_applies_None (cr : crule) (elem : tag) :
  rule_applies cr elem = None <-> forall text, ~ conditions_hold cr elem text.
Proof.
  split.
  - intros Hn text Hc.
    assert (rule_applies cr elem = Some (classification_of cr text)) as Hs
      by (apply rule_applies_spec; eauto).
    congruence.
  - intros Hno. destruct (rule_applies cr elem) as [c|] eqn:Hc; [|done].
    apply rule_applies_spec in Hc as (text & Hc & _). by destruct (Hno text).
Qed.

(** The loop returns at the first rule that applies. *)
Lemma classify_heading_first (rules : list crule) (elem : tag) (c : classification) :
  classify_heading rules elem = Some c <->
  exists before cr after,
    rules = (before ++ cr :: after)%list
    /\ Forall (fun earlier => rule_applies earlier elem = None) before
    /\ rule_applies cr elem = Some c.
Proof.
  induction rules as [|r rest IH]; simpl.
  - split; [done|]. intros ([|? ?] & ? & ? & ? & _); done.
  - destruct (rule_applies r elem) as [c'|] eqn:Hr.
    + split.
      * intros [= <-]. exists [], r, rest. by repeat split.
      * intros ([|r' before] & cr & after & Heq & Hbefore & Hcr); simpl in Heq.
        -- injection Heq as -> ->. congruence.
        -- injection Heq as -> ->. inversion Hbefore; congruence.
    + rewrite IH. split.
      * intros (before & cr & after & -> & Hbefore & Hcr).
        exists (r :: before), cr, after. split; [done|]. split; [|done].
        by constructor.
      * intros ([|r' before] & cr & after & Heq & Hbefore & Hcr); simpl in Heq.
        -- injection Heq as -> ->. congruence.
        -- injection Heq as -> ->. inversion Hbefore; subst. by eauto 10.
Qed.

Lemma classify_heading_None (rules : list crule) (elem : tag) :
  classify_heading rules elem = None <->
  Forall (fun cr => rule_applies cr elem = None) rules.
Proof.
  induction rules as [|r rest IH]; simpl.
  - split; [constructor | done].
  - destruct (rule_applies r elem) eqn:Hr.
    + split; [done|]. intros Hall. inversion Hall; congruence.
    + rewrite IH. split.
      * intros. by constructor.
      * intros Hall. by inversion Hall.
Qed.

Lemma requires_effective (attrs : option (list (string * string))) (legacy : option string)
    (required : list (string * string)) :
  requires attrs legacy required <-> required = effective_attrs attrs legacy.
Proof.
  unfold requires, effective_attrs.
  destruct attrs as [a|]; [done|]. destruct legacy as [cls|]; simpl.
  - case_bool_decide as Hc; split.
    + intros [[_ ->]|[Hne _]]; done.
    + intros ->. by left.
    + intros [[He _]|[_ ->]]; done.
    + intros ->. by right.
  - done.
Qed.

Lemma meets_attrs_match (actual : gmap string attr_value) (required : list (string * string)) :
  meets actual required <-> attrs_match actual required = true.
Proof.
  rewrite attrs_match_Forall, Forall_forall. unfold meets, entry_holds, sniffed. split.
  - intros Hall [key expected] Hin. apply (Hall key expected Hin).
  - intros Hall key expected Hin. apply (Hall (key, expected) Hin).
Qed.

Lemma blank_dec (n : node) :
  match n with
  | NText s => negb (String.eqb (PyStr.strip s) "")
  | NTag _ _ _ => true
  end = false <-> blank n.
Proof.
  destruct n as [s|nm at_ cs].
  - destruct (String.eqb_spec (PyStr.strip s) "") as [He|Hne]; simpl; split; try done.
    + intros _. by exists s.
    + intros (s' & [= <-] & He). done.
  - split; [done|]. intros (s & Hs & _). done.
Qed.

Lemma significant_children_blank (cs : list node) :
  Forall blank cs <-> significant_children cs = [].
Proof.
  unfold significant_children. induction cs as [|c cs IH]; simpl.
  - split; [done|constructor].
  - pose proof (blank_dec c) as Hc.
    destruct (match c with NText s => _ | NTag _ _ _ => _ end) eqn:Hk.
    + split; [|done]. intros Hall. inversion Hall as [|? ? Hb _]; subst.
      apply Hc in Hb. done.
    + rewrite <- IH. split.
      * intros Hall. by inversion Hall.
      * intros Hall. constructor; [by apply Hc | done].
Qed.

Lemma significant_children_single (cs : list node) (nm : string)
    (at_ : gmap string attr_value) (below : list node) :
  significant_children cs = [NTag nm at_ below] <->
  exists before after,
    cs = (before ++ NTag nm at_ below :: after)%list
    /\ Forall blank before /\ Forall blank after.
Proof.
  induction cs as [|c cs IH].
  - split; [done|]. intros ([|? ?] & ? & ? & _); done.
  - pose proof (blank_dec c) as Hc. unfold significant_children in *. simpl.
    destruct (match c with NText s => _ | NTag _ _ _ => _ end) eqn:Hk.
    + split.
      * intros [= -> Hrest]. exists [], cs. split; [done|]. split; [constructor|].
        by apply significant_children_blank.
      * intros ([|b before] & after & Heq & Hbefore & Hafter); simpl in Heq.
        -- injection Heq as -> ->. f_equal. by apply significant_children_blank.
        -- injection Heq as -> ->. inversion Hbefore as [|? ? Hb _]; subst.
           apply Hc in Hb. congruence.
    + rewrite IH. split.
      * intros (before & after & -> & Hbefore & Hafter).
        exists (c :: before), after. split; [done|]. split; [|done].
        constructor; [by apply Hc | done].
      * intros ([|b before] & after & Heq & Hbefore & Hafter); simpl in Heq.
        -- injection Heq as -> ->. done.
        -- injection Heq as -> ->. inversion Hbefore; subst. by exists before, after.
Qed.

Lemma conditions_hold_matches (cr : crule) (elem : tag) (text : string) :
  conditions_hold cr elem text <-> rule_matches cr elem text.
Proof.
  unfold conditions_hold, rule_matches. cbv zeta.
  replace (match r_child_element (cr_rule cr) with
           | Some name => PyStr.strip name
           | None => ""
           end) with (PyStr.strip (default "" (r_child_element (cr_rule cr))))
    by (by destruct (r_child_element (cr_rule cr))).
  set (child_element := PyStr.strip (default "" (r_child_element (cr_rule cr)))).
  split.
  - intros (Hname & Hattrs & Hchild & Hpat). split; [done|]. split.
    { eexists. split; [by apply requires_effective | by apply meets_attrs_match]. }
    split; [|done].
    case_bool_decide as Hc.
    + left. by rewrite <- get_text_strip_below.
    + right. split; [done|]. destruct Hchild as (at_ & cs & Hsig & Hca & ->).
      apply significant_children_single in Hsig as (before & after & Hcs & Hb & Ha).
      exists before, at_, cs, after. eexists. split; [done|]. split; [done|]. split; [done|].
      split; [by apply requires_effective|]. split; [by apply meets_attrs_match|].
      apply get_text_strip_below.
  - intros (Hname & (required & Hreq & Hmeets) & Hchild & Hpat). split; [done|].
    apply requires_effective in Hreq as ->. split; [by apply meets_attrs_match|].
    split; [|done].
    case_bool_decide as Hc.
    + destruct Hchild as [[_ ->]|[Hne _]]; [|done]. symmetry. apply get_text_strip_below.
    + destruct Hchild as [[He _]|[_ Hchild]]; [done|].
      destruct Hchild as (before & at_ & cs & after & required & Hcs & Hb & Ha & Hreq & Hm & ->).
      apply requires_effective in Hreq as ->.
      exists at_, cs. split; [|split].
      * apply significant_children_single. by exists before, after.
      * by apply meets_attrs_match.
      * symmetry. apply get_text_strip_below.
Qed.

Lemma rule_applies_matches (cr : crule) (elem : tag) (c : classification) :
  rule_applies cr elem = Some c <->
  exists text, rule_matches cr elem text /\ c = classification_of cr text.
Proof.
  rewrite rule_applies_spec. split; intros (text & Hc & ->); exists text;
    (split; [by apply conditions_hold_matches | done]).
Qed.

Lemma rule_applies_no_match (cr : crule) (elem : tag) :
  rule_applies cr elem = None <-> forall text, ~ rule_matches cr elem text.
Proof.
  rewrite rule_applies_None. split; intros Hno text Hm; apply (Hno text);
    by apply conditions_hold_matches.
Qed.

End Classify.

(** C6. [classify_heading] returns the classification (level, extracted
    text, zone type, numbering, display template, compiled pattern) of the
    first rule, in authored order, whose conditions all hold: the tag of
    the element, the attributes required of it, the single child element
    with its attributes when the rule names one, and the pattern matched
    at the start of the extracted text. Every rule before the selected one
    fails on the element. When the conditions of no rule hold the result
    is the no-match value, and the collecting loop passes over the
    element, raising nothing. *)
Theorem classify_heading_first_match `{PyLib} (rules : list crule) (elem : tag) :
  (forall c, classify_heading rules elem = Some c <->
     exists before cr after text,
       rules = (before ++ cr :: after)%list
       /\ (forall earlier, In earlier before -> forall t, ~ rule_matches earlier elem t)
       /\ rule_matches cr elem text
       /\ c = {| c_level := r_level (cr_rule cr);
                 c_text := text;
                 c_zone_type := match r_zone_type (cr_rule cr) with
                                | Some zone => zone
                                | None => "chapter"
                                end;
                 c_numbering := r_numbering (cr_rule cr);
                 c_display_template := match r_display_template (cr_rule cr) with
                                       | Some template => template
                                       | None => ""
                                       end;
                 c_compiled_pattern := compiled_pattern cr |})
  /\ (classify_heading rules elem = None <->
      forall cr, In cr rules -> forall t, ~ rule_matches cr elem t)
  /\ (forall file_name pos k rest, classify_heading rules elem = None ->
      scan_elems rules file_name pos k (elem :: rest)
      = scan_elems rules file_name pos (S k) rest).
Proof.
  split; [|split].
  - intros c. rewrite classify_heading_first. split.
    + intros (before & cr & after & -> & Hbefore & Hcr).
      apply rule_applies_matches in Hcr as (text & Hc & ->).
      exists before, cr, after, text. split; [done|]. split; [|done].
      intros earlier Hin. rewrite Forall_forall in Hbefore.
      by apply rule_applies_no_match, Hbefore.
    + intros (before & cr & after & text & -> & Hbefore & Hc & ->).
      exists before, cr, after. split; [done|]. split.
      * apply Forall_forall. intros earlier Hin.
        by apply rule_applies_no_match, Hbefore.
      * apply rule_applies_matches. by exists text.
  - rewrite classify_heading_None, Forall_forall. split.
    + intros Hall cr Hin. by apply rule_applies_no_match, Hall.
    + intros Hall cr Hin. by apply rule_applies_no_match, Hall.
  - intros file_name pos k rest Hnone. simpl. by rewrite Hnone.
Qed.

(** C10. A required value that is sniffed as a pattern and does not
    compile never raises out of [attrs_match]: the result is [False]
    whenever such a value is among the required pairs. A rule that asks it
    of the element, or of the child it names, applies to no element, and
    the loop over the rules goes on with the next rule. *)
Theorem malformed_attr_pattern_never_matches `{PyLib} (expected : string)
    (Hsniffed : sniffed expected = true)
    (Hmalformed : forall text, re_search expected text = None) :
  (forall actual required key,
      In (key, expected) required -> attrs_match actual required = false)
  /\ (forall cr elem rest key,
      In (key, expected)
         (effective_attrs (r_parent_attrs (cr_rule cr)) (r_class (cr_rule cr))) ->
      rule_applies cr elem = None
      /\ classify_heading (cr :: rest) elem = classify_heading rest elem)
  /\ (forall cr elem rest key,
      PyStr.strip (default "" (r_child_element (cr_rule cr))) <> "" ->
      In (key, expected)
         (effective_attrs (r_child_attrs (cr_rule cr)) (r_child_class (cr_rule cr))) ->
      rule_applies cr elem = None
      /\ classify_heading (cr :: rest) elem = classify_heading rest elem).
Proof.
  assert (forall actual required key,
             In (key, expected) required -> attrs_match actual required = false) as Hattrs.
  { intros actual required key Hin.
    apply (attrs_match_failing_entry actual required (key, expected) Hin).
    unfold attr_ok. by rewrite Hsniffed, Hmalformed. }
  assert (forall cr elem rest, rule_applies cr elem = None ->
             rule_applies cr elem = None
             /\ classify_heading (cr :: rest) elem = classify_heading rest elem) as Hskip.
  { intros cr elem rest Hnone. split; [done|]. simpl. by rewrite Hnone. }
  split; [done|]. split.
  - intros cr elem rest key Hin. apply Hskip, rule_applies_None.
    intros text (_ & Hp & _). by rewrite (Hattrs _ _ key Hin) in Hp.
  - intros cr elem rest key Hchild Hin. apply Hskip, rule_applies_None.
    intros text (_ & _ & Hc & _). cbv zeta in Hc.
    rewrite bool_decide_eq_false_2 in Hc by done.
    destruct Hc as (at_ & cs & _ & Hca & _). by rewrite (Hattrs _ _ key Hin) in Hca.
Qed.

(** The malformed pattern [^(] on the fragment: no element attribute makes
    a rule asking for it match. *)
Lemma malformed_attr_pattern_witness :
  @sniffed "^(" = true
  /\ (forall text, @re_search mini_lib "^(" text = None)
  /\ @attrs_match mini_lib {[ "class" := AStr "x" ]} [("class", "^(")] = false.
Proof.
  split; [reflexivity|]. split; [intros text; reflexivity|].
  apply (proj1 (malformed_attr_pattern_never_matches (H := mini_lib) "^("
                  eq_refl (fun _ => eq_refl)) _ _ "class").
  simpl. left. reflexivity.
Defined.

(** ** Numbering of the headings below level 1 *)

Section SectionNumbering.
Context `{PyLib}.

Lemma find_parent_Some (items : list raw_item) (idx : nat) (parent : raw_item) :
  find_parent items idx = Some parent <->
  exists j, (j < idx)%nat /\ items !! j = Some parent /\ i_level parent = 1
    /\ forall k it, (j < k < idx)%nat -> items !! k = Some it -> i_level it <> 1.
Proof.
  induction idx as [|n IH]; simpl.
  - split; [done|]. intros (j & Hj & _). lia.
  - destruct (items !! n) as [it|] eqn:Hn.
    + destruct (Z.eqb_spec (i_level it) 1) as [Hl|Hl].
      * split.
        -- intros [= <-]. exists n. repeat split; [lia|done|done|]. intros; lia.
        -- intros (j & Hj & Hp & Hpl & Hnear).
           destruct (decide (j = n)) as [->|Hne]; [congruence|].
           exfalso. apply (Hnear n it); [lia|done|done].
      * rewrite IH. split.
        -- intros (j & Hj & Hp & Hpl & Hnear). exists j. repeat split; [lia|done|done|].
           intros k it' Hk Hit. destruct (decide (k = n)) as [->|Hne]; [congruence|].
           apply (Hnear k it'); [lia|done].
        -- intros (j & Hj & Hp & Hpl & Hnear).
           destruct (decide (j = n)) as [->|Hne]; [congruence|].
           exists j. repeat split; [lia|done|done|].
           intros k it' Hk Hit. apply (Hnear k it'); [lia|done].
    + rewrite IH. split.
      * intros (j & Hj & Hp & Hpl & Hnear). exists j. repeat split; [lia|done|done|].
        intros k it' Hk Hit. destruct (decide (k = n)) as [->|Hne]; [congruence|].
        apply (Hnear k it'); [lia|done].
      * intros (j & Hj & Hp & Hpl & Hnear).
        destruct (decide (j = n)) as [->|Hne]; [congruence|].
        exists j. repeat split; [lia|done|done|].
        intros k it' Hk Hit. apply (Hnear k it'); [lia|done].
Qed.

Lemma find_parent_None (items : list raw_item) (idx : nat) :
  find_parent items idx = None <->
  forall j it, (j < idx)%nat -> items !! j = Some it -> i_level it <> 1.
Proof.
  split.
  - intros Hnone j it Hj Hit Hl.
    induction idx as [|n IH]; [lia|]. simpl in Hnone.
    destruct (items !! n) as [it'|] eqn:Hn.
    + destruct (Z.eqb_spec (i_level it') 1) as [Hl'|Hl']; [done|].
      destruct (decide (j = n)) as [->|Hne]; [congruence|]. apply IH; [done|lia].
    + destruct (decide (j = n)) as [->|Hne]; [congruence|]. apply IH; [done|lia].
  - intros Hall. destruct (find_parent items idx) as [p|] eqn:Hp; [|done].
    apply find_parent_Some in Hp as (j & Hj & Hp & Hl & _). by destruct (Hall j p).
Qed.

Lemma number_item_parents_numbered (st st' : nstate) (idx : nat) (item : raw_item) :
  ns_items st !! idx = Some item ->
  parents_numbered (ns_items st) idx ->
  number_item st idx item = inr st' ->
  parents_numbered (ns_items st') (S idx).
Proof.
  intros Hidx Hinv Hstep.
  assert (forall d a, parents_numbered (<[idx := set_numbering item d a]> (ns_items st)) (S idx))
    as Hset.
  { intros d a j it Hj Hit Hl. destruct (decide (j = idx)) as [->|Hne].
    - rewrite list_lookup_insert_eq in Hit by (by eapply lookup_lt_Some).
      injection Hit as <-. by eexists.
    - rewrite list_lookup_insert_ne in Hit by done. apply (Hinv j it); [lia|done|done]. }
  unfold number_item in Hstep.
  destruct (Z.eqb_spec (i_level item) 1) as [Hl|Hl].
  - destruct (level1_assign _ _ _) as [e|[[ctx' d] a]]; simpl in Hstep; [done|].
    injection Hstep as <-. apply Hset.
  - destruct (find_parent (ns_items st) idx) as [parent|].
    + destruct (i_anchor_id parent) as [base_id|]; simpl in Hstep; [|done].
      destruct (section_assign _ _ _) as [ctx' anchor].
      injection Hstep as <-. apply Hset.
    + injection Hstep as <-. intros j it Hj Hit Hlv.
      destruct (decide (j = idx)) as [->|Hne]; [congruence|].
      apply (Hinv j it); [lia|done|done].
Qed.

Lemma section_assign_counters (ctx : TOCContext) (base_id : string) (lvl : Z) :
  let old := default {| sec2 := 0; sec3 := 0; sec4 := 0 |} (section_counters ctx !! base_id) in
  let new :=
    if lvl =? 2 then {| sec2 := S (sec2 old); sec3 := sec3 old; sec4 := sec4 old |}
    else if lvl =? 3 then {| sec2 := sec2 old; sec3 := S (sec3 old); sec4 := sec4 old |}
    else {| sec2 := sec2 old; sec3 := sec3 old; sec4 := S (sec4 old) |} in
  let anchor :=
    if lvl =? 2 then base_id ++ "-" ++ str_of_nat (sec2 new)
    else if lvl =? 3 then base_id ++ "-s" ++ str_of_nat (sec3 new)
    else base_id ++ "-ss" ++ str_of_nat (sec4 new) in
  section_assign ctx base_id lvl
  = (set_section_counters ctx (<[base_id := new]> (section_counters ctx)), anchor).
Proof.
  unfold section_assign, get_section_counter. cbv zeta.
  destruct (section_counters ctx !! base_id) as [c|] eqn:Hc; simpl.
  - destruct (lvl =? 2); [done|]. by destruct (lvl =? 3).
  - unfold set_section_counters. simpl. rewrite !insert_insert_eq.
    destruct (lvl =? 2); [done|]. by destruct (lvl =? 3).
Qed.

End SectionNumbering.

(** C7. A record of level 2 or more is numbered under the nearest record
    of level 1 before it in the discovery order. Without such a record it
    is dropped: the state of the pass is unchanged (no anchor, no entry in
    [toc_items], no count). Otherwise the counter triple read under the
    parent's anchor (all zero when the anchor has none yet) is stored back
    under it with the slot of the level (2, 3, anything else) one higher,
    the triples under the other anchors and the counters of the zones are
    as before, the anchor is the parent's followed by [-n], [-sn] or
    [-ssn], [n] being the new value of the slot, and the display text is
    the raw text; the record gets both, one entry is appended to
    [toc_items], and the count goes up by one. In the loop the parent
    always carries its anchor. *)
Theorem section_heading_numbering `{PyLib} (st : nstate) (idx : nat) (item : raw_item)
    (Hlevel : 2 <= i_level item) :
  (forall parent, find_parent (ns_items st) idx = Some parent <->
     exists j, (j < idx)%nat /\ ns_items st !! j = Some parent /\ i_level parent = 1
       /\ forall k it, (j < k < idx)%nat -> ns_items st !! k = Some it -> i_level it <> 1)
  /\ (find_parent (ns_items st) idx = None -> number_item st idx item = inr st)
  /\ (parents_numbered (ns_items st) idx ->
      forall parent, find_parent (ns_items st) idx = Some parent ->
        is_Some (i_anchor_id parent))
  /\ (forall parent base_id,
      find_parent (ns_items st) idx = Some parent ->
      i_anchor_id parent = Some base_id ->
      let lvl := i_level item in
      let old :=
        match section_counters (ns_ctx st) !! base_id with
        | Some triple => triple
        | None => {| sec2 := 0; sec3 := 0; sec4 := 0 |}
        end in
      let new :=
        if lvl =? 2 then {| sec2 := S (sec2 old); sec3 := sec3 old; sec4 := sec4 old |}
        else if lvl =? 3 then {| sec2 := sec2 old; sec3 := S (sec3 old); sec4 := sec4 old |}
        else {| sec2 := sec2 old; sec3 := sec3 old; sec4 := S (sec4 old) |} in
      let anchor :=
        if lvl =? 2 then base_id ++ "-" ++ str_of_nat (S (sec2 old))
        else if lvl =? 3 then base_id ++ "-s" ++ str_of_nat (S (sec3 old))
        else base_id ++ "-ss" ++ str_of_nat (S (sec4 old)) in
      exists st',
        number_item st idx item = inr st'
        /\ section_counters (ns_ctx st') !! base_id = Some new
        /\ (forall other, other <> base_id ->
              section_counters (ns_ctx st') !! other = section_counters (ns_ctx st) !! other)
        /\ (chapter_counter (ns_ctx st'), part_counter (ns_ctx st'),
            appendix_counter (ns_ctx st'), frontmatter_counter (ns_ctx st'),
            backmatter_counter (ns_ctx st'))
           = (chapter_counter (ns_ctx st), part_counter (ns_ctx st),
              appendix_counter (ns_ctx st), frontmatter_counter (ns_ctx st),
              backmatter_counter (ns_ctx st))
        /\ ns_items st'
           = <[idx := {| i_level := i_level item; i_elem := i_elem item;
                         i_file_name := i_file_name item; i_raw_text := i_raw_text item;
                         i_zone_type := i_zone_type item; i_numbering := i_numbering item;
                         i_display_template := i_display_template item;
                         i_compiled_pattern := i_compiled_pattern item;
                         i_display_text := Some (i_raw_text item);
                         i_anchor_id := Some anchor |}]> (ns_items st)
        /\ ns_toc_items st'
           = (ns_toc_items st ++
                [{| ti_level := lvl; ti_text := i_raw_text item;
                    ti_file := i_file_name item; ti_anchor := anchor |}])%list
        /\ ns_stamps st' = (ns_stamps st ++ [(i_elem item, anchor)])%list
        /\ ns_occurrences st' = S (ns_occurrences st)
        /\ ns_locals st' = ns_locals st).
Proof.
  assert ((i_level item =? 1) = false) as Hnot1 by lia.
  split; [intros parent; apply find_parent_Some|].
  split.
  { intros Hnone. unfold number_item. by rewrite Hnot1, Hnone. }
  split.
  { intros Hinv parent Hp.
    apply find_parent_Some in Hp as (j & Hj & Hp & Hl & _). by apply (Hinv j parent). }
  intros parent base_id Hp Ha. cbv zeta.
  unfold number_item. rewrite Hnot1, Hp, Ha. simpl.
  rewrite section_assign_counters. cbv zeta.
  change (default {| sec2 := 0; sec3 := 0; sec4 := 0 |}
            (section_counters (ns_ctx st) !! base_id))
    with (match section_counters (ns_ctx st) !! base_id with
          | Some triple => triple
          | None => {| sec2 := 0; sec3 := 0; sec4 := 0 |}
          end).
  eexists. split; [reflexivity|]. simpl.
  split; [by rewrite lookup_insert_eq|].
  split; [intros other Hne; by apply lookup_insert_ne|].
  split; [done|].
  destruct (i_level item =? 2); [done|]. by destruct (i_level item =? 3).
Qed.

(** Two chapters with two sections each: the counters restart per chapter. *)
Example counters_per_chapter :
  let '(st, err) := @number_all mini_lib NumberingExamples.book_items 0 in
  err = None
  /\ map ti_anchor (ns_toc_items st) = ["toc"; "1"; "1-1"; "1-2"; "2"; "2-1"; "2-2"]
  /\ ns_occurrences st = 6%nat.
Proof. vm_compute. done. Qed.

(** A section before any chapter is dropped and not counted. *)
Example orphan_section_dropped :
  let '(st, err) :=
    @number_all mini_lib
      [NumberingExamples.section 0 "a"; NumberingExamples.chapter 1 "Chapter 1: One"] 0 in
  err = None
  /\ map ti_anchor (ns_toc_items st) = ["toc"; "1"]
  /\ ns_occurrences st = 1%nat.
Proof. vm_compute. done. Qed.

(** The first section of the first chapter gets the anchor [1-1], and the
    counter of the chapter reads 1 for the next section. *)
Lemma section_heading_numbering_witness :
  2 <= i_level (NumberingExamples.section 1 "a")
  /\ exists st',
      @number_item mini_lib NumberingExamples.after_first_chapter 1
        (NumberingExamples.section 1 "a") = inr st'
      /\ map ti_anchor (ns_toc_items st') = ["toc"; "1"; "1-1"]
      /\ ns_occurrences st' = 2%nat
      /\ section_counters (ns_ctx st') !! "1" = Some {| sec2 := 1; sec3 := 0; sec4 := 0 |}.
Proof.
  assert (2 <= i_level (NumberingExamples.section 1 "a")) as Hlevel by (simpl; lia).
  split; [exact Hlevel|].
  destruct (proj2 (proj2 (proj2
      (section_heading_numbering (H := mini_lib) NumberingExamples.after_first_chapter 1
         (NumberingExamples.section 1 "a") Hlevel)))
      (set_numbering (NumberingExamples.chapter 0 "Chapter 1: One") "Chapter 1" "1") "1"
      eq_refl eq_refl)
    as (st' & Hstep & Hcounter & _ & _ & _ & Htoc & _ & Hcount & _).
  exists st'. split; [exact Hstep|]. rewrite Htoc, Hcount, Hcounter.
  repeat split; reflexivity.
Defined.

(** ** Display text of a level-1 heading *)

Lemma display_of_bind `{PyLib} (m : py string) (f : string -> TOCContext * string * string) :
  (forall d, (f d).1.2 = d) -> display_of (let! d := m in ret (f d)) = m.
Proof.
  intros Hf. destruct m as [e|d]; simpl; [done|]. specialize (Hf d).
  destruct (f d) as [[? ?] ?]. simpl in Hf. by subst.
Qed.

Lemma format_template_unfold `{PyLib} (template num text raw : string) :
  format_template template num text raw
  = match py_format template num text raw with
    | Some s => inr s
    | None => inl FormatError
    end.
Proof. unfold format_template. by destruct (py_format template num text raw). Qed.

Lemma appendix_letter_S (n : nat) : appendix_letter (S n) = chr (65 + N.of_nat n)%N.
Proof. unfold appendix_letter. f_equal. lia. Qed.

(** C3 on the first chapter of a book, headed [Chapter 5: Intro], under
    the template [{num}. {text}]: the pattern captures the number token
    [5], but the display text is [1. Intro], the running chapter count
    standing for [{num}]. In general, for a level-1 heading with a
    non-empty template the token captured by group 1 is never shown:
    [{num}] is the decimal chapter count in the chapter zone, the roman
    numeral of the part count in the part zone, the character after the
    appendix count in the appendix zone, and empty in the front and back
    matter, where [{text}] is the raw text and not the clean title. When
    the pattern matches and its first group took no part in the match, no
    display text is made at all: stripping the missing group raises. *)
Theorem level1_display_drops_number_token :
  display_of (@level1_assign mini_lib TOCContext_init (None, None) DisplayExamples.chapter_five)
    = inr "1. Intro"
  /\ @claimed_level1_display mini_lib TOCContext_init DisplayExamples.chapter_five
    = inr "5. Intro"
  /\ (forall (L : PyLib) (ctx : TOCContext) (locals : option string * option string)
        (item : raw_item),
      let zt := i_zone_type item in
      let raw := i_raw_text item in
      let template := i_display_template item in
      let matched := re_match (i_compiled_pattern item) raw in
      let clean_text :=
        match matched with
        | Some (_ :: Some g :: _) => if bool_decide (g = "") then PyStr.strip raw else PyStr.strip g
        | _ => PyStr.strip raw
        end in
      let format (num text : string) : py string :=
        match py_format template num text raw with
        | Some s => inr s
        | None => inl FormatError
        end in
      let shown := display_of (level1_assign ctx locals item) in
      ((exists rest, matched = Some (None :: rest)) -> shown = inl AttributeError)
      /\ ((forall rest, matched <> Some (None :: rest)) -> template <> "" ->
          (zt = "chapter" -> shown = format (str_of_nat (S (chapter_counter ctx))) clean_text)
          /\ (zt = "part" -> shown = format (int_to_roman (S (part_counter ctx))) clean_text)
          /\ (zt = "appendix" ->
              shown = let! letter := chr (65 + N.of_nat (appendix_counter ctx))%N in
                      format letter clean_text)
          /\ (zt = "frontmatter" \/ zt = "backmatter" -> shown = format "" raw))).
Proof.
  split; [vm_compute; reflexivity|]. split; [vm_compute; reflexivity|].
  intros L ctx locals item. cbv zeta. split.
  - intros [rest Hm]. unfold level1_assign, extract_clean_text_and_number. by rewrite Hm.
  - intros Hgroup Htemplate.
    assert (truthy (i_display_template item) = true) as Htruthy.
    { unfold truthy. by destruct (String.eqb_spec (i_display_template item) ""). }
    assert (exists raw_num,
      extract_clean_text_and_number (i_raw_text item) (i_compiled_pattern item)
      = inr (raw_num,
             match re_match (i_compiled_pattern item) (i_raw_text item) with
             | Some (_ :: Some g :: _) =>
                 if bool_decide (g = "") then PyStr.strip (i_raw_text item) else PyStr.strip g
             | _ => PyStr.strip (i_raw_text item)
             end)) as [raw_num Hextract].
    { unfold extract_clean_text_and_number.
      destruct (re_match (i_compiled_pattern item) (i_raw_text item)) as [groups|];
        [|by eexists].
      destruct groups as [|[g1|] rest]; simpl; [by eexists| |by destruct (Hgroup rest)].
      destruct rest as [|[g2|] rest']; by eexists. }
    repeat match goal with |- _ /\ _ => split end.
    + intros Hz. unfold level1_assign. rewrite Hextract, Hz, Htruthy. simpl.
      rewrite <- format_template_unfold. by apply (display_of_bind _ (fun d => (_, d, _))).
    + intros Hz. unfold level1_assign. rewrite Hextract, Hz, Htruthy. simpl.
      rewrite <- format_template_unfold. by apply (display_of_bind _ (fun d => (_, d, _))).
    + intros Hz. unfold level1_assign. rewrite Hextract, Hz, Htruthy. simpl.
      rewrite appendix_letter_S.
      destruct (chr (65 + N.of_nat (appendix_counter ctx))%N) as [e|letter]; simpl; [done|].
      rewrite <- format_template_unfold. by apply (display_of_bind _ (fun d => (_, d, _))).
    + intros Hz. unfold level1_assign. rewrite Hextract, Htruthy.
      destruct Hz as [-> | ->]; simpl; rewrite <- format_template_unfold;
        by apply (display_of_bind _ (fun d => (_, d, _))).
Qed.

(** In the front matter the template gets no number and the raw text,
    whatever the pattern captured. *)
Example front_matter_display :
  display_of (@level1_assign mini_lib TOCContext_init (None, None) DisplayExamples.preface)
    = inr "[] Preface"
  /\ @claimed_level1_display mini_lib TOCContext_init DisplayExamples.preface
    = inr "[Pre] face".
Proof. vm_compute. done. Qed.

(** The first chapter, [Chapter 1: Introduction], under the template
    [Lesson {num}: {text}]: anchor [1], display text
    [Lesson 1: Introduction]. *)
Example lesson_one :
  @level1_assign mini_lib TOCContext_init (None, None) DisplayExamples.introduction
  = inr ({| chapter_counter := 1; appendix_counter := 0; frontmatter_counter := 0;
            backmatter_counter := 0; part_counter := 0; section_counters := ∅ |},
         "Lesson 1: Introduction", "1").
Proof. vm_compute. reflexivity. Qed.

(** ** Tree construction *)

(** C4, as stated, fails: the second level-2 record is a child of the
    first level-1 node too, which therefore has two children. *)
Lemma first_chapter_keeps_both_sections :
  exists forest,
    build_tree [toc_root_item; entry 1 "A" "a.xhtml" "1"; entry 2 "B" "a.xhtml" "1-1";
                entry 3 "C" "a.xhtml" "1-s1"; entry 2 "D" "a.xhtml" "1-2";
                entry 1 "E" "b.xhtml" "2"] = inr forest
    /\ ~ claimed_shape_12321 forest
    /\ (map (fun t => length (tree_children t)) forest = [2; 0])%nat.
Proof.
  eexists. split; [vm_compute; reflexivity|]. split; [|reflexivity].
  intros (t1 & t2 & c2 & c3 & Hf & Hc & _). injection Hf as <- _. discriminate Hc.
Qed.

(** C4, amended. Records of levels 1, 2, 3, 2, 1 (after the synthetic
    level-0 entry, or without it) build two top-level nodes: the first has
    two children, the level-2 nodes, of which the first has the level-3
    node as its only child and the second has none; the second top-level
    node has no children. *)
Theorem build_tree_12321 (t1 t2 t3 t4 t5 f1 f2 f3 f4 f5 a1 a2 a3 a4 a5 : string) :
  let r1 := entry 1 t1 f1 a1 in
  let r2 := entry 2 t2 f2 a2 in
  let r3 := entry 3 t3 f3 a3 in
  let r4 := entry 2 t4 f4 a4 in
  let r5 := entry 1 t5 f5 a5 in
  let forest := [node_of r1 [node_of r2 [node_of r3 []]; node_of r4 []]; node_of r5 []] in
  build_tree [toc_root_item; r1; r2; r3; r4; r5] = inr forest
  /\ build_tree [r1; r2; r3; r4; r5] = inr forest.
Proof. split; reflexivity. Qed.

(** *** What the two builders pop *)

(** [build_tree] cuts the stack to at most [level] entries: the nodes it
    pops are those at a depth of [level] or more, the virtual root being at
    depth 0, whatever their own levels are. *)
Lemma build_tree_pops_by_depth (level : Z) (stack : list nat) :
  0 <= level ->
  BuildTree.pop_while level stack
  = inr (drop (length stack - Z.to_nat level) stack).
Proof.
  intros Hlevel. induction stack as [|top below IH]; simpl.
  - by replace (0 >? level) with false by lia.
  - destruct (Z.gtb_spec (Z.of_nat (S (length below))) level) as [Hgt|Hle].
    + rewrite IH. by replace (S (length below) - Z.to_nat level)%nat
        with (S (length below - Z.to_nat level)) by lia.
    + by replace (S (length below) - Z.to_nat level)%nat with 0%nat by lia.
Qed.

(** Every node on the stack of the navigation builder has its [level]
    key, so reading it never fails and the builder always ends. *)
Lemma navpoints_pop_while_linked (h : list (option Z * tnode * list nat)) (level : Z)
    (stack : list nat) :
  Forall (linked h) stack ->
  exists stack', NavPoints.pop_while h level stack = inr stack'
    /\ Forall (linked h) stack'.
Proof.
  induction stack as [|top below IH]; intros Hall; simpl.
  - by exists [].
  - inversion Hall as [|? ? (lv & d & cs & Htop) Hbelow]; subst.
    unfold NavPoints.top_level. rewrite Htop.
    destruct (lv >=? level); [by apply IH | by exists (top :: below)].
Qed.

Lemma navpoints_step_linked (st : NavPoints.state) (item : toc_item) :
  Forall (linked (NavPoints.st_heap st)) (NavPoints.st_stack st) ->
  exists st', NavPoints.step st item = inr st'
    /\ Forall (linked (NavPoints.st_heap st')) (NavPoints.st_stack st').
Proof.
  intros Hall. unfold NavPoints.step.
  set (cell0 := (None, {| n_level := ti_level item; n_text := ti_text item;
                          n_src := item_src item |}, []) : option Z * tnode * list nat).
  set (np := length (NavPoints.st_heap st)).
  set (h := (NavPoints.st_heap st ++ [cell0])%list).
  assert (h !! np = Some cell0) as Hnp by by apply list_lookup_middle.
  assert (forall r, linked (NavPoints.st_heap st) r -> linked h r /\ r <> np) as Hold.
  { intros r (lv & d & cs & Hr). pose proof (lookup_lt_Some _ _ _ Hr) as Hlt.
    split; [|unfold np; lia]. exists lv, d, cs. unfold h. by rewrite lookup_app_l. }
  assert (Forall (linked h) (NavPoints.st_stack st)) as Hall_h.
  { eapply Forall_impl; [|exact Hall]. intros r Hr. by apply Hold. }
  destruct (ti_level item >? 0); [|by eexists].
  destruct (navpoints_pop_while_linked h (ti_level item) _ Hall_h)
    as (stack & -> & Hstack). simpl.
  destruct (ti_level item =? 1).
  - eexists. split; [done|]. simpl. constructor; [|done].
    exists 1, (cell0.1.2), []. rewrite list_lookup_alter.
    destruct (decide (np = np)); [|done]. by rewrite Hnp.
  - destruct stack as [|top below]; [by eexists|].
    eexists. split; [done|]. simpl.
    assert (forall r, linked h r -> r <> np ->
              linked (alter (NavPoints.set_level (ti_level item)) np
                        (alter (NavPoints.add_child np) top h)) r) as Hkeep.
    { intros r (lv & d & cs & Hr) Hne.
      destruct (decide (top = r)) as [->|Hnt].
      - exists lv, d, (cs ++ [np])%list.
        rewrite list_lookup_alter_ne by done. rewrite list_lookup_alter.
        destruct (decide (r = r)); [|done]. by rewrite Hr.
      - exists lv, d, cs.
        rewrite list_lookup_alter_ne by done. by rewrite list_lookup_alter_ne. }
    assert (forall r, In r (NavPoints.st_stack st) -> r <> np) as Hlt.
    { intros r Hin. rewrite Forall_forall in Hall. by apply Hold, Hall. }
    assert (top <> np) as Htop.
    { inversion Hstack as [|? ? (lv & d & cs & Hr) _]; subst.
      intros ->. rewrite Hnp in Hr. done. }
    constructor.
    + exists (ti_level item), (cell0.1.2), []. rewrite list_lookup_alter.
      destruct (decide (np = np)); [|done].
      rewrite list_lookup_alter_ne by done. by rewrite Hnp.
    + rewrite Forall_forall in Hstack. apply Forall_forall. intros r Hin.
      apply Hkeep; [by apply Hstack|].
      destruct (Hstack r Hin) as (lv & d & cs & Hr). intros ->.
      rewrite Hnp in Hr. done.
Qed.

Lemma navpoints_loop_total (items : list toc_item) (st : NavPoints.state) :
  Forall (linked (NavPoints.st_heap st)) (NavPoints.st_stack st) ->
  exists st', NavPoints.loop st items = inr st'.
Proof.
  revert st. induction items as [|item rest IH]; intros st Hall; simpl; [by eexists|].
  destruct (navpoints_step_linked st item Hall) as (st' & -> & Hall'). simpl.
  by apply IH.
Qed.

Lemma build_navpoints_total (toc_items : list toc_item) :
  exists navpoints, build_navpoints toc_items = inr navpoints.
Proof.
  unfold build_navpoints.
  destruct (navpoints_loop_total toc_items NavPoints.init) as [st ->]; [constructor|].
  by eexists.
Qed.

(** C5 on the level sequence 1, 3, 3. [build_tree] pops while the stack is
    longer than the level, that is by the depth of the open nodes and not
    by their levels, so the first level-3 node, sitting at depth 2, stays
    open and the second level-3 node becomes its child, not its sibling.
    The builder of the navigation points, which compares the level of the
    node on top, makes them siblings. *)
Theorem build_tree_133_nests (t1 t2 t3 f1 f2 f3 a1 a2 a3 : string) :
  let r1 := entry 1 t1 f1 a1 in
  let r2 := entry 3 t2 f2 a2 in
  let r3 := entry 3 t3 f3 a3 in
  build_tree [toc_root_item; r1; r2; r3]
    = inr [node_of r1 [node_of r2 [node_of r3 []]]]
  /\ build_navpoints [toc_root_item; r1; r2; r3]
    = inr [node_of toc_root_item []; node_of r1 [node_of r2 []; node_of r3 []]]
  /\ (forall level stack, 0 <= level ->
      BuildTree.pop_while level stack
      = inr (drop (length stack - Z.to_nat level) stack)).
Proof.
  split; [reflexivity|]. split; [reflexivity|]. apply build_tree_pops_by_depth.
Qed.

(** ** The run *)

Lemma forallb_weaken {A} (p q : A -> bool) (l : list A) :
  (forall x, p x = true -> q x = true) -> forallb p l = true -> forallb q l = true.
Proof.
  intros Hpq. induction l as [|x l IH]; simpl; [done|].
  intros [Hx Hl]%andb_prop. by rewrite (Hpq x Hx), (IH Hl).
Qed.

Lemma content_calls_only (written : list effect) :
  forallb rewrites_content written = true ->
  forallb (fun e => rewrites_content e || writes_ncx e) written = true
  /\ forallb (fun e => negb (registers_toc_page e)) written = true.
Proof.
  intros Hc. split; (eapply forallb_weaken; [|exact Hc]); by intros [? []|? ? []|].
Qed.

Section RunLemmas.
Context `{PyLib}.

Lemma perform_log (b : book) (log log' : list effect) (e : effect) (err : option exn) :
  perform b log e = (log', err) ->
  (log' = log /\ err = Some IOError /\ bk_rejects b e = true)
  \/ (log' = (log ++ [e])%list /\ err = None /\ bk_rejects b e = false).
Proof.
  unfold perform. destruct (bk_rejects b e); intros [= <- <-]; [left | right]; done.
Qed.

Lemma write_soups_log (b : book) (stamps : list (elem_ref * string))
    (file_soups : list (string * (nat * list node))) (log log' : list effect)
    (err : option exn) :
  write_soups b stamps file_soups log = (log', err) ->
  exists written, log' = (log ++ written)%list
    /\ forallb rewrites_content written = true
    /\ (err = None -> (forall e, bk_rejects b e = false) ->
        written = map (content_write stamps) file_soups).
Proof.
  revert log. induction file_soups as [|[fname [pos soup]] rest IH]; intros log; simpl.
  - intros [= <- <-]. exists []. by rewrite app_nil_r.
  - destruct (perform b log _) as [log1 [e|]] eqn:Hp.
    + intros [= <- <-]. apply perform_log in Hp as [(-> & _ & _)|(_ & ? & _)]; [|done].
      exists []. rewrite app_nil_r. repeat split; done.
    + intros Hrest. apply perform_log in Hp as [(_ & ? & _)|(-> & _ & _)]; [done|].
      apply IH in Hrest as (written & -> & Hall & Hexact).
      exists (WriteFile fname (PSoup soup (stamps_of pos stamps)) :: written).
      split; [by rewrite <- app_assoc|]. split; [done|].
      intros Herr Hacc. by rewrite (Hexact Herr Hacc).
Qed.

Lemma write_soups_accepted (b : book) (stamps : list (elem_ref * string))
    (file_soups : list (string * (nat * list node))) (log : list effect) :
  (forall e, bk_rejects b e = false) ->
  write_soups b stamps file_soups log
  = ((log ++ map (content_write stamps) file_soups)%list, None).
Proof.
  intros Hacc. revert log.
  induction file_soups as [|[fname [pos soup]] rest IH]; intros log; simpl.
  - by rewrite app_nil_r.
  - unfold perform. rewrite Hacc, IH. by rewrite <- app_assoc.
Qed.

(** Where the run can hand back the bare [None]. *)
Lemma emit_returned (self : MarkupParser) (root : opf) (title uid : string)
    (st : nstate) (file_soups : list (string * (nat * list node))) :
  returned (emit self root title uid st file_soups) = RetNone ->
  opf_manifest root = None \/ opf_spine root = None.
Proof.
  unfold emit.
  destruct (write_soups _ _ _ _) as [log [e|]]; [done|].
  destruct (build_tree _) as [e|toc_tree]; [done|].
  destruct (build_navpoints _) as [e|navpoints]; [done|].
  destruct (perform _ _ _) as [log1 [e|]]; [done|].
  destruct (opf_manifest root) as [manifest|]; [|by left].
  destruct (opf_spine root) as [spine|]; [|by right].
  unfold integrate.
  destruct (perform _ _ _) as [log2 [e|]]; [done|].
  destruct (if existsb _ spine then _ else _) as [log3 [e|]]; [done|].
  by destruct (_ && _).
Qed.

Lemma generate_toc_returned (self : MarkupParser) :
  returned (generate_toc self) = RetNone ->
  exists root, bk_get_opf (bk self) = Some root
    /\ (opf_manifest root = None \/ opf_spine root = None).
Proof.
  unfold generate_toc.
  destruct (compile_rules _) as [e|crs]; [done|].
  destruct (spine_files _) as [|f files]; [done|].
  destruct (bk_get_opf _) as [root|]; [|done].
  destruct (get_title_and_uid root) as [title uid].
  destruct (scan_files _ _ _ _ _ _) as [e|[items soups]]; [done|].
  destruct items as [|it items]; [done|].
  destruct (number_all _ _) as [st [e|]]; [done|].
  intros Hret. exists root. split; [done|]. by eapply emit_returned.
Qed.

End RunLemmas.

(** A complete package: the run succeeds with one occurrence. *)
Example complete_run :
  @generate_toc mini_lib
    (RunExamples.parser
       (RunExamples.package RunExamples.ch1_spine RunExamples.chapter_doc
          RunExamples.opf_complete))
  = {| returned := RetPair None 1;
       effects :=
         [WriteFile "ch1" (PSoup RunExamples.chapter_doc [(0%nat, "1")]);
          AddFile "ncx" "toc.ncx"
            (PNcx "urn:book" "A Book" 1
               [TNode 0 "Table of Contents" "toc.html#toc" [];
                TNode 1 "Chapter 1" "Text/ch1.xhtml#1" []])
            "application/xml";
          AddFile "toc" "toc.html"
            (PHtmlToc "A Book" [TNode 1 "Chapter 1" "Text/ch1.xhtml#1" []]
               [("1", "class=" ++ String PyStr.dquote ("calibre13" ++ String PyStr.dquote ""))])
            "application/xhtml+xml";
          SpineInsertBefore 1 "toc"] |}.
Proof. vm_compute. reflexivity. Qed.

(** C1 at a package whose OPF has no manifest: after the heading was
    numbered, the document rewritten and the NCX added, the run leaves by
    the bare [return], so the caller gets [None] and not a pair. It is the
    only way the run hands back something else than a pair. *)
Theorem generate_toc_bare_return :
  returned (@generate_toc mini_lib RunExamples.without_manifest) = RetNone
  /\ (forall (L : PyLib) (p : MarkupParser),
        (exists error n, returned (generate_toc p) = RetPair error n)
        \/ (returned (generate_toc p) = RetNone
            /\ exists root, bk_get_opf (bk p) = Some root
                 /\ (opf_manifest root = None \/ opf_spine root = None))).
Proof.
  split; [vm_compute; reflexivity|].
  intros L p. destruct (returned (generate_toc p)) as [error n|] eqn:Hret.
  - left. by exists error, n.
  - right. split; [done|]. by apply generate_toc_returned.
Qed.

(** C2, as stated, fails: with an OPF that has no spine container the run
    has rewritten the content document and added the navigation document
    before it looks for the containers. *)
Lemma containers_checked_after_writing :
  bk_get_opf (bk RunExamples.without_spine) = Some RunExamples.opf_without_spine
  /\ opf_spine RunExamples.opf_without_spine = None
  /\ effects (@generate_toc mini_lib RunExamples.without_spine)
     = [WriteFile "ch1" (PSoup RunExamples.chapter_doc [(0%nat, "1")]);
        AddFile "ncx" "toc.ncx"
          (PNcx "urn:book" "A Book" 1
             [TNode 0 "Table of Contents" "toc.html#toc" [];
              TNode 1 "Chapter 1" "Text/ch1.xhtml#1" []])
          "application/xml"]
  /\ effects (@generate_toc mini_lib RunExamples.without_spine) <> [].
Proof.
  split; [reflexivity|]. split; [reflexivity|].
  split; [vm_compute; reflexivity|]. vm_compute. discriminate.
Qed.

(** C2, amended. When the OPF lacks the manifest or the spine container,
    the run writes no HTML TOC page and makes no spine entry: every call
    it makes on the host rewrites a content document or writes the
    navigation document. When headings were matched and numbered, the tree
    was built and the host accepts the calls, these calls are exactly the
    rewrite of every scanned document followed by the navigation document,
    made before the containers are looked for. *)
Theorem missing_container_stops_before_toc_page `{PyLib} (self : MarkupParser) (root : opf)
    (Hopf : bk_get_opf (bk self) = Some root)
    (Hmissing : opf_manifest root = None \/ opf_spine root = None) :
  forallb (fun e => rewrites_content e || writes_ncx e) (effects (generate_toc self)) = true
  /\ forallb (fun e => negb (registers_toc_page e)) (effects (generate_toc self)) = true
  /\ (forall crs item items file_soups st toc_tree,
      compile_rules (rules self) = inr crs ->
      scan_files (bk self) crs (tags self) 0 (spine_files (bk self)) ([], [])
        = inr (item :: items, file_soups) ->
      number_all (item :: items) (occurrences self) = (st, None) ->
      build_tree (ns_toc_items st) = inr toc_tree ->
      (forall e, bk_rejects (bk self) e = false) ->
      exists ncx_call,
        writes_ncx ncx_call = true
        /\ effects (generate_toc self)
           = (map (content_write (ns_stamps st)) file_soups ++ [ncx_call])%list).
Proof.
  assert (forall title uid st file_soups,
    let log := effects (emit self root title uid st file_soups) in
    forallb (fun e => rewrites_content e || writes_ncx e) log = true
    /\ forallb (fun e => negb (registers_toc_page e)) log = true) as Hemit.
  { intros title uid st file_soups. unfold emit.
    destruct (write_soups _ _ _ _) as [log [e|]] eqn:Hw;
      apply write_soups_log in Hw as (written & -> & Hcontent & _);
      apply content_calls_only in Hcontent as [Hw1 Hw2]; simpl in *; [done|].
    destruct (build_tree _) as [e|toc_tree]; [done|].
    destruct (build_navpoints _) as [e|navpoints]; [done|].
    destruct (perform _ _ _) as [log1 [e|]] eqn:Hp;
      apply perform_log in Hp as [(-> & He & _)|(-> & He & _)]; try done.
    assert (forall ncx, writes_ncx (ncx_upsert (bk self) (PNcx uid title ncx navpoints)) = true
              /\ registers_toc_page (ncx_upsert (bk self) (PNcx uid title ncx navpoints)) = false)
      as Hncx by (intros ncx; unfold ncx_upsert; by destruct (bk_toc_ncx_id (bk self))).
    destruct Hmissing as [-> | Hs]; [|destruct (opf_manifest root); rewrite ?Hs]; simpl;
      rewrite !forallb_app, Hw1, Hw2; simpl;
      destruct (Hncx (if (0 <? max_depth toc_tree)%nat then max_depth toc_tree else 1%nat))
        as [-> ->]; by rewrite orb_true_r. }
  assert (forall e n,
    forallb (fun e => rewrites_content e || writes_ncx e) (effects (failed e n [])) = true
    /\ forallb (fun e => negb (registers_toc_page e)) (effects (failed e n [])) = true)
    as Hfailed by done.
  split; [|split].
  - unfold generate_toc. rewrite Hopf.
    destruct (compile_rules _) as [e|crs]; [done|].
    destruct (spine_files _) as [|f files]; [done|].
    destruct (get_title_and_uid root) as [title uid].
    destruct (scan_files _ _ _ _ _ _) as [e|[items soups]]; [done|].
    destruct items as [|it items]; [done|].
    destruct (number_all _ _) as [st [e|]]; [done|]. apply Hemit.
  - unfold generate_toc. rewrite Hopf.
    destruct (compile_rules _) as [e|crs]; [done|].
    destruct (spine_files _) as [|f files]; [done|].
    destruct (get_title_and_uid root) as [title uid].
    destruct (scan_files _ _ _ _ _ _) as [e|[items soups]]; [done|].
    destruct items as [|it items]; [done|].
    destruct (number_all _ _) as [st [e|]]; [done|]. apply Hemit.
  - intros crs item items file_soups st toc_tree Hcompile Hscan Hnumber Htree Haccept.
    destruct (build_navpoints_total (ns_toc_items st)) as [navpoints Hnav].
    unfold generate_toc. rewrite Hcompile, Hopf.
    destruct (spine_files (bk self)) as [|f files] eqn:Hfiles; [done|].
    destruct (get_title_and_uid root) as [title uid].
    rewrite Hscan, Hnumber. unfold emit.
    rewrite (write_soups_accepted _ _ _ _ Haccept), Htree, Hnav. simpl.
    unfold perform. rewrite Haccept.
    eexists. split; [|destruct Hmissing as [-> | Hs];
                       [reflexivity | destruct (opf_manifest root); by rewrite ?Hs]].
    unfold ncx_upsert. by destruct (bk_toc_ncx_id (bk self)).
Qed.

(** On the package without a spine container: nothing registers the TOC
    page. *)
Lemma missing_container_witness :
  bk_get_opf (bk RunExamples.without_spine) = Some RunExamples.opf_without_spine
  /\ (opf_manifest RunExamples.opf_without_spine = None
      \/ opf_spine RunExamples.opf_without_spine = None)
  /\ forallb (fun e => negb (registers_toc_page e))
       (effects (@generate_toc mini_lib RunExamples.without_spine)) = true.
Proof.
  split; [reflexivity|]. split; [right; reflexivity|].
  apply (missing_container_stops_before_toc_page (H := mini_lib) RunExamples.without_spine
           RunExamples.opf_without_spine eq_refl (or_intror eq_refl)).
Defined.

(** ** The run that finds no heading *)

Section EmptyResult.
Context `{PyLib}.



End EmptyResult.




(** * Further properties *)

(** ** Roman numerals *)

Lemma int_to_roman_loop_acc (tbl : list (nat * string)) (num : nat) (acc : string) :
  int_to_roman_loop tbl num acc = acc ++ int_to_roman_loop tbl num "".
Proof.
  revert num acc. induction tbl as [|[v sy] rest IH]; intros num acc; simpl.
  - by rewrite append_nil_r.
  - destruct (0 <? num)%nat; [|by rewrite append_nil_r].
    rewrite (IH _ (acc ++ _)), (IH _ (repeat_str sy (num / v))).
    by rewrite append_assoc.
Qed.

Lemma roman_value_M (r : string) : roman_value (String "M" r) = (1000 + roman_value r)%nat.
Proof.
  destruct r as [|d r]; [done|].
  change (roman_value (String "M" (String d r)))
    with (if (roman_digit "M" <? roman_digit d)%nat
          then (roman_value (String d r) - roman_digit "M")%nat
          else (roman_digit "M" + roman_value (String d r))%nat).
  assert (roman_digit d <= 1000)%nat as Hd.
  { unfold roman_digit. repeat (destruct (Ascii.eqb d _); [lia|]). lia. }
  replace (roman_digit "M") with 1000%nat by reflexivity.
  by rewrite (proj2 (Nat.ltb_ge 1000 (roman_digit d))) by lia.
Qed.

Lemma roman_value_thousands (k : nat) (r : string) :
  roman_value (repeat_str "M" k ++ r) = (1000 * k + roman_value r)%nat.
Proof.
  induction k as [|k IH]; [done|].
  change (repeat_str "M" (S k) ++ r) with (String "M" (repeat_str "M" k ++ r)).
  rewrite roman_value_M, IH. lia.
Qed.

Lemma int_to_roman_loop_cons (v : nat) (sy : string) (rest : list (nat * string))
    (num : nat) (acc : string) :
  int_to_roman_loop ((v, sy) :: rest) num acc
  = if (0 <? num)%nat
    then int_to_roman_loop rest (num - (num / v) * v)%nat (acc ++ repeat_str sy (num / v))
    else acc.
Proof. reflexivity. Qed.

Lemma roman_table_eq : roman_table = (1000%nat, "M") :: roman_rest.
Proof. reflexivity. Qed.

Lemma int_to_roman_thousands (n : nat) :
  int_to_roman n = repeat_str "M" (n / 1000) ++ int_to_roman (n mod 1000).
Proof.
  unfold int_to_roman. rewrite roman_table_eq, !int_to_roman_loop_cons.
  assert (n mod 1000 < 1000)%nat as Hlt by (apply Nat.mod_upper_bound; lia).
  assert (n - n / 1000 * 1000 = n mod 1000)%nat as ->
    by (pose proof (Nat.div_mod_eq n 1000); lia).
  rewrite (Nat.div_small (n mod 1000) 1000) by done.
  rewrite Nat.mul_0_l, Nat.sub_0_r.
  change (repeat_str "M" 0) with "".
  destruct (Nat.ltb_spec 0 n) as [Hpos|Hzero].
  - rewrite int_to_roman_loop_acc.
    destruct (Nat.ltb_spec 0 (n mod 1000)) as [Hm|Hm]; [done|].
    by assert (n mod 1000 = 0)%nat as -> by lia.
  - by assert (n = 0)%nat as -> by lia.
Qed.

Lemma int_to_roman_below_1000 :
  forallb (fun n => Nat.eqb (roman_value (int_to_roman n)) n) (seq 0 1000) = true.
Proof. vm_compute. reflexivity. Qed.

(** Reading back the numeral [int_to_roman] writes gives the number, for
    every number: no two numbers share a numeral, and only 0 has the empty
    one. *)
Theorem int_to_roman_round_trip (n : nat) :
  roman_value (int_to_roman n) = n
  /\ (forall m, int_to_roman m = int_to_roman n -> m = n)
  /\ (int_to_roman n = "" <-> n = 0%nat).
Proof.
  assert (forall k, roman_value (int_to_roman k) = k) as Hvalue.
  { intros k. rewrite int_to_roman_thousands, roman_value_thousands.
    assert (k mod 1000 < 1000)%nat as Hlt by (apply Nat.mod_upper_bound; lia).
    pose proof int_to_roman_below_1000 as Hall. rewrite forallb_forall in Hall.
    specialize (Hall (k mod 1000)%nat). rewrite in_seq in Hall.
    apply Nat.eqb_eq in Hall; [|lia]. rewrite Hall.
    pose proof (Nat.div_mod_eq k 1000). lia. }
  split; [done|]. split.
  - intros m Heq. by rewrite <- (Hvalue m), Heq, Hvalue.
  - split; [|by intros ->].
    intros Hempty. by rewrite <- (Hvalue n), Hempty.
Qed.

(** ** attrs_equal *)

(** [attrs_equal] decides whether the two attribute dictionaries are the
    same: same keys, same value under each; [None] equals [None] only. *)
Theorem attrs_equal_iff (a b : option (gmap string attr_value)) :
  attrs_equal a b = true <-> a = b.
Proof.
  destruct a as [da|], b as [db|]; simpl; try (split; (done || discriminate)).
  case_bool_decide as Hdom; simpl.
  - rewrite bool_decide_eq_true. split.
    + intros Hall. f_equal. apply map_eq. intros k.
      destruct (da !! k) as [v|] eqn:Hk.
      * symmetry. by apply (Hall k v).
      * symmetry. apply not_elem_of_dom. rewrite <- Hdom. by apply not_elem_of_dom.
    + intros [= ->]. by intros k v Hk.
  - split; [done|]. intros [= ->]. done.
Qed.

(** ** Depth of the tree *)

Lemma tree_forest_ind (P : tree -> Prop) :
  (forall level text src cs, Forall P cs -> P (TNode level text src cs)) ->
  forall t, P t.
Proof.
  intros Hnode. fix IH 1. intros [level text src cs]. apply Hnode.
  induction cs as [|c cs IHcs]; constructor; [apply IH | exact IHcs].
Qed.

Lemma list_max_shift (d : nat) (l : list nat) :
  l <> [] -> list_max (map (Nat.add d) l) = (d + list_max l)%nat.
Proof.
  induction l as [|x l IH]; [done|]. intros _. simpl.
  destruct l as [|y l]; [simpl; lia|]. rewrite IH by done. lia.
Qed.

Lemma child_depth_calc (t : tree) :
  forall d, child_depth d t = (d + calc_max_depth (tree_children t))%nat.
Proof.
  induction t as [level text src cs IH] using tree_forest_ind. intros d.
  destruct cs as [|c cs]; [simpl; unfold calc_max_depth; simpl; lia|].
  change (child_depth d (TNode level text src (c :: cs)))
    with (list_max (map (child_depth (S d)) (c :: cs))).
  simpl tree_children. unfold calc_max_depth.
  rewrite <- list_max_shift by done. rewrite map_map. f_equal.
  apply map_ext_Forall. eapply Forall_impl; [|exact IH].
  intros [l' t' s' cs'] Hc. rewrite Hc. simpl. unfold calc_max_depth. lia.
Qed.

(** The two depth functions of [generate_toc] agree on every forest, and
    the depth written to the navigation document is positive: it is [1]
    for the empty forest and the greatest nesting depth otherwise. *)
Theorem max_depth_agrees (nodes : list tree) :
  max_depth nodes = calc_max_depth nodes
  /\ dtb_depth nodes = str_of_nat (Nat.max 1 (calc_max_depth nodes)).
Proof.
  assert (max_depth nodes = calc_max_depth nodes) as Heq.
  { destruct nodes as [|t ts]; [done|].
    unfold max_depth, calc_max_depth. f_equal. apply map_ext. intros [l x s cs].
    rewrite child_depth_calc. simpl. unfold calc_max_depth. lia. }
  split; [done|]. unfold dtb_depth. rewrite Heq.
  destruct (Nat.ltb_spec 0 (calc_max_depth nodes)); f_equal; lia.
Qed.

(** ** Play order *)

Lemma add_nav_point_unfold (level : Z) (text src : string) (cs : list tree) (c : nat) :
  add_nav_point (TNode level text src cs) c
  = (NavPoint ("navPoint-" ++ str_of_nat (S c)) (str_of_nat (S c)) (escape text) src
       (add_nav_points cs (S c)).1,
     (add_nav_points cs (S c)).2).
Proof.
  simpl.
  match goal with
  | |- (let '(_, _) := ?each cs _ in _) = _ =>
      assert (forall l n, each l n = add_nav_points l n) as Heach
  end.
  { induction l as [|x l IH]; intros n; [done|].
    simpl. destruct (add_nav_point x n) as [y c1]. by rewrite IH. }
  rewrite Heach. by destruct (add_nav_points cs (S c)).
Qed.

Lemma add_nav_points_cons (t : tree) (ts : list tree) (c : nat) :
  add_nav_points (t :: ts) c
  = ((add_nav_point t c).1 :: (add_nav_points ts (add_nav_point t c).2).1,
     (add_nav_points ts (add_nav_point t c).2).2).
Proof.
  simpl. destruct (add_nav_point t c) as [x c1]. simpl.
  by destruct (add_nav_points ts c1).
Qed.

Lemma add_nav_point_orders (t : tree) :
  forall c,
    (add_nav_point t c).2 = (c + tree_size t)%nat
    /\ nav_orders (add_nav_point t c).1 = map str_of_nat (seq (S c) (tree_size t))
    /\ nav_ids (add_nav_point t c).1
       = map (fun n => "navPoint-" ++ str_of_nat n) (seq (S c) (tree_size t)).
Proof.
  induction t as [level text src cs IH] using tree_forest_ind. intros c.
  rewrite add_nav_point_unfold. simpl.
  assert (forall n,
    (add_nav_points cs n).2 = (n + forest_size cs)%nat
    /\ concat (map nav_orders (add_nav_points cs n).1)
       = map str_of_nat (seq (S n) (forest_size cs))
    /\ concat (map nav_ids (add_nav_points cs n).1)
       = map (fun k => "navPoint-" ++ str_of_nat k) (seq (S n) (forest_size cs))) as Hkids.
  { induction IH as [|t ts Ht _ IHts]; intros n.
    - unfold forest_size. simpl. split; [lia|done].
    - rewrite add_nav_points_cons. simpl.
      destruct (Ht n) as (Hc & Ho & Hi).
      destruct (IHts (add_nav_point t n).2) as (Hc' & Ho' & Hi').
      unfold forest_size in *. simpl.
      rewrite Hc', Ho, Ho', Hi, Hi', Hc.
      split; [lia|].
      rewrite !seq_app, !map_app.
      by replace (S n + tree_size t)%nat with (S (n + tree_size t)) by lia. }
  destruct (Hkids (S c)) as (Hc & Ho & Hi). fold (forest_size cs).
  rewrite Hc, Ho, Hi. split; [lia|done].
Qed.

(** The play orders of the navigation document, read in document order,
    are 1, 2, ..., n without gap or repetition, n being the number of
    navigation points; each point's id is [navPoint-] followed by its play
    order. *)
Theorem play_order_consecutive (navpoints : list tree) :
  concat (map nav_orders (nav_map navpoints))
    = map str_of_nat (seq 1 (forest_size navpoints))
  /\ concat (map nav_ids (nav_map navpoints))
    = map (fun n => "navPoint-" ++ str_of_nat n) (seq 1 (forest_size navpoints))
  /\ (add_nav_points navpoints 0).2 = forest_size navpoints.
Proof.
  unfold nav_map.
  assert (forall n,
    (add_nav_points navpoints n).2 = (n + forest_size navpoints)%nat
    /\ concat (map nav_orders (add_nav_points navpoints n).1)
       = map str_of_nat (seq (S n) (forest_size navpoints))
    /\ concat (map nav_ids (add_nav_points navpoints n).1)
       = map (fun k => "navPoint-" ++ str_of_nat k) (seq (S n) (forest_size navpoints)))
    as Hall.
  { induction navpoints as [|t ts IHts]; intros n.
    - unfold forest_size. simpl. split; [lia|done].
    - rewrite add_nav_points_cons. simpl.
      destruct (add_nav_point_orders t n) as (Hc & Ho & Hi).
      destruct (IHts (add_nav_point t n).2) as (Hc' & Ho' & Hi').
      unfold forest_size in *. simpl.
      rewrite Hc', Ho, Ho', Hi, Hi', Hc.
      split; [lia|].
      rewrite !seq_app, !map_app.
      by replace (S n + tree_size t)%nat with (S (n + tree_size t)) by lia. }
  destruct (Hall 0%nat) as (Hc & Ho & Hi). by rewrite Ho, Hi, Hc.
Qed.

(** ** Preferences *)

Section PrefsProperties.
Context {A : Type} `{Countable A}.

Lemma sublist_same_length (l1 l2 : list A) :
  sublist l1 l2 -> (length l2 <= length l1)%nat -> l1 = l2.
Proof.
  induction 1 as [|x l1 l2 Hsub IH|x l1 l2 Hsub IH]; simpl; intros Hlen.
  - done.
  - f_equal. apply IH. lia.
  - apply sublist_length in Hsub. lia.
Qed.

Lemma remove_dupes_loop_spec (values output : list A) (seen : gset A) :
  NoDup output ->
  (forall x, x ∈ seen <-> x ∈ output) ->
  NoDup (remove_dupes_loop values output seen)
  /\ (forall x, x ∈ remove_dupes_loop values output seen <-> x ∈ output \/ x ∈ values)
  /\ exists added, remove_dupes_loop values output seen = (output ++ added)%list
       /\ sublist added values.
Proof.
  revert output seen. induction values as [|v rest IH]; intros output seen Hnd Hseen; simpl.
  - split; [done|]. split; [set_solver|]. exists []. by rewrite app_nil_r.
  - destruct (decide (v ∈ seen)) as [Hin|Hnin].
    + destruct (IH output seen Hnd Hseen) as (Hn & Hmem & added & Heq & Hsub).
      split; [done|]. split.
      * intros x. rewrite Hmem. apply Hseen in Hin. set_solver.
      * exists added. split; [done|]. by apply sublist_cons.
    + assert (v ∉ output) as Hout by (by rewrite <- Hseen).
      destruct (IH (output ++ [v])%list ({[v]} ∪ seen)) as (Hn & Hmem & added & Heq & Hsub).
      { apply list.NoDup_app. split; [done|]. split; [set_solver|]. apply NoDup_singleton. }
      { intros x. rewrite elem_of_union, elem_of_app, Hseen. set_solver. }
      split; [done|]. split.
      * intros x. rewrite Hmem. set_solver.
      * exists (v :: added). split; [by rewrite Heq, <- app_assoc|]. by apply sublist_skip.
Qed.

(** [remove_dupes] keeps the first occurrence of every value and nothing
    else: the result has no duplicate, has exactly the values of the
    input, keeps them in the order of the input, and a list without
    duplicates comes back unchanged (so removing twice changes nothing). *)
Theorem remove_dupes_first_occurrences (values : list A) :
  NoDup (remove_dupes values)
  /\ (forall x, x ∈ remove_dupes values <-> x ∈ values)
  /\ sublist (remove_dupes values) values
  /\ (NoDup values -> remove_dupes values = values)
  /\ remove_dupes (remove_dupes values) = remove_dupes values.
Proof.
  destruct (remove_dupes_loop_spec values [] ∅) as (Hn & Hmem & added & Heq & Hsub);
    [constructor | set_solver |].
  fold (remove_dupes values) in *. simpl in Heq. subst added.
  assert (forall l : list A, NoDup l -> remove_dupes l = l) as Hid.
  { intros l Hl.
    destruct (remove_dupes_loop_spec l [] ∅) as (Hn' & Hmem' & added & Heq' & Hsub');
      [constructor | set_solver |].
    fold (remove_dupes l) in *. simpl in Heq'. subst added.
    apply sublist_same_length; [done|].
    apply submseteq_length, NoDup_submseteq; [done|]. intros x Hx. apply Hmem'. by right. }
  split; [done|]. split; [intros x; rewrite Hmem; set_solver|]. split; [done|].
  split; [apply Hid|]. by apply Hid.
Qed.

End PrefsProperties.

Section PrefGroupsProperties.
Context {V : Type}.

(** After [fix_old_keys] neither old key is left; what was stored under an
    old key is stored under its new name, replacing what the new name held;
    every other key keeps its value. *)
Theorem fix_old_keys_renames (combo_values : gmap string V) :
  let fixed := fix_old_keys combo_values in
  fixed !! "sec_changes" = None
  /\ fixed !! "block_changes" = None
  /\ fixed !! "section_changes"
     = match combo_values !! "sec_changes" with
       | Some v => Some v
       | None => combo_values !! "section_changes"
       end
  /\ fixed !! "blockquote_changes"
     = match combo_values !! "block_changes" with
       | Some v => Some v
       | None => combo_values !! "blockquote_changes"
       end
  /\ (forall key, key <> "sec_changes" -> key <> "block_changes" ->
      key <> "section_changes" -> key <> "blockquote_changes" ->
      fixed !! key = combo_values !! key).
Proof.
  cbv zeta. unfold fix_old_keys, rename_key.
  destruct (combo_values !! "sec_changes") as [v1|] eqn:H1;
    destruct (combo_values !! "block_changes") as [v2|] eqn:H2;
    simplify_map_eq; repeat split; intros; by simplify_map_eq.
Qed.

Lemma check_for_new_prefs_lookup (defaults : list (string * V)) :
  forall (prefs_group : gmap string V) (key : string),
    check_for_new_prefs prefs_group defaults !! key
    = match prefs_group !! key with
      | Some v => Some v
      | None => (list_to_map defaults : gmap string V) !! key
      end.
Proof.
  induction defaults as [|[k v] rest IH]; intros prefs_group key; simpl.
  - by destruct (prefs_group !! key).
  - destruct (prefs_group !! k) as [w|] eqn:Hk.
    + rewrite IH. destruct (prefs_group !! key) eqn:Hkey; [done|].
      rewrite lookup_insert_ne; [done|]. intros ->. congruence.
    + rewrite IH. destruct (decide (k = key)) as [->|Hne].
      * by rewrite !lookup_insert_eq, Hk.
      * by rewrite !lookup_insert_ne.
Qed.

(** [check_for_new_prefs] fills in the defaults that are missing and
    nothing else: a key the group has keeps its value, a key it lacks gets
    the default, a key neither has stays absent; so the result is the
    group merged over the defaults, and running it again changes nothing. *)
Theorem check_for_new_prefs_merge (prefs_group : gmap string V)
    (defaults : list (string * V)) :
  check_for_new_prefs prefs_group defaults = prefs_group ∪ list_to_map defaults
  /\ (forall key v, prefs_group !! key = Some v ->
      check_for_new_prefs prefs_group defaults !! key = Some v)
  /\ check_for_new_prefs (check_for_new_prefs prefs_group defaults) defaults
     = check_for_new_prefs prefs_group defaults.
Proof.
  split; [|split].
  - apply map_eq. intros key. rewrite check_for_new_prefs_lookup, lookup_union.
    destruct (prefs_group !! key), ((list_to_map defaults : gmap string V) !! key); done.
  - intros key v Hk. by rewrite check_for_new_prefs_lookup, Hk.
  - apply map_eq. intros key. rewrite !check_for_new_prefs_lookup.
    destruct (prefs_group !! key); [done|].
    by destruct ((list_to_map defaults : gmap string V) !! key).
Qed.

End PrefGroupsProperties.

(** ** Slugs *)

Lemma list_ascii_rev (s : string) :
  list_ascii_of_string (PyStr.rev s) = rev (list_ascii_of_string s).
Proof. unfold PyStr.rev. apply list_ascii_of_string_of_list_ascii. Qed.

Lemma lstrip_char_suffix (x : ascii) (s : string) :
  exists pre, list_ascii_of_string s = (pre ++ list_ascii_of_string (lstrip_char x s))%list.
Proof.
  induction s as [|c s [pre IH]]; [by exists []|]. simpl.
  destruct (Ascii.eqb c x); [|by exists []].
  exists (c :: pre). simpl. by rewrite <- IH.
Qed.

Lemma lstrip_char_head (x : ascii) (s : string) :
  head (list_ascii_of_string (lstrip_char x s)) <> Some x.
Proof.
  induction s as [|c s IH]; [done|]. simpl.
  destruct (Ascii.eqb_spec c x) as [->|Hne]; [done|]. simpl. congruence.
Qed.

Lemma strip_char_shape (x : ascii) (s : string) :
  let kept := list_ascii_of_string (strip_char x s) in
  (exists pre post, list_ascii_of_string s = (pre ++ kept ++ post)%list)
  /\ head kept <> Some x
  /\ list.last kept <> Some x.
Proof.
  cbv zeta. unfold strip_char. rewrite list_ascii_rev.
  destruct (lstrip_char_suffix x s) as [pre Hpre].
  destruct (lstrip_char_suffix x (PyStr.rev (lstrip_char x s))) as [pre2 Hpre2].
  pose proof (lstrip_char_head x s) as Hhead.
  pose proof (lstrip_char_head x (PyStr.rev (lstrip_char x s))) as Hhead2.
  rewrite list_ascii_rev in Hpre2.
  set (t := list_ascii_of_string (lstrip_char x s)) in *.
  set (u := list_ascii_of_string (lstrip_char x (PyStr.rev (lstrip_char x s)))) in *.
  assert (t = (rev u ++ rev pre2)%list) as Ht.
  { rewrite <- (rev_involutive t), Hpre2. by rewrite rev_app_distr. }
  split; [|split].
  - exists pre, (rev pre2). by rewrite Hpre, Ht.
  - destruct (rev u) as [|a r] eqn:Hr; [done|].
    rewrite Ht in Hhead. by simpl in *.
  - destruct u as [|a r]; [done|]. simpl. by rewrite last_snoc.
Qed.

Lemma sub_runs_chars (in_run : bool) (s : string) :
  Forall (fun c => is_slug_char c = true \/ c = "-"%char)
    (list_ascii_of_string (sub_runs in_run s)).
Proof.
  revert in_run. induction s as [|c s IH]; intros in_run; simpl; [constructor|].
  destruct (is_slug_char c) eqn:Hc; [constructor; [by left|apply IH]|].
  destruct in_run; [apply IH|]. constructor; [by right|apply IH].
Qed.

Lemma sub_runs_no_pair (s : string) :
  hyphen_pair (list_ascii_of_string (sub_runs false s)) = false
  /\ hyphen_pair (list_ascii_of_string (sub_runs true s)) = false
  /\ head (list_ascii_of_string (sub_runs true s)) <> Some "-"%char.
Proof.
  induction s as [|c s (Hf & Ht & Hh)]; [done|]. simpl.
  destruct (is_slug_char c) eqn:Hc.
  - assert (Ascii.eqb c "-" = false) as Hne.
    { destruct (Ascii.eqb_spec c "-") as [->|]; [done|done]. }
    simpl. rewrite Hne. simpl.
    destruct (list_ascii_of_string (sub_runs false s)) eqn:Hl; simpl; [split; [done|]|].
    + split; [done|]. intros [= ->]. done.
    + split; [done|]. split; [done|]. intros [= ->]. done.
  - split; [|done]. simpl.
    destruct (list_ascii_of_string (sub_runs true s)) as [|b r] eqn:Hl; [done|].
    simpl in Hh. rewrite Ht. destruct (Ascii.eqb_spec b "-") as [->|]; [done|done].
Qed.

Lemma hyphen_pair_suffix (pre l : list ascii) :
  hyphen_pair (pre ++ l) = false -> hyphen_pair l = false.
Proof.
  induction pre as [|a pre IH]; [done|]. simpl.
  destruct (pre ++ l)%list as [|b r] eqn:Hpl.
  - by destruct pre, l.
  - intros [_ Hr]%orb_false_elim. by apply IH.
Qed.

Lemma hyphen_pair_prefix (l post : list ascii) :
  hyphen_pair (l ++ post) = false -> hyphen_pair l = false.
Proof.
  induction l as [|a l IH]; [done|]. simpl.
  destruct l as [|b r]; [done|]. simpl.
  intros [Hab Hr]%orb_false_elim. rewrite Hab. by apply IH.
Qed.

(** The slug is usable as (part of) an [id]: it is never empty, made of
    lowercase letters, digits and hyphens only, neither starts nor ends
    with a hyphen, and has no two hyphens in a row, whatever the text and
    whatever its lower case is. *)
Theorem safe_id_from_text_shape `{PyLib} (text : string) :
  let slug := list_ascii_of_string (safe_id_from_text text) in
  safe_id_from_text text <> ""
  /\ Forall (fun c => is_slug_char c = true \/ c = "-"%char) slug
  /\ head slug <> Some "-"%char
  /\ list.last slug <> Some "-"%char
  /\ hyphen_pair slug = false.
Proof.
  cbv zeta. unfold safe_id_from_text.
  case_bool_decide as Hempty.
  { split; [done|]. split; [|done].
    repeat constructor; (by left) || (by right). }
  destruct (strip_char_shape "-" (sub_runs false (str_lower text)))
    as ((pre & post & Hmid) & Hhead & Hlast).
  split; [done|]. split; [|split; [done|split; [done|]]].
  - pose proof (sub_runs_chars false (str_lower text)) as Hall.
    rewrite Hmid in Hall. by apply list.Forall_app in Hall as [_ [Hall _]%list.Forall_app].
  - destruct (sub_runs_no_pair (str_lower text)) as (Hf & _ & _).
    rewrite Hmid in Hf. by apply hyphen_pair_suffix, hyphen_pair_prefix in Hf.
Qed.

(** ** Failure of the tree builder *)

Lemma build_tree_pop_negative (level : Z) (stack : list nat) :
  level < 0 -> BuildTree.pop_while level stack = inl IndexError.
Proof.
  intros Hneg. induction stack as [|top below IH]; simpl.
  - destruct (Z.gtb_spec 0 level); [done|lia].
  - destruct (Z.gtb_spec (Z.of_nat (S (length below))) level); [done|lia].
Qed.

Lemma build_tree_step_negative (st : BuildTree.state) (item : toc_item) :
  ti_level item < 0 -> BuildTree.step st item = inl IndexError.
Proof.
  intros Hneg. unfold BuildTree.step.
  destruct (Z.eqb_spec (ti_level item) 0); [lia|].
  by rewrite build_tree_pop_negative.
Qed.

Lemma build_tree_step_keeps_root (st : BuildTree.state) (item : toc_item) :
  0 <= ti_level item -> BuildTree.st_stack st <> [] ->
  exists st', BuildTree.step st item = inr st' /\ BuildTree.st_stack st' <> [].
Proof.
  intros Hlevel Hstack. unfold BuildTree.step.
  destruct (Z.eqb_spec (ti_level item) 0) as [Hz|Hnz]; [by eexists|].
  rewrite build_tree_pops_by_depth by done. simpl.
  destruct (drop _ _) as [|top below] eqn:Hdrop.
  - apply (f_equal length) in Hdrop. rewrite length_drop in Hdrop. simpl in Hdrop.
    destruct (BuildTree.st_stack st); [done|]. simpl in Hdrop. lia.
  - by eexists.
Qed.

Lemma build_tree_loop_outcome (items : list toc_item) (st : BuildTree.state) :
  BuildTree.st_stack st <> [] ->
  match BuildTree.loop st items with
  | inr _ => Forall (fun item => 0 <= ti_level item) items
  | inl e => e = IndexError /\ Exists (fun item => ti_level item < 0) items
  end.
Proof.
  revert st. induction items as [|item rest IH]; intros st Hstack; simpl; [constructor|].
  destruct (Z.lt_ge_cases (ti_level item) 0) as [Hneg|Hlevel].
  - rewrite build_tree_step_negative by done. simpl. split; [done|]. by constructor.
  - destruct (build_tree_step_keeps_root st item Hlevel Hstack) as (st' & -> & Hstack').
    simpl. specialize (IH st' Hstack').
    destruct (BuildTree.loop st' rest) as [e|st''].
    + destruct IH as [-> Hex]. split; [done|]. by apply Exists_cons_tl.
    + by constructor.
Qed.

(** [build_tree] fails exactly on a record of negative level: it then pops
    the virtual root off the stack and raises [IndexError] at the next pop;
    on records of level 0 or more it always returns a forest. *)
Theorem build_tree_negative_level (items : list toc_item) :
  match build_tree items with
  | inr _ => Forall (fun item => 0 <= ti_level item) items
  | inl e => e = IndexError /\ Exists (fun item => ti_level item < 0) items
  end.
Proof.
  unfold build_tree.
  pose proof (build_tree_loop_outcome items BuildTree.init) as Hloop.
  destruct (BuildTree.loop BuildTree.init items) as [e|st]; simpl; by apply Hloop.
Qed.

(** ** The depth written to the navigation document *)

Section DepthTrack.
Local Open Scope list_scope.

Lemma calc_max_depth_app (a b : list tree) :
  calc_max_depth (a ++ b) = Nat.max (calc_max_depth a) (calc_max_depth b).
Proof. unfold calc_max_depth. by rewrite map_app, list_max_app. Qed.

Lemma calc_max_depth_tree_of (d : tnode) (ts : list tree) :
  calc_max_depth [tree_of d ts] = S (calc_max_depth ts).
Proof. unfold calc_max_depth. simpl. lia. Qed.

Lemma frames_depth_extra (open : list frame) :
  forall extra,
    frames_depth extra open = Nat.max (frames_depth 0 open) (extra + length open).
Proof.
  induction open as [|[[r d] ts] below IH]; intros extra; simpl; [lia|].
  rewrite (IH (S (Nat.max (calc_max_depth ts) extra))).
  rewrite (IH (S (Nat.max (calc_max_depth ts) 0))). lia.
Qed.

Lemma close_top_depth (z : list frame * list tree) :
  zipper_depth (close_top z) = zipper_depth z.
Proof.
  destruct z as [[|[[r d] ts] [|[[r' d'] ts'] below]] rootkids]; [done| |].
  - unfold zipper_depth. simpl. rewrite calc_max_depth_app, calc_max_depth_tree_of. lia.
  - unfold zipper_depth. simpl. rewrite calc_max_depth_app, calc_max_depth_tree_of.
    by rewrite !Nat.max_0_r.
Qed.

Lemma close_n_depth (k : nat) (z : list frame * list tree) :
  zipper_depth (close_n k z) = zipper_depth z.
Proof.
  revert z. induction k as [|k IH]; intros z; simpl; [done|].
  by rewrite IH, close_top_depth.
Qed.

Lemma close_n_length (k : nat) (z : list frame * list tree) :
  length (close_n k z).1 = (length z.1 - k)%nat.
Proof.
  revert z. induction k as [|k IH]; intros z; simpl; [lia|].
  rewrite IH. destruct z as [[|[[r d] ts] [|[[r' d'] ts'] below]] rootkids]; simpl; lia.
Qed.

Lemma push_depth (f : frame) (open : list frame) (rootkids : list tree) :
  f.2 = [] ->
  zipper_depth (f :: open, rootkids)
  = Nat.max (zipper_depth (open, rootkids)) (S (length open)).
Proof.
  destruct f as [[r d] ts]. simpl. intros ->. unfold zipper_depth. simpl.
  rewrite (frames_depth_extra open 1). unfold calc_max_depth. simpl. lia.
Qed.

Lemma close_up_depth (open : list frame) :
  forall extra,
    calc_max_depth (close_up extra open) = frames_depth (calc_max_depth extra) open.
Proof.
  induction open as [|[[r d] ts] below IH]; intros extra; simpl; [done|].
  by rewrite IH, calc_max_depth_tree_of, calc_max_depth_app.
Qed.

Lemma pop_levels_shorter (level : Z) (levels : list Z) :
  (length (pop_levels level levels) <= length levels)%nat.
Proof.
  induction levels as [|l rest IH]; simpl; [lia|]. destruct (l >=? level); simpl; lia.
Qed.

Lemma pop_levels_at_least (level : Z) (levels : list Z) :
  at_least_depth levels -> at_least_depth (pop_levels level levels).
Proof.
  induction levels as [|l rest IH]; [done|]. intros Hall.
  simpl. destruct (l >=? level); [|done]. apply IH. by destruct Hall.
Qed.

Lemma pop_levels_below (level : Z) (levels : list Z) :
  at_least_depth levels -> Z.of_nat (length (pop_levels level levels)) < level \/ pop_levels level levels = [].
Proof.
  induction levels as [|l rest IH]; [by right|]. intros [Hl Hrest]. simpl.
  destruct (Z.geb_spec l level); [by apply IH|]. left. simpl in *. lia.
Qed.

(** Side by side on the same levels, the navigation builder never has
    more open points than [build_tree] has open nodes, and never reaches
    a greater depth, but for the depth 1 of a point of level 0. *)
Lemma tracks_compared (levels : list Z) :
  forall (t : nat * nat) (n : list Z * nat),
    Forall (fun level => 0 <= level) levels ->
    (n.2 <= Nat.max 1 t.2)%nat -> (length n.1 <= t.1)%nat -> at_least_depth n.1 ->
    ((fold_left nav_track levels n).2 <= Nat.max 1 (fold_left tree_track levels t).2)%nat.
Proof.
  induction levels as [|level rest IH]; intros t n Hlevels Hdepth Hlen Hclimb; [done|].
  inversion Hlevels as [|? ? Hlevel Hrest]; subst. simpl. apply IH; [done|..].
  - unfold nav_track, tree_track.
    destruct (Z.gtb_spec level 0) as [Hpos|Hnonpos].
    + destruct (Z.eqb_spec level 0); [lia|].
      destruct (Z.eqb_spec level 1); simpl; [lia|].
      destruct (pop_levels_below level n.1 Hclimb) as [Hbelow|Hnil].
      * pose proof (pop_levels_shorter level n.1).
        destruct (pop_levels level n.1) as [|l' rest'] eqn:Hpop; simpl in *; lia.
      * rewrite Hnil. simpl. lia.
    + destruct (Z.eqb_spec level 0); [simpl; lia|lia].
  - unfold nav_track, tree_track.
    destruct (Z.gtb_spec level 0) as [Hpos|Hnonpos].
    + destruct (Z.eqb_spec level 0); [lia|].
      destruct (Z.eqb_spec level 1); simpl; [lia|].
      destruct (pop_levels_below level n.1 Hclimb) as [Hbelow|Hnil].
      * pose proof (pop_levels_shorter level n.1).
        destruct (pop_levels level n.1) as [|l' rest'] eqn:Hpop; simpl in *; lia.
      * rewrite Hnil. simpl. lia.
    + destruct (Z.eqb_spec level 0); [simpl; lia|lia].
  - unfold nav_track.
    destruct (Z.gtb_spec level 0) as [Hpos|Hnonpos]; [|done].
    destruct (Z.eqb_spec level 1); simpl; [lia|].
    pose proof (pop_levels_at_least level n.1 Hclimb) as Hrest'.
    destruct (pop_levels_below level n.1 Hclimb) as [Hbelow|Hnil].
    + destruct (pop_levels level n.1) as [|l' rest'] eqn:Hpop; [done|].
      simpl in *. split; [lia|done].
    + by rewrite Hnil.
Qed.

End DepthTrack.

(** ** The tree keeps the order of the document *)

Section Store.
Local Open Scope list_scope.

Lemma stored_mono (h : heap) (b b' : nat) :
  (b <= b')%nat ->
  (forall r t, stored h b r t -> stored h b' r t)
  /\ (forall r cs ts, stored_kids h b r cs ts -> stored_kids h b' r cs ts).
Proof.
  intros Hb.
  apply (stored_both h b (fun r t _ => stored h b' r t)
           (fun r cs ts _ => stored_kids h b' r cs ts)).
  - intros r d cs ts Hr Hl _ IH. econstructor; [lia|done|done].
  - constructor.
  - intros r c cs t ts Hc _ IH1 _ IH2. by constructor.
Qed.

Lemma stored_grow (h : heap) (b : nat) (x : cell) :
  (forall r t, stored h b r t -> stored (h ++ [x]) b r t)
  /\ (forall r cs ts, stored_kids h b r cs ts -> stored_kids (h ++ [x]) b r cs ts).
Proof.
  apply (stored_both h b (fun r t _ => stored (h ++ [x]) b r t)
           (fun r cs ts _ => stored_kids (h ++ [x]) b r cs ts)).
  - intros r d cs ts Hr Hl _ IH. econstructor; [done| |done].
    by apply lookup_app_l_Some.
  - constructor.
  - intros r c cs t ts Hc _ IH1 _ IH2. by constructor.
Qed.

Lemma stored_alter (h : heap) (b top : nat) (f : cell -> cell) :
  (forall r t, stored h b r t ->
     (top < r)%nat \/ (b <= top)%nat -> stored (alter f top h) b r t)
  /\ (forall r cs ts, stored_kids h b r cs ts ->
     (top <= r)%nat \/ (b <= top)%nat -> stored_kids (alter f top h) b r cs ts).
Proof.
  apply (stored_both h b
           (fun r t _ => (top < r)%nat \/ (b <= top)%nat -> stored (alter f top h) b r t)
           (fun r cs ts _ =>
              (top <= r)%nat \/ (b <= top)%nat -> stored_kids (alter f top h) b r cs ts)).
  - intros r d cs ts Hr Hl _ IH Hout.
    apply (stored_node _ _ r d cs ts); [done| |apply IH; lia].
    etrans; [apply list_lookup_alter_ne; lia|done].
  - constructor.
  - intros r c cs t ts Hc _ IH1 _ IH2 Hout. constructor; [done|apply IH1; lia|by apply IH2].
Qed.

Lemma stored_kids_snoc (h : heap) (b r c : nat) (cs : list nat) (t : tree) (ts : list tree) :
  stored_kids h b r cs ts -> (r < c)%nat -> stored h b c t ->
  stored_kids h b r (cs ++ [c]) (ts ++ [t]).
Proof.
  intros Hkids Hc Ht. induction Hkids; simpl.
  - constructor; [done|done|constructor].
  - constructor; [done|done|by apply IHHkids].
Qed.

Lemma reify_cons (fuel : nat) (h : heap) (c : nat) (cs : list nat) :
  reify fuel h (c :: cs) = (reify fuel h [c] ++ reify fuel h cs)%list.
Proof. destruct fuel; simpl; [done|]. by rewrite app_nil_r. Qed.

Lemma stored_reify (h : heap) (b : nat) :
  (forall r t, stored h b r t ->
     forall fuel, (length h <= fuel + r)%nat -> reify fuel h [r] = [t])
  /\ (forall r cs ts, stored_kids h b r cs ts ->
     forall fuel, (length h <= fuel + S r)%nat -> reify fuel h cs = ts).
Proof.
  apply (stored_both h b
           (fun r t _ => forall fuel, (length h <= fuel + r)%nat -> reify fuel h [r] = [t])
           (fun r cs ts _ =>
              forall fuel, (length h <= fuel + S r)%nat -> reify fuel h cs = ts)).
  - intros r d cs ts Hr Hl _ IH fuel Hfuel.
    pose proof (lookup_lt_Some _ _ _ Hl) as Hlt.
    unfold cell in *.
    destruct fuel as [|fuel]; [lia|]. simpl. rewrite Hl, app_nil_r.
    unfold tree_of. by rewrite IH by lia.
  - intros r fuel _. by destruct fuel.
  - intros r c cs t ts Hc _ IH1 _ IH2 fuel Hfuel.
    rewrite reify_cons, IH1, IH2 by lia. done.
Qed.

Lemma forest_preorder_snoc (ts : list tree) (t : tree) :
  forest_preorder (ts ++ [t]) = (forest_preorder ts ++ preorder t)%list.
Proof.
  unfold forest_preorder. rewrite map_app, concat_app. simpl. by rewrite app_nil_r.
Qed.

Lemma preorder_tree_of (d : tnode) (ts : list tree) :
  preorder (tree_of d ts) = d :: forest_preorder ts.
Proof. by destruct d. Qed.

Lemma close_top_listing (z : list frame * list tree) :
  zipper_listing (close_top z) = zipper_listing z.
Proof.
  destruct z as [[|[[r d] ts] [|[[r' d'] ts'] below]] rootkids]; [done| |].
  - unfold zipper_listing. simpl.
    rewrite forest_preorder_snoc, preorder_tree_of, !app_nil_r. done.
  - unfold zipper_listing. simpl.
    rewrite !map_app, !concat_app. simpl.
    rewrite forest_preorder_snoc, preorder_tree_of, !app_nil_r, <- !app_assoc. done.
Qed.

Lemma close_n_listing (k : nat) (z : list frame * list tree) :
  zipper_listing (close_n k z) = zipper_listing z.
Proof.
  revert z. induction k as [|k IH]; intros z; simpl; [done|].
  by rewrite IH, close_top_listing.
Qed.

Lemma close_n_refs (k : nat) (z : list frame * list tree) :
  (k <= length z.1)%nat -> frame_refs (close_n k z).1 = drop k (frame_refs z.1).
Proof.
  revert z. induction k as [|k IH]; intros z Hk; simpl; [done|].
  destruct z as [[|[[r d] ts] [|[[r' d'] ts'] below]] rootkids]; simpl in *; [lia| |].
  - rewrite IH by (simpl; lia). done.
  - rewrite IH by (simpl; lia). done.
Qed.

Lemma chain_frame (h : heap) (x : cell) (f : cell -> cell) (top : nat)
    (open : list frame) (rootkids : list tree) :
  forall b above,
    (0 < b <= top)%nat ->
    chain h b above open rootkids ->
    chain (alter f top (h ++ [x])) b above open rootkids.
Proof.
  induction open as [|[[r d] ts] below IH]; intros b above Hb; simpl.
  - intros (cs & Hroot & Hkids). exists cs. split.
    + etrans; [apply list_lookup_alter_ne; lia|]. by apply lookup_app_l_Some.
    + apply stored_alter; [|lia]. by apply stored_grow.
  - intros (Hr & cs & Hcell & Hkids & Hbelow). split; [done|]. exists cs. split; [|split].
    + etrans; [apply list_lookup_alter_ne; lia|]. by apply lookup_app_l_Some.
    + apply stored_alter; [|lia]. by apply stored_grow.
    + apply IH; [lia|done].
Qed.

Lemma chain_close (h : heap) (z : list frame * list tree) :
  chain h (length h) [] z.1 z.2 ->
  chain h (length h) [] (close_top z).1 (close_top z).2.
Proof.
  destruct z as [[|[[r d] ts] [|[[r' d'] ts'] below]] rootkids]; simpl; [done| |].
  - intros (Hr & cs & Hcell & Hkids & cs0 & Hroot & Hkids0).
    rewrite app_nil_r in Hcell.
    exists (cs0 ++ [r]). split; [by rewrite app_nil_r|].
    apply stored_kids_snoc; [|lia|by apply (stored_node _ _ r d cs ts); [lia|..]].
    by apply (proj2 (stored_mono h r (length h) ltac:(lia))).
  - intros (Hr & cs & Hcell & Hkids & Hr' & cs' & Hcell' & Hkids' & Hbelow).
    rewrite app_nil_r in Hcell.
    split; [lia|]. exists (cs' ++ [r]). split; [by rewrite app_nil_r|]. split; [|done].
    apply stored_kids_snoc; [|lia|by apply (stored_node _ _ r d cs ts); [lia|..]].
    by apply (proj2 (stored_mono h r (length h) ltac:(lia))).
Qed.

Lemma chain_close_n (h : heap) (k : nat) (z : list frame * list tree) :
  chain h (length h) [] z.1 z.2 ->
  chain h (length h) [] (close_n k z).1 (close_n k z).2.
Proof.
  revert z. induction k as [|k IH]; intros z Hz; simpl; [done|].
  by apply IH, chain_close.
Qed.

Lemma chain_push (h : heap) (open : list frame) (rootkids : list tree) (d : tnode) :
  chain h (length h) [] open rootkids ->
  chain (append_child (h ++ [(Some d, [])]) (hd 0%nat (frame_refs open)) (length h))
    (S (length h)) [] ((length h, d, []) :: open) rootkids.
Proof.
  intros Hchain. unfold append_child.
  set (x := (Some d, []) : cell).
  assert ((h ++ [x]) !! length h = Some x) as Hnew by by apply list_lookup_middle.
  destruct open as [|[[r d'] ts] below]; simpl in *.
  - destruct Hchain as (cs & Hroot & Hkids).
    pose proof (lookup_lt_Some _ _ _ Hroot) as Hlt. unfold cell in *.
    split; [lia|]. exists []. split; [|split; [constructor|]].
    + etrans; [apply list_lookup_alter_ne; lia|done].
    + exists cs. split.
      * etrans; [apply list_lookup_alter_eq|].
        rewrite (lookup_app_l_Some _ _ _ _ Hroot). simpl. by rewrite app_nil_r.
      * apply stored_alter; [|lia]. by apply stored_grow.
  - destruct Hchain as (Hr & cs & Hcell & Hkids & Hbelow). unfold cell in *.
    split; [lia|]. exists []. split; [|split; [constructor|]].
    + etrans; [apply list_lookup_alter_ne; lia|done].
    + split; [lia|]. exists cs. split; [|split].
      * etrans; [apply list_lookup_alter_eq|].
        rewrite (lookup_app_l_Some _ _ _ _ Hcell). simpl. by rewrite app_nil_r.
      * apply stored_alter; [|lia]. by apply stored_grow.
      * apply chain_frame; [lia|done].
Qed.

Lemma build_tree_step_inv (st st' : BuildTree.state) (item : toc_item)
    (z : list frame * list tree) :
  build_inv st z -> BuildTree.step st item = inr st' ->
  exists z', build_inv st' z'
    /\ zipper_listing z'
       = zipper_listing z ++ (if ti_level item =? 0 then [] else [item_node item])
    /\ (length z'.1, zipper_depth z')
       = tree_track (length z.1, zipper_depth z) (ti_level item).
Proof.
  intros [Hchain Hstack]. unfold BuildTree.step, tree_track.
  destruct (Z.eqb_spec (ti_level item) 0) as [Hz|Hnz].
  { intros [= <-]. exists z. by rewrite app_nil_r. }
  destruct (Z.lt_ge_cases (ti_level item) 0) as [Hneg|Hlevel].
  { by rewrite build_tree_pop_negative. }
  rewrite build_tree_pops_by_depth by done. simpl.
  set (k := (length (BuildTree.st_stack st) - Z.to_nat (ti_level item))%nat).
  assert (k <= length z.1)%nat as Hk.
  { unfold k. rewrite Hstack. unfold frame_refs. rewrite length_app, length_map. simpl. lia. }
  rewrite Hstack, <- (close_n_refs k z Hk).
  pose proof (chain_close_n _ k z Hchain) as Hclosed.
  pose proof (close_n_listing k z) as Hlist.
  pose proof (close_n_length k z) as Hlen_k.
  pose proof (close_n_depth k z) as Hdep_k.
  destruct (close_n k z) as [open rootkids]. simpl in *.
  pose proof (chain_push _ open rootkids (item_node item) Hclosed) as Hpush.
  destruct (frame_refs open) as [|top below] eqn:Hrefs.
  { unfold frame_refs in Hrefs. by destruct (map _ open). }
  intros [= <-].
  exists ((length (BuildTree.st_heap st), item_node item, []) :: open, rootkids).
  split; [split|]; cbn [fst snd BuildTree.st_heap BuildTree.st_stack].
  - match goal with
    | |- chain _ ?n _ _ _ => replace n with (S (length (BuildTree.st_heap st)))
    end; [exact Hpush|].
    symmetry. unfold append_child. etrans; [apply length_alter|].
    etrans; [apply length_app|]. simpl. lia.
  - unfold frame_refs in *. simpl. by rewrite Hrefs.
  - split.
    + rewrite <- Hlist. unfold zipper_listing. cbn [fst snd rev].
      rewrite map_app, concat_app. simpl. by rewrite app_assoc.
    + assert (length (BuildTree.st_stack st) = S (length z.1)) as Hlen_s.
      { rewrite Hstack. unfold frame_refs. rewrite length_app, length_map. simpl. lia. }
      rewrite push_depth by done. rewrite Hdep_k. simpl length. rewrite Hlen_k.
      unfold k. rewrite Hlen_s. f_equal; lia.
Qed.

Lemma build_tree_loop_inv (items : list toc_item) :
  forall (st st' : BuildTree.state) (z : list frame * list tree),
    build_inv st z -> BuildTree.loop st items = inr st' ->
    exists z', build_inv st' z'
      /\ zipper_listing z'
         = zipper_listing z
           ++ map item_node (List.filter (fun item => negb (ti_level item =? 0)) items)
      /\ (length z'.1, zipper_depth z')
         = fold_left tree_track (map ti_level items) (length z.1, zipper_depth z).
Proof.
  induction items as [|item rest IH]; intros st st' z Hinv; simpl.
  - intros [= <-]. exists z. by rewrite app_nil_r.
  - destruct (BuildTree.step st item) as [e|st1] eqn:Hstep; simpl; [done|].
    intros Hloop.
    destruct (build_tree_step_inv _ _ _ _ Hinv Hstep) as (z1 & Hinv1 & Hlist1 & Htrack1).
    destruct (IH _ _ _ Hinv1 Hloop) as (z' & Hinv' & Hlist' & Htrack').
    exists z'. split; [done|]. split.
    + rewrite Hlist', Hlist1, <- app_assoc. by destruct (ti_level item =? 0).
    + by rewrite Htrack', Htrack1.
Qed.

Lemma build_inv_forest (st : BuildTree.state) (z : list frame * list tree) :
  build_inv st z ->
  close_n (length z.1) z = ([], BuildTree.result st).
Proof.
  intros [Hchain Hstack].
  pose proof (chain_close_n _ (length z.1) z Hchain) as Hclosed.
  pose proof (close_n_refs (length z.1) z (le_n _)) as Hrefs.
  destruct (close_n (length z.1) z) as [open rootkids]. simpl in *.
  assert (open = []) as ->.
  { apply (f_equal length) in Hrefs. unfold frame_refs in Hrefs.
    rewrite length_drop, !length_app, !length_map in Hrefs. simpl in Hrefs.
    destruct open; [done|]. simpl in Hrefs. lia. }
  destruct Hclosed as (cs & Hroot & Hkids). rewrite app_nil_r in Hroot.
  unfold BuildTree.result. rewrite Hroot. f_equal. symmetry.
  eapply stored_reify; [done|]. lia.
Qed.

Lemma build_inv_depth (st : BuildTree.state) (z : list frame * list tree) :
  build_inv st z -> calc_max_depth (BuildTree.result st) = zipper_depth z.
Proof.
  intros Hinv. rewrite <- (close_n_depth (length z.1) z), (build_inv_forest _ _ Hinv).
  unfold zipper_depth. simpl. lia.
Qed.

Lemma build_inv_result (st : BuildTree.state) (z : list frame * list tree) :
  build_inv st z -> forest_preorder (BuildTree.result st) = zipper_listing z.
Proof.
  intros [Hchain Hstack].
  pose proof (chain_close_n _ (length z.1) z Hchain) as Hclosed.
  pose proof (close_n_refs (length z.1) z (le_n _)) as Hrefs.
  rewrite <- (close_n_listing (length z.1) z).
  destruct (close_n (length z.1) z) as [open rootkids]. simpl in *.
  assert (open = []) as ->.
  { apply (f_equal length) in Hrefs. unfold frame_refs in Hrefs.
    rewrite length_drop, !length_app, !length_map in Hrefs. simpl in Hrefs.
    destruct open; [done|]. simpl in Hrefs. lia. }
  destruct Hclosed as (cs & Hroot & Hkids). rewrite app_nil_r in Hroot.
  unfold BuildTree.result. rewrite Hroot.
  unfold zipper_listing. simpl. rewrite app_nil_r. f_equal.
  eapply stored_reify; [done|]. lia.
Qed.

End Store.

Lemma build_tree_preorder (items : list toc_item) (forest : list tree) :
  build_tree items = inr forest ->
  forest_preorder forest
  = map item_node (List.filter (fun item => negb (ti_level item =? 0)) items).
Proof.
  unfold build_tree.
  destruct (BuildTree.loop BuildTree.init items) as [e|st] eqn:Hloop; simpl; [done|].
  intros [= <-].
  assert (build_inv BuildTree.init ([], [])) as Hinit.
  { split; [|done]. exists []. split; [done|constructor]. }
  destruct (build_tree_loop_inv _ _ _ _ Hinit Hloop) as (z' & Hinv & Hlist & _).
  by rewrite (build_inv_result _ _ Hinv), Hlist.
Qed.

(** [build_tree] loses no heading and keeps the order of discovery: read
    depth first, every node before its children, the forest lists the
    records of non-zero level as they come in [items], each with its level,
    its text and its [file#anchor] target. *)
Theorem build_tree_keeps_document_order (items : list toc_item) (forest : list tree) :
  build_tree items = inr forest ->
  forest_preorder forest
  = map item_node (List.filter (fun item => negb (ti_level item =? 0)) items).
Proof. apply build_tree_preorder. Qed.

Lemma build_tree_keeps_document_order_witness :
  build_tree [toc_root_item; entry 1 "One" "a.xhtml" "1"; entry 2 "Two" "a.xhtml" "1-1"]
  = inr [TNode 1 "One" "a.xhtml#1" [TNode 2 "Two" "a.xhtml#1-1" []]]
  /\ forest_preorder [TNode 1 "One" "a.xhtml#1" [TNode 2 "Two" "a.xhtml#1-1" []]]
     = map item_node
         (List.filter (fun item => negb (ti_level item =? 0))
            [toc_root_item; entry 1 "One" "a.xhtml" "1"; entry 2 "Two" "a.xhtml" "1-1"]).
Proof.
  split; [reflexivity|].
  apply (build_tree_keeps_document_order
           [toc_root_item; entry 1 "One" "a.xhtml" "1"; entry 2 "Two" "a.xhtml" "1-1"]).
  reflexivity.
Defined.

(** ** The numbering pass: what is counted *)

Section Accounting.
Context `{PyLib}.
Local Open Scope list_scope.

Lemma level1_assign_dead_counters (ctx ctx' : TOCContext)
    (locals : option string * option string) (item : raw_item) (d a : string) :
  level1_assign ctx locals item = inr (ctx', d, a) ->
  frontmatter_counter ctx' = frontmatter_counter ctx
  /\ backmatter_counter ctx' = backmatter_counter ctx.
Proof.
  unfold level1_assign.
  destruct (extract_clean_text_and_number _ _) as [e|[raw_num clean_text]]; simpl; [done|].
  repeat match goal with
  | |- context [if ?b then _ else _] => destruct b
  end;
  repeat match goal with
  | |- context [appendix_letter ?n] => destruct (appendix_letter n); simpl
  end;
  repeat match goal with
  | |- context [format_template ?t ?n ?x ?r] => destruct (format_template t n x r); simpl
  end;
  try done; try (by intros [= <- _ _]).
  destruct locals as [[?|] [?|]]; simpl; try done; by intros [= <- _ _].
Qed.

(** One turn of the loop either drops the record or appends one entry and
    one stamp for it. *)
Lemma number_item_effect (st st' : nstate) (idx : nat) (item : raw_item) :
  number_item st idx item = inr st' ->
  (frontmatter_counter (ns_ctx st') = frontmatter_counter (ns_ctx st)
   /\ backmatter_counter (ns_ctx st') = backmatter_counter (ns_ctx st))
  /\ ((i_level item <> 1 /\ find_parent (ns_items st) idx = None /\ st' = st)
      \/ ((i_level item = 1 \/ is_Some (find_parent (ns_items st) idx))
          /\ exists display_text anchor_id,
              ns_items st' = <[idx := set_numbering item display_text anchor_id]> (ns_items st)
              /\ ns_toc_items st'
                 = ns_toc_items st
                   ++ [{| ti_level := i_level item; ti_text := display_text;
                          ti_file := i_file_name item; ti_anchor := anchor_id |}]
              /\ ns_stamps st' = ns_stamps st ++ [(i_elem item, anchor_id)]
              /\ ns_occurrences st' = S (ns_occurrences st))).
Proof.
  unfold number_item.
  destruct (Z.eqb_spec (i_level item) 1) as [Hl|Hl].
  - destruct (level1_assign _ _ _) as [e|[[ctx' d] a]] eqn:Hassign; simpl; [done|].
    intros [= <-]. simpl. split; [by eapply level1_assign_dead_counters|].
    right. split; [by left|]. exists d, a. by rewrite Hl.
  - destruct (find_parent (ns_items st) idx) as [parent|] eqn:Hparent.
    + destruct (i_anchor_id parent) as [base_id|]; simpl; [|done].
      rewrite section_assign_counters. cbv zeta.
      intros [= <-]. simpl. split; [done|].
      right. split; [by right|]. by eexists _, _.
    + intros [= <-]. split; [done|]. by left.
Qed.

Lemma numbered_from_insert (now before : list raw_item) (idx : nat) (item : raw_item)
    (d a : string) :
  Forall2 numbered_from now before -> now !! idx = Some item ->
  Forall2 numbered_from (<[idx := set_numbering item d a]> now) before.
Proof.
  intros Hall Hidx.
  destruct (Forall2_lookup_l _ _ _ _ _ Hall Hidx) as (b & Hb & Hrel).
  rewrite <- (list_insert_id before idx b Hb).
  apply Forall2_insert; [done|]. right.
  destruct Hrel as [->|(d' & a' & ->)]; by eexists _, _.
Qed.

Lemma number_from_accounted (all_raw_items : list raw_item) (n0 : nat) (n : nat) :
  forall (st : nstate) (idx : nat),
    accounted all_raw_items n0 st ->
    accounted all_raw_items n0 (number_from st idx n).1.
Proof.
  induction n as [|n IH]; intros st idx Hacc; simpl; [done|].
  destruct (ns_items st !! idx) as [item|] eqn:Hidx; [|done].
  destruct (number_item st idx item) as [e|st'] eqn:Hstep; [done|].
  apply IH.
  destruct Hacc as (Hitems & Hocc & Htoc & Hfront & Hback).
  destruct (number_item_effect _ _ _ _ Hstep) as ([Hf Hb] & [(_ & _ & ->)|(_ & d & a & Hi & Ht & Hs & Ho)]).
  { done. }
  unfold accounted. rewrite Hi, Ht, Hs, Ho, Hf, Hb, !map_app, !length_app, Htoc, Hocc.
  simpl. split; [by apply numbered_from_insert|]. split; [lia|]. done.
Qed.

Lemma find_parent_same_levels (a b : list raw_item) (idx : nat) :
  i_level <$> a = i_level <$> b ->
  is_Some (find_parent a idx) <-> is_Some (find_parent b idx).
Proof.
  intros Hlev.
  assert (forall j, i_level <$> (a !! j) = i_level <$> (b !! j)) as Hj.
  { intros j. by rewrite <- !list_lookup_fmap, Hlev. }
  induction idx as [|j IH]; simpl; [done|].
  specialize (Hj j).
  destruct (a !! j) as [x|], (b !! j) as [y|]; simpl in Hj; try done.
  injection Hj as Hxy. rewrite Hxy.
  destruct (i_level y =? 1); [|done]. split; by eexists.
Qed.

Lemma number_from_kept (n : nat) :
  forall (st st' : nstate) (idx : nat),
    (idx + n)%nat = length (ns_items st) ->
    number_from st idx n = (st', None) ->
    let kept := headings_kept (seen_one (ns_items st) idx) (drop idx (ns_items st)) in
    map (fun t => (ti_level t, ti_file t)) (ns_toc_items st')
    = map (fun t => (ti_level t, ti_file t)) (ns_toc_items st)
      ++ map (fun item => (i_level item, i_file_name item)) kept
    /\ map fst (ns_stamps st') = map fst (ns_stamps st) ++ map i_elem kept.
Proof.
  induction n as [|n IH]; intros st st' idx Hlen; simpl.
  - intros [= <-]. rewrite drop_ge by lia. simpl. by rewrite !app_nil_r.
  - destruct (ns_items st !! idx) as [item|] eqn:Hidx.
    2:{ apply lookup_ge_None in Hidx. lia. }
    destruct (number_item st idx item) as [e|st1] eqn:Hstep; [done|].
    intros Hrest.
    rewrite (drop_S _ _ _ Hidx). simpl.
    destruct (number_item_effect _ _ _ _ Hstep)
      as (_ & [(Hl & Hnone & ->)|(Hkept & d & a & Hi & Ht & Hs & Ho)]).
    + assert (seen_one (ns_items st) (S idx) = false) as Hseen'.
      { unfold seen_one. simpl. rewrite Hidx.
        destruct (Z.eqb_spec (i_level item) 1); [done|]. by rewrite Hnone. }
      specialize (IH st st' (S idx) ltac:(lia) Hrest). cbv zeta in IH.
      rewrite Hseen' in IH.
      unfold seen_one. rewrite Hnone.
      destruct (Z.eqb_spec (i_level item) 1); [done|]. simpl. exact IH.
    + assert (length (ns_items st1) = length (ns_items st)) as Hlen1.
      { by rewrite Hi, length_insert. }
      assert (seen_one (ns_items st1) (S idx) = true) as Hseen'.
      { unfold seen_one. simpl. rewrite Hi.
        rewrite list_lookup_insert_eq by (by eapply lookup_lt_Some). simpl.
        destruct (Z.eqb_spec (i_level item) 1) as [|Hne]; [done|].
        destruct Hkept as [|Hsome]; [done|].
        assert (is_Some (find_parent (<[idx:=set_numbering item d a]> (ns_items st)) idx))
          as [p ->]; [|done].
        eapply find_parent_same_levels; [|exact Hsome].
        rewrite list_fmap_insert. simpl. apply list_insert_id.
        by rewrite list_lookup_fmap, Hidx. }
      specialize (IH st1 st' (S idx) ltac:(lia) Hrest). cbv zeta in IH.
      rewrite Hseen' in IH.
      assert (drop (S idx) (ns_items st1) = drop (S idx) (ns_items st)) as Hdrop.
      { rewrite Hi. apply drop_insert_lt. lia. }
      rewrite Hdrop, Ht, Hs, !map_app in IH. simpl in IH.
      rewrite <- !app_assoc in IH. simpl in IH.
      assert ((i_level item =? 1) || seen_one (ns_items st) idx = true) as ->.
      { unfold seen_one. destruct Hkept as [->|[p ->]]; [done|]. by rewrite orb_true_r. }
      exact IH.
Qed.

End Accounting.

(** The count the run hands back is the number of ids it stamped: each
    turn of the numbering loop that counts appends one entry to the table
    of contents and stamps its anchor on the element, the records keep
    every key but the two the pass adds, and the counters of the
    frontmatter and backmatter zones are never used. When the pass ends
    without an exception, the records it numbered are those of level 1 and
    those that follow a record of level 1, in the order of discovery, each
    with its own level and file; the records before the first one of
    level 1 get neither an anchor nor an entry. *)
Theorem numbering_accounts `{PyLib} (all_raw_items : list raw_item) (n0 : nat) :
  let st := (number_all all_raw_items n0).1 in
  let kept := headings_kept false all_raw_items in
  Forall2 numbered_from (ns_items st) all_raw_items
  /\ ns_occurrences st = (n0 + length (ns_stamps st))%nat
  /\ map ti_anchor (ns_toc_items st) = ("toc" :: map snd (ns_stamps st))%list
  /\ frontmatter_counter (ns_ctx st) = 0%nat
  /\ backmatter_counter (ns_ctx st) = 0%nat
  /\ ((number_all all_raw_items n0).2 = None ->
      map (fun t => (ti_level t, ti_file t)) (ns_toc_items st)
      = ((0, "toc.html") :: map (fun item => (i_level item, i_file_name item)) kept)%list
      /\ map fst (ns_stamps st) = map i_elem kept).
Proof.
  cbv zeta. unfold number_all.
  pose proof (number_from_accounted all_raw_items n0 (length all_raw_items)
                (numbering_init all_raw_items n0) 0) as Hacc.
  destruct Hacc as (Hitems & Hocc & Htoc & Hfront & Hback).
  { unfold accounted. simpl. split; [|split; [lia|done]].
    apply Forall2_same_length_lookup_2; [done|]. intros i x y Hx Hy. left. congruence. }
  split; [done|]. split; [done|]. split; [done|]. split; [done|]. split; [done|].
  destruct (number_from _ _ _) as [st err] eqn:Hrun. simpl. intros ->.
  exact (number_from_kept (length all_raw_items) (numbering_init all_raw_items n0) st 0
           eq_refl Hrun).
Qed.

(** ** The collecting loop: a document listed twice *)

Section PrefsMore.
Context {A : Type} `{Countable A}.
Local Open Scope list_scope.

Lemma remove_dupes_loop_snoc (values : list A) (x : A) :
  forall (output : list A) (seen : gset A),
    (forall y, y ∈ seen <-> y ∈ output) ->
    remove_dupes_loop (values ++ [x]) output seen
    = if decide (x ∈ remove_dupes_loop values output seen)
      then remove_dupes_loop values output seen
      else remove_dupes_loop values output seen ++ [x].
Proof.
  induction values as [|v rest IH]; intros output seen Hseen; simpl.
  - destruct (decide (x ∈ seen)) as [Hin|Hnin], (decide (x ∈ output)) as [Hin'|Hnin'];
      try done; exfalso; by apply Hseen in Hin || apply Hseen in Hin'.
  - destruct (decide (v ∈ seen)); [by apply IH|]. apply IH.
    intros y. rewrite elem_of_union, elem_of_app, Hseen. set_solver.
Qed.

Lemma remove_dupes_snoc (values : list A) (x : A) :
  remove_dupes (values ++ [x])
  = if decide (x ∈ values) then remove_dupes values else remove_dupes values ++ [x].
Proof.
  unfold remove_dupes. rewrite remove_dupes_loop_snoc by set_solver.
  fold (remove_dupes values).
  destruct (remove_dupes_loop_spec values [] ∅) as (_ & Hmem & _); [constructor|set_solver|].
  fold (remove_dupes values) in Hmem.
  destruct (decide (x ∈ remove_dupes values)) as [Hin|Hnin], (decide (x ∈ values)) as [Hin'|Hnin'];
    try done; exfalso.
  - apply Hmem in Hin as [Hin|Hin]; [by apply elem_of_nil in Hin|done].
  - apply Hnin, Hmem. by right.
Qed.

End PrefsMore.

Section ScanLemmas.
Context `{PyLib}.
Local Open Scope list_scope.

Lemma dict_set_keys {V} (d : list (string * V)) (key : string) (v : V) :
  map fst (dict_set d key v)
  = if decide (key ∈ map fst d) then map fst d else map fst d ++ [key].
Proof.
  induction d as [|[k' v'] rest IH]; simpl.
  - destruct (decide (key ∈ [])) as [Hin|]; [by apply elem_of_nil in Hin|done].
  - destruct (String.eqb_spec k' key) as [->|Hne]; simpl.
    + destruct (decide (key ∈ key :: map fst rest)) as [|Hn]; [done|].
      exfalso. apply Hn. by left.
    + rewrite IH.
      destruct (decide (key ∈ map fst rest)) as [Hin|Hnin],
               (decide (key ∈ k' :: map fst rest)) as [Hin'|Hnin']; try done; exfalso.
      * apply Hnin'. by right.
      * apply elem_of_cons in Hin' as [->|Hin']; done.
Qed.

Lemma dict_set_Forall {V} (P Q : string * V -> Prop) (d : list (string * V))
    (key : string) (v : V) :
  NoDup (map fst d) -> Forall P d -> Q (key, v) ->
  (forall e, e.1 <> key -> P e -> Q e) ->
  Forall Q (dict_set d key v).
Proof.
  intros Hnd Hall Hnew Hold. induction d as [|[k' v'] rest IH]; simpl.
  - by constructor.
  - inversion Hall as [|? ? Hhead Hrest]; subst.
    simpl in Hnd. apply list.NoDup_cons in Hnd as [Hnotin Hnd].
    destruct (String.eqb_spec k' key) as [->|Hne].
    + constructor; [done|].
      apply Forall_forall. intros e He. apply Hold.
      * intros <-. apply Hnotin. apply list_elem_of_In, in_map. exact He.
      * rewrite Forall_forall in Hrest. by apply Hrest.
    + constructor; [by apply Hold|]. by apply IH.
Qed.

Lemma remove_dupes_NoDup (l : list string) : NoDup (remove_dupes l).
Proof.
  by destruct (remove_dupes_loop_spec l [] ∅) as (? & _); [constructor|set_solver|].
Qed.

Lemma scan_files_inv (b : book) (crs : list crule) (tgs : list string)
    (rest : list string) :
  forall (done : list string) (acc : list raw_item * list (string * (nat * list node))),
    map fst acc.2 = remove_dupes done ->
    Forall (last_reading b done) acc.2 ->
    acc.1 = concat (imap (reading b crs tgs) done) ->
    match scan_files b crs tgs (length done) rest acc with
    | inl e => e = IOError /\ exists fname, fname ∈ rest /\ bk_readfile b fname = None
    | inr result =>
        map fst result.2 = remove_dupes (done ++ rest)
        /\ Forall (last_reading b (done ++ rest)) result.2
        /\ result.1 = concat (imap (reading b crs tgs) (done ++ rest))
    end.
Proof.
  induction rest as [|fname rest IH]; intros done acc Hkeys Hlast Hitems; simpl.
  - by rewrite app_nil_r.
  - destruct (bk_readfile b fname) as [soup|] eqn:Hread.
    2:{ split; [done|]. exists fname. split; [by left|done]. }
    assert (NoDup (map fst acc.2)) as Hnd by (rewrite Hkeys; apply remove_dupes_NoDup).
    assert ((done ++ [fname]) !! length done = Some fname) as Hhere
      by by apply list_lookup_middle.
    set (acc' := (acc.1 ++ scan_elems crs (bk_id_to_href b fname) (length done) 0
                             (find_all tgs soup),
                  dict_set acc.2 fname (length done, soup))).
    assert (map fst acc'.2 = remove_dupes (done ++ [fname])) as Hkeys'.
    { unfold acc'. simpl. rewrite dict_set_keys, remove_dupes_snoc, Hkeys.
      destruct (remove_dupes_loop_spec done [] ∅) as (_ & Hmem & _);
        [constructor|set_solver|]. fold (remove_dupes done) in Hmem.
      destruct (decide (fname ∈ remove_dupes done)) as [Hin|Hnin],
               (decide (fname ∈ done)) as [Hin'|Hnin']; try done; exfalso.
      - apply Hmem in Hin as [Hin|Hin]; [by apply elem_of_nil in Hin|done].
      - apply Hnin, Hmem. by right. }
    assert (Forall (last_reading b (done ++ [fname])) acc'.2) as Hlast'.
    { unfold acc'. simpl.
      apply (dict_set_Forall (last_reading b done)); [done|done| |].
      - split; [done|]. split; [done|]. intros later Hlater.
        rewrite lookup_ge_None_2; [done|]. rewrite length_app. simpl in *. lia.
      - intros e Hne (Hpos & Hsoup & Hlater). split; [by apply lookup_app_l_Some|].
        split; [done|]. intros later Hgt.
        destruct (decide (later < length done)%nat) as [Hlt|Hge].
        + rewrite lookup_app_l by done. by apply Hlater.
        + destruct (decide (later = length done)) as [->|Hne'].
          * rewrite Hhere. congruence.
          * rewrite lookup_ge_None_2; [done|]. rewrite length_app. simpl. lia. }
    assert (acc'.1 = concat (imap (reading b crs tgs) (done ++ [fname]))) as Hitems'.
    { unfold acc'. simpl. rewrite imap_app, concat_app, <- Hitems. simpl.
      unfold reading. rewrite Nat.add_0_r, Hread, app_nil_r. done. }
    specialize (IH (done ++ [fname]) acc' Hkeys' Hlast' Hitems').
    rewrite length_app in IH. simpl in IH.
    replace (length done + 1)%nat with (S (length done)) in IH by lia.
    rewrite <- !app_assoc in IH. simpl in IH.
    fold acc'.
    destruct (scan_files _ _ _ _ _ _) as [e|result]; [|done].
    destruct IH as (-> & f & Hf & Hnone). split; [done|]. exists f. split; [by right|done].
Qed.

End ScanLemmas.

(** A document the spine lists twice is read twice and its headings are
    collected twice, but [file_soups] keeps one entry for it, that of its
    last reading: the documents to write are the spine documents without
    repetition, in the order of their first places, each with the soup and
    the position of its last reading, so the ids stamped on the elements of
    an earlier reading are not in what is written. The loop fails only
    where a document cannot be read. *)
Theorem scan_files_last_reading `{PyLib} (b : book) (crs : list crule)
    (tgs : list string) (files : list string) :
  match scan_files b crs tgs 0 files ([], []) with
  | inl e => e = IOError /\ exists fname, fname ∈ files /\ bk_readfile b fname = None
  | inr (all_raw_items, file_soups) =>
      map fst file_soups = remove_dupes files
      /\ Forall (last_reading b files) file_soups
      /\ all_raw_items = concat (imap (reading b crs tgs) files)
  end.
Proof.
  pose proof (scan_files_inv b crs tgs files [] ([], []) eq_refl (Forall_nil _) eq_refl)
    as Hinv.
  simpl in Hinv. destruct (scan_files _ _ _ _ _ _) as [e|[items soups]]; done.
Qed.

(** ** A pattern that does not compile *)

Lemma compile_rules_bad_pattern `{PyLib} (rs : list rule) (r : rule) :
  r ∈ rs ->
  re_compile (default ".*" (r_text_pattern r)) (r_case_insensitive r) = None ->
  compile_rules rs = inl ReError.
Proof.
  intros Hin Hbad. induction rs as [|r' rest IH]; [by apply elem_of_nil in Hin|]. simpl.
  destruct (re_compile (default ".*" (r_text_pattern r')) (r_case_insensitive r'))
    as [p|] eqn:Hp; [|done].
  apply elem_of_cons in Hin as [->|Hin]; [congruence|].
  by rewrite (IH Hin).
Qed.

(** A rule whose [text_pattern] does not compile stops the run at its
    first loop, whatever the rule is about: nothing is read, nothing is
    written, and the run hands back the [re.error] with the count it
    started from. *)
Theorem bad_text_pattern_stops_the_run `{PyLib} (self : MarkupParser) (r : rule) :
  r ∈ rules self ->
  re_compile (default ".*" (r_text_pattern r)) (r_case_insensitive r) = None ->
  generate_toc self
  = {| returned := RetPair (Some ReError) (occurrences self); effects := [] |}.
Proof.
  intros Hin Hbad. unfold generate_toc.
  by rewrite (compile_rules_bad_pattern _ _ Hin Hbad).
Qed.

Lemma bad_text_pattern_stops_the_run_witness :
  RunExamples2.broken_rule ∈ rules RunExamples2.with_broken_rule
  /\ @re_compile mini_lib (default ".*" (r_text_pattern RunExamples2.broken_rule))
       (r_case_insensitive RunExamples2.broken_rule) = None
  /\ @generate_toc mini_lib RunExamples2.with_broken_rule
     = {| returned := RetPair (Some ReError) 0; effects := [] |}.
Proof.
  assert (RunExamples2.broken_rule ∈ rules RunExamples2.with_broken_rule) as Hin.
  { apply elem_of_cons. right. apply elem_of_cons. by left. }
  split; [exact Hin|]. split; [reflexivity|].
  apply (bad_text_pattern_stops_the_run (H := mini_lib) RunExamples2.with_broken_rule
           RunExamples2.broken_rule Hin eq_refl).
Defined.

(** ** The order of the calls on the host *)

Ltac order_done :=
  simpl; repeat split; try done; try lia; try (intros Hempty; by destruct Hempty).

Section CallOrder.
Context `{PyLib}.
Local Open Scope list_scope.

Lemma integrate_effects (self : MarkupParser) (manifest : list (option string * option string))
    (spine : list (option string)) (title : string) (toc : list tree)
    (style_cls : list (string * string)) (n : nat) (log : list effect) :
  exists page spine_entry,
    effects (integrate self manifest spine (PHtmlToc title toc style_cls) n log)
    = log ++ page ++ spine_entry
    /\ forallb writes_toc_page page = true /\ (length page <= 1)%nat
    /\ forallb inserts_in_spine spine_entry = true /\ (length spine_entry <= 1)%nat
    /\ (spine_entry <> [] -> page <> []).
Proof.
  unfold integrate.
  set (toc_item := List.find _ manifest).
  set (toc_id := match toc_item with Some (Some i, _) => _ | _ => _ end).
  set (upsert := match toc_item with Some _ => _ | None => _ end).
  assert (writes_toc_page upsert = true) as Hupsert by (unfold upsert; by destruct toc_item).
  destruct (perform (bk self) log upsert) as [log1 [e|]] eqn:Hp.
  - apply perform_log in Hp as [(-> & _ & _)|(_ & ? & _)]; [|done].
    exists [], []. rewrite app_nil_r. order_done.
  - apply perform_log in Hp as [(_ & ? & _)|(-> & _ & _)]; [done|].
    destruct (existsb _ spine).
    + exists [upsert], []. simpl. rewrite Hupsert.
      destruct (_ && _); order_done.
    + destruct (perform (bk self) (log ++ [upsert]) (SpineInsertBefore 1 toc_id))
        as [log2 [e|]] eqn:Hp2.
      * apply perform_log in Hp2 as [(-> & _ & _)|(_ & ? & _)]; [|done].
        exists [upsert], []. simpl. rewrite Hupsert. order_done.
      * apply perform_log in Hp2 as [(_ & ? & _)|(-> & _ & _)]; [done|].
        exists [upsert], [SpineInsertBefore 1 toc_id]. simpl. rewrite Hupsert.
        rewrite <- app_assoc.
        destruct (_ && _); order_done.
Qed.

Lemma emit_effects (self : MarkupParser) (root : opf) (title uid : string)
    (st : nstate) (file_soups : list (string * (nat * list node))) :
  exists content ncx page spine_entry : list effect,
    effects (emit self root title uid st file_soups) = content ++ ncx ++ page ++ spine_entry
    /\ forallb rewrites_content content = true
    /\ forallb writes_ncx ncx = true /\ (length ncx <= 1)%nat
    /\ forallb writes_toc_page page = true /\ (length page <= 1)%nat
    /\ forallb inserts_in_spine spine_entry = true /\ (length spine_entry <= 1)%nat
    /\ (page <> [] -> ncx <> [])
    /\ (spine_entry <> [] -> page <> []).
Proof.
  unfold emit.
  destruct (write_soups _ _ _ _) as [log err] eqn:Hw.
  apply write_soups_log in Hw as (written & -> & Hwritten & _). simpl.
  assert (exists content ncx page spine_entry : list effect,
    written = content ++ ncx ++ page ++ spine_entry
    /\ forallb rewrites_content content = true
    /\ forallb writes_ncx ncx = true /\ (length ncx <= 1)%nat
    /\ forallb writes_toc_page page = true /\ (length page <= 1)%nat
    /\ forallb inserts_in_spine spine_entry = true /\ (length spine_entry <= 1)%nat
    /\ (page <> [] -> ncx <> [])
    /\ (spine_entry <> [] -> page <> [])) as Hstop.
  { exists written, [], [], []. rewrite !app_nil_r. simpl. order_done. }
  destruct err as [e|]; [done|].
  destruct (build_tree _) as [e|toc_tree]; [done|].
  destruct (build_navpoints _) as [e|navpoints]; [done|].
  clear Hstop.
  set (ncx := PNcx _ _ _ _).
  assert (writes_ncx (ncx_upsert (bk self) ncx) = true) as Hncx.
  { unfold ncx_upsert. by destruct (bk_toc_ncx_id (bk self)). }
  destruct (perform _ written _) as [log1 [e|]] eqn:Hp.
  - apply perform_log in Hp as [(-> & _ & _)|(_ & ? & _)]; [|done].
    exists written, [], [], []. rewrite !app_nil_r. simpl. order_done.
  - apply perform_log in Hp as [(_ & ? & _)|(-> & _ & _)]; [done|].
    assert (exists content ncx0 page spine_entry : list effect,
      written ++ [ncx_upsert (bk self) ncx] = content ++ ncx0 ++ page ++ spine_entry
      /\ forallb rewrites_content content = true
      /\ forallb writes_ncx ncx0 = true /\ (length ncx0 <= 1)%nat
      /\ forallb writes_toc_page page = true /\ (length page <= 1)%nat
      /\ forallb inserts_in_spine spine_entry = true /\ (length spine_entry <= 1)%nat
      /\ (page <> [] -> ncx0 <> [])
      /\ (spine_entry <> [] -> page <> [])) as Hstop.
    { exists written, [ncx_upsert (bk self) ncx], [], []. simpl. rewrite Hncx. order_done. }
    destruct (opf_manifest root) as [manifest|]; [|done].
    destruct (opf_spine root) as [spine|]; [|done].
    clear Hstop.
    destruct (integrate_effects self manifest spine title toc_tree
                (style_cls_of (style self)) (ns_occurrences st)
                (written ++ [ncx_upsert (bk self) ncx]))
      as (page & spine_entry & -> & Hpage & Hpl & Hspine & Hsl & Hord).
    exists written, [ncx_upsert (bk self) ncx], page, spine_entry.
    rewrite <- !app_assoc. simpl. rewrite Hncx. order_done.
Qed.

End CallOrder.

(** Whatever the package and the rules, the calls the run makes on the
    host come in this order: the rewrites of the content documents, then
    at most one call for the navigation document, then at most one for the
    HTML page of the table of contents, then at most one insertion into
    the spine (at position 1); the page is not written before the
    navigation document, nor the spine entry made before the page. *)
Theorem host_calls_in_order `{PyLib} (self : MarkupParser) :
  exists content ncx page spine_entry : list effect,
    effects (generate_toc self) = (content ++ ncx ++ page ++ spine_entry)%list
    /\ forallb rewrites_content content = true
    /\ forallb writes_ncx ncx = true /\ (length ncx <= 1)%nat
    /\ forallb writes_toc_page page = true /\ (length page <= 1)%nat
    /\ forallb inserts_in_spine spine_entry = true /\ (length spine_entry <= 1)%nat
    /\ (page <> [] -> ncx <> [])
    /\ (spine_entry <> [] -> page <> []).
Proof.
  assert (exists content ncx page spine_entry : list effect,
    [] = (content ++ ncx ++ page ++ spine_entry)%list
    /\ forallb rewrites_content content = true
    /\ forallb writes_ncx ncx = true /\ (length ncx <= 1)%nat
    /\ forallb writes_toc_page page = true /\ (length page <= 1)%nat
    /\ forallb inserts_in_spine spine_entry = true /\ (length spine_entry <= 1)%nat
    /\ (page <> [] -> ncx <> [])
    /\ (spine_entry <> [] -> page <> [])) as Hnone.
  { exists [], [], [], []. simpl. order_done. }
  unfold generate_toc.
  destruct (compile_rules _) as [e|crs]; [done|].
  destruct (spine_files _) as [|f files]; [done|].
  destruct (bk_get_opf _) as [root|]; [|done].
  destruct (get_title_and_uid root) as [title uid].
  destruct (scan_files _ _ _ _ _ _) as [e|[items soups]]; [done|].
  destruct items as [|it items]; [done|].
  destruct (number_all _ _) as [st [e|]]; [done|].
  apply emit_effects.
Qed.

(** ** Success and the closing report *)

Lemma getRules_ok_complete (rs : list rule) (level : Z) :
  getRules_ok rs level = true ->
  Forall (fun rl => r_level rl = level -> complete_rule rl) rs.
Proof.
  unfold getRules_ok. intros Hok. apply Forall_forall. intros rl Hin Hlevel.
  rewrite forallb_forall in Hok. specialize (Hok rl Hin).
  destruct (Z.eqb_spec (r_level rl) level); [|done]. simpl in Hok.
  repeat (apply andb_prop in Hok as [Hok ?]).
  unfold complete_rule. repeat split; by eapply bool_decide_eq_true_1.
Qed.

(** The run reports success after writing only if every rule of level 1,
    2 or 3 has the four keys the closing report reads ([parent_attrs],
    [child_attrs], [child_element], [text_pattern]); a rule that lacks one
    turns the run into an error when everything has been written. *)
Theorem success_needs_complete_rules `{PyLib} (self : MarkupParser) (n : nat) :
  returned (generate_toc self) = RetPair None n ->
  effects (generate_toc self) <> [] ->
  Forall (fun rl => r_level rl = 1 \/ r_level rl = 2 \/ r_level rl = 3 -> complete_rule rl)
    (rules self).
Proof.
  unfold generate_toc.
  destruct (compile_rules _) as [e|crs]; [done|].
  destruct (spine_files _) as [|f files]; [done|].
  destruct (bk_get_opf _) as [root|]; [|done].
  destruct (get_title_and_uid root) as [title uid].
  destruct (scan_files _ _ _ _ _ _) as [e|[items soups]]; [done|].
  destruct items as [|it items]; [done|].
  destruct (number_all _ _) as [st [e|]]; [done|].
  unfold emit.
  destruct (write_soups _ _ _ _) as [log [e|]]; [done|].
  destruct (build_tree _) as [e|toc_tree]; [done|].
  destruct (build_navpoints _) as [e|navpoints]; [done|].
  destruct (perform _ _ _) as [log1 [e|]]; [done|].
  destruct (opf_manifest root) as [manifest|]; [|done].
  destruct (opf_spine root) as [spine|]; [|done].
  unfold integrate.
  destruct (perform _ _ _) as [log2 [e|]]; [done|].
  destruct (if existsb _ spine then _ else _) as [log3 [e|]]; [done|].
  destruct (_ && _) eqn:Hok; [|done].
  intros _ _.
  apply andb_prop in Hok as [[H1 H2]%andb_prop H3].
  apply getRules_ok_complete in H1, H2, H3.
  rewrite Forall_forall in *. intros rl Hin [Hl|[Hl|Hl]]; eauto.
Qed.

Lemma success_needs_complete_rules_witness :
  let self :=
    RunExamples.parser
      (RunExamples.package RunExamples.ch1_spine RunExamples.chapter_doc
         RunExamples.opf_complete) in
  returned (@generate_toc mini_lib self) = RetPair None 1
  /\ effects (@generate_toc mini_lib self) <> []
  /\ Forall (fun rl => r_level rl = 1 \/ r_level rl = 2 \/ r_level rl = 3 -> complete_rule rl)
       (rules self).
Proof.
  cbv zeta.
  assert (effects (@generate_toc mini_lib
            (RunExamples.parser
               (RunExamples.package RunExamples.ch1_spine RunExamples.chapter_doc
                  RunExamples.opf_complete))) <> []) as Heff.
  { vm_compute. discriminate. }
  split; [reflexivity|]. split; [exact Heff|].
  exact (success_needs_complete_rules (H := mini_lib)
           (RunExamples.parser
              (RunExamples.package RunExamples.ch1_spine RunExamples.chapter_doc
                 RunExamples.opf_complete)) 1 eq_refl Heff).
Defined.

(** ** The top of the navigation map *)

Section NavTop.
Local Open Scope list_scope.

Lemma node_at_alter (f : option Z * tnode * list nat -> option Z * tnode * list nat)
    (h : list (option Z * tnode * list nat)) (i r : nat) :
  (forall c, (f c).1.2 = c.1.2) ->
  node_at (alter f i h) r = node_at h r.
Proof.
  intros Hf. unfold node_at. rewrite list_lookup_alter.
  destruct (decide (i = r)) as [->|]; [|done].
  destruct (h !! r) as [c|]; simpl; [|done]. by rewrite Hf.
Qed.

Lemma navpoints_reify_top (fuel : nat) (h : list (option Z * tnode * list nat))
    (refs : list nat) :
  map tree_node (NavPoints.reify (S fuel) h refs) = omap (node_at h) refs.
Proof.
  induction refs as [|r refs IH]; [done|].
  change (NavPoints.reify (S fuel) h (r :: refs))
    with (match h !! r with
          | Some (_, d, cs) =>
              [TNode (n_level d) (n_text d) (n_src d) (NavPoints.reify fuel h cs)]
          | None => []
          end ++ NavPoints.reify (S fuel) h refs).
  rewrite map_app, IH. unfold node_at. simpl.
  destruct (h !! r) as [[[lv [l x s]] cs]|]; done.
Qed.

Lemma navpoints_result_top (st : NavPoints.state) :
  map tree_node (NavPoints.result st)
  = omap (node_at (NavPoints.st_heap st)) (NavPoints.st_navpoints st).
Proof.
  unfold NavPoints.result.
  destruct (NavPoints.st_heap st) as [|c h] eqn:Hh; [|apply navpoints_reify_top].
  simpl. induction (NavPoints.st_navpoints st) as [|r refs IH]; [done|]. done.
Qed.

(** One turn of the loop: the new point goes to the front of [navpoints]
    when its level is 0 or less, to the end when its level is 1, and the
    keys of the stored points stay as they are. *)
Lemma navpoints_step_top (st st' : NavPoints.state) (item : toc_item) :
  NavPoints.step st item = inr st' ->
  let np := length (NavPoints.st_heap st) in
  (forall r, node_at (NavPoints.st_heap st') r
             = if decide (r = np) then Some (item_node item)
               else node_at (NavPoints.st_heap st) r)
  /\ length (NavPoints.st_heap st') = S np
  /\ NavPoints.st_navpoints st'
     = if ti_level item >? 0
       then (if ti_level item =? 1 then NavPoints.st_navpoints st ++ [np]
             else NavPoints.st_navpoints st)
       else np :: NavPoints.st_navpoints st.
Proof.
  unfold NavPoints.step. cbv zeta.
  set (cell0 := (None, {| n_level := ti_level item; n_text := ti_text item;
                          n_src := item_src item |}, []) : option Z * tnode * list nat).
  set (h := NavPoints.st_heap st).
  assert (forall r, node_at (h ++ [cell0]) r
                    = if decide (r = length h) then Some (item_node item) else node_at h r)
    as Hnew.
  { intros r. unfold node_at. destruct (decide (r = length h)) as [->|Hne].
    - by rewrite list_lookup_middle.
    - destruct (decide (r < length h)%nat).
      + by rewrite lookup_app_l.
      + rewrite !lookup_ge_None_2; [done|lia|rewrite length_app; simpl; lia]. }
  assert (length (h ++ [cell0]) = S (length h)) as Hlen
    by (rewrite length_app; simpl; lia).
  destruct (ti_level item >? 0).
  - destruct (NavPoints.pop_while _ _ _) as [e|stack]; simpl; [done|].
    destruct (ti_level item =? 1).
    + intros [= <-]. simpl. split; [|by rewrite length_alter].
      intros r. by rewrite node_at_alter.
    + destruct stack as [|top below]; intros [= <-]; simpl; [done|].
      split; [|by rewrite !length_alter].
      intros r. by rewrite !node_at_alter.
  - intros [= <-]. done.
Qed.

Lemma navpoints_loop_top (items : list toc_item) :
  forall (st st' : NavPoints.state) (front back : list tnode),
    NavPoints.loop st items = inr st' ->
    Forall (fun r => r < length (NavPoints.st_heap st))%nat (NavPoints.st_navpoints st) ->
    omap (node_at (NavPoints.st_heap st)) (NavPoints.st_navpoints st) = front ++ back ->
    omap (node_at (NavPoints.st_heap st')) (NavPoints.st_navpoints st')
    = rev (map item_node (List.filter (fun item => negb (ti_level item >? 0)) items))
      ++ front ++ back
      ++ map item_node (List.filter (fun item => ti_level item =? 1) items).
Proof.
  induction items as [|item rest IH]; intros st st' front back; simpl.
  - intros [= <-] _ ->. by rewrite app_nil_r.
  - destruct (NavPoints.step st item) as [e|st1] eqn:Hstep; simpl; [done|].
    intros Hloop Hlt Hnodes.
    destruct (navpoints_step_top _ _ _ Hstep) as (Hat & Hlen & Hnav). cbv zeta in *.
    set (np := length (NavPoints.st_heap st)) in *.
    assert (forall refs, Forall (fun r => r < np)%nat refs ->
              omap (node_at (NavPoints.st_heap st1)) refs
              = omap (node_at (NavPoints.st_heap st)) refs) as Hsame.
    { intros refs Hrefs. induction refs as [|r refs IHrefs]; [done|].
      inversion Hrefs as [|? ? Hr Hrest]; subst.
      specialize (IHrefs Hrest). unfold omap in *. simpl.
      rewrite Hat, IHrefs. destruct (decide (r = np)); [lia|done]. }
    assert (node_at (NavPoints.st_heap st1) np = Some (item_node item)) as Hnp.
    { rewrite Hat. by destruct (decide (np = np)). }
    assert (Forall (fun r => r < S np)%nat (NavPoints.st_navpoints st)) as Hlt'.
    { eapply Forall_impl; [|exact Hlt]. simpl. lia. }
    destruct (Z.gtb_spec (ti_level item) 0) as [Hpos|Hnonpos]; simpl.
    + destruct (Z.eqb_spec (ti_level item) 1) as [Hone|Hother]; simpl.
      * rewrite (IH st1 st' front (back ++ [item_node item]) Hloop).
        -- by rewrite <- !app_assoc.
        -- rewrite Hlen, Hnav. apply Forall_app. split; [done|]. constructor; [lia|done].
        -- rewrite Hnav, omap_app, Hsame, Hnodes by done. simpl. rewrite Hnp.
           by rewrite <- app_assoc.
      * apply (IH st1 st' front back Hloop).
        -- by rewrite Hlen, Hnav.
        -- by rewrite Hnav, Hsame.
    + destruct (Z.eqb_spec (ti_level item) 1) as [Hone|Hother]; [lia|].
      rewrite (IH st1 st' (item_node item :: front) back Hloop).
      * simpl. by rewrite <- !app_assoc.
      * rewrite Hlen, Hnav. constructor; [lia|done].
      * rewrite Hnav. simpl. by rewrite Hnp, Hsame, Hnodes.
Qed.

End NavTop.

(** The builder of the navigation points always returns, and the top of
    the navigation map is made of the records of level 0 or less, the last
    one first (each is inserted at the front), followed by the records of
    level 1 in the order they come. *)
Theorem navpoints_top_level (toc_items : list toc_item) :
  exists navpoints,
    build_navpoints toc_items = inr navpoints
    /\ map tree_node navpoints
       = (rev (map item_node (List.filter (fun item => negb (ti_level item >? 0)) toc_items))
          ++ map item_node (List.filter (fun item => ti_level item =? 1) toc_items))%list.
Proof.
  unfold build_navpoints.
  destruct (navpoints_loop_total toc_items NavPoints.init) as [st Hloop]; [constructor|].
  rewrite Hloop. simpl. eexists. split; [done|].
  rewrite navpoints_result_top.
  by rewrite (navpoints_loop_top toc_items NavPoints.init st [] [] Hloop (Forall_nil _) eq_refl).
Qed.

(** ** The HTML page lists every heading *)

Section HtmlToc.
Local Open Scope list_scope.

Lemma has_char_append (c : ascii) (a b : string) :
  PyStr.has_char c (a ++ String c b)%string = true.
Proof.
  induction a as [|d a IH].
  - change (PyStr.has_char c (String c b) = true). simpl. by rewrite Ascii.eqb_refl.
  - change (PyStr.has_char c (String d (a ++ String c b)%string) = true). simpl.
    by rewrite IH, orb_true_r.
Qed.

Lemma item_src_not_toc_page (item : toc_item) : item_src item <> "toc.html"%string.
Proof.
  unfold item_src. intros Heq.
  pose proof (has_char_append "#" (ti_file item) (ti_anchor item)) as Hhas.
  change (String "#" (ti_anchor item)) with ("#" ++ ti_anchor item)%string in Hhas.
  rewrite Heq in Hhas. done.
Qed.

Lemma opens_item_indent (line : string) :
  opens_item ("  " ++ line)%string = opens_item line.
Proof. reflexivity. Qed.

Lemma count_items_indent (lines : list string) :
  length (List.filter opens_item (map (String.append "  ") lines))
  = length (List.filter opens_item lines).
Proof.
  induction lines as [|l lines IH]; [done|].
  change (map (String.append "  ") (l :: lines))
    with (("  " ++ l)%string :: map (String.append "  ") lines).
  cbn [List.filter]. rewrite opens_item_indent. destruct (opens_item l); simpl; by rewrite IH.
Qed.

Lemma count_items_concat (f : tree -> list string) (cs : list tree) :
  Forall (fun t => length (List.filter opens_item (f t)) = tree_size t) cs ->
  length (List.filter opens_item (concat (map f cs))) = list_sum (map tree_size cs).
Proof.
  induction 1 as [|t cs Ht _ IH]; [done|]. simpl.
  by rewrite List.filter_app, length_app, Ht, IH.
Qed.

Lemma html_toc_node_items (style_cls : list (string * string)) (t : tree) :
  forall level,
    Forall (fun d => n_src d <> "toc.html"%string) (preorder t) ->
    length (List.filter opens_item (html_toc_node style_cls level t)) = tree_size t.
Proof.
  induction t as [lv text src cs IH] using tree_forest_ind. intros level Hsrc.
  simpl in Hsrc. inversion Hsrc as [|? ? Hhere Hbelow]; subst. simpl in Hhere.
  assert (Forall (fun t => length (List.filter opens_item
                               (html_toc_node style_cls (S level) t)) = tree_size t) cs)
    as Hkids.
  { clear Hhere Hsrc. induction IH as [|c cs Hc _ IHcs]; [done|].
    simpl in Hbelow. apply list.Forall_app in Hbelow as [Hc' Hcs'].
    constructor; [by apply Hc|by apply IHcs]. }
  apply count_items_concat in Hkids.
  change (html_toc_node style_cls level (TNode lv text src cs))
    with (if String.eqb src "toc.html" then []
          else
            (("  <li>" ++ ("<a href=" ++ String PyStr.dquote
                 (src ++ String PyStr.dquote (" " ++ style_cls_get style_cls level ++ ">"))
                 ++ escape text ++ "</a>"))%string
             :: match cs with
                | [] => []
                | _ =>
                    map (String.append "  ")
                      ("<ol>"%string
                       :: concat (map (html_toc_node style_cls (S level)) cs)
                          ++ ["</ol>"%string])
                end
             ++ ["  </li>"%string])).
  destruct (String.eqb_spec src "toc.html") as [->|_]; [done|].
  cbn [List.filter]. change (opens_item ("  <li>" ++ _)%string) with true. cbv iota.
  rewrite List.filter_app, length_cons, length_app. simpl tree_size. f_equal.
  change (List.filter opens_item ["  </li>"%string]) with (@nil string).
  simpl length at 2. rewrite Nat.add_0_r.
  destruct cs as [|c cs']; [done|].
  rewrite count_items_indent. cbn [List.filter].
  change (opens_item "<ol>") with false. cbv iota.
  rewrite List.filter_app, length_app, Hkids. simpl. lia.
Qed.

Lemma generate_html_toc_items (style_cls : list (string * string)) (level : nat)
    (toc_tree : list tree) :
  Forall (fun d => n_src d <> "toc.html"%string) (forest_preorder toc_tree) ->
  length (List.filter opens_item (generate_html_toc style_cls level toc_tree))
  = forest_size toc_tree.
Proof.
  intros Hsrc.
  assert (Forall (fun t => length (List.filter opens_item
                               (html_toc_node style_cls level t)) = tree_size t) toc_tree)
    as Hkids.
  { unfold forest_preorder in Hsrc. induction toc_tree as [|c cs IHcs]; [done|].
    simpl in Hsrc. apply list.Forall_app in Hsrc as [Hc' Hcs'].
    constructor; [by apply html_toc_node_items|by apply IHcs]. }
  apply count_items_concat in Hkids.
  destruct toc_tree as [|t ts]; [done|].
  unfold generate_html_toc, forest_size. cbn [List.filter].
  change (opens_item "<ol>") with false. cbv iota.
  rewrite List.filter_app, length_app, Hkids. simpl. lia.
Qed.

Lemma forest_preorder_length (toc_tree : list tree) :
  length (forest_preorder toc_tree) = forest_size toc_tree.
Proof.
  assert (forall t, length (preorder t) = tree_size t) as Htree.
  { induction t as [lv text src cs IH] using tree_forest_ind. simpl. f_equal.
    induction IH as [|c cs Hc _ IHcs]; [done|]. simpl. by rewrite length_app, Hc, IHcs. }
  unfold forest_preorder, forest_size.
  induction toc_tree as [|t ts IH]; [done|]. simpl. by rewrite length_app, Htree, IH.
Qed.

End HtmlToc.

(** The HTML page has one list item per node of the tree [build_tree]
    returns, that is one per record of non-zero level: every node's target
    is [file#anchor], so the test that skips a node whose [src] is
    ["toc.html"] never holds for this tree. *)
Theorem html_toc_lists_every_heading (style_cls : list (string * string))
    (items : list toc_item) (toc_tree : list tree) :
  build_tree items = inr toc_tree ->
  Forall (fun d => n_src d <> "toc.html") (forest_preorder toc_tree)
  /\ length (List.filter opens_item (generate_html_toc style_cls 1 toc_tree))
     = length (List.filter (fun item => negb (ti_level item =? 0)) items).
Proof.
  intros Hbuild.
  pose proof (build_tree_preorder items toc_tree Hbuild) as Horder.
  assert (Forall (fun d => n_src d <> "toc.html") (forest_preorder toc_tree)) as Hsrc.
  { rewrite Horder. apply Forall_forall. intros d Hd.
    apply in_map_iff in Hd as (item & <- & _). apply item_src_not_toc_page. }
  split; [done|].
  rewrite generate_html_toc_items by done.
  by rewrite <- forest_preorder_length, Horder, length_map.
Qed.

Lemma html_toc_lists_every_heading_witness :
  build_tree [toc_root_item; entry 1 "One" "a.xhtml" "1"; entry 2 "Two" "a.xhtml" "1-1"]
  = inr [TNode 1 "One" "a.xhtml#1" [TNode 2 "Two" "a.xhtml#1-1" []]]
  /\ length (List.filter opens_item
       (generate_html_toc [("1", "class=x")] 1
          [TNode 1 "One" "a.xhtml#1" [TNode 2 "Two" "a.xhtml#1-1" []]])) = 2%nat.
Proof.
  split; [reflexivity|].
  apply (html_toc_lists_every_heading [("1", "class=x")]
           [toc_root_item; entry 1 "One" "a.xhtml" "1"; entry 2 "Two" "a.xhtml" "1-1"]
           [TNode 1 "One" "a.xhtml#1" [TNode 2 "Two" "a.xhtml#1-1" []]] eq_refl).
Defined.

(** ** Setting up the preferences *)

Section SetupPrefsProperties.
Context {V : Type}.
Context (font_tweaks miscellaneous_settings update_settings : gmap string V).
Context (combobox_defaults rules_default : gmap string V).

Lemma check_for_new_prefs_union (g d : gmap string V) :
  check_for_new_prefs g (map_to_list d) = g ∪ d.
Proof.
  apply map_eq. intros key.
  rewrite check_for_new_prefs_lookup, lookup_union, list_to_map_to_list.
  by destruct (g !! key), (d !! key).
Qed.

Lemma setup_group_settled (fix_keys : bool) (name : string) (defaults : gmap string V)
    (prefs : gmap string (gmap string V)) :
  setup_group fix_keys name defaults prefs
  = <[name := settled fix_keys defaults (prefs !! name)]> prefs.
Proof.
  unfold setup_group, settled. destruct (prefs !! name); [|done].
  by rewrite check_for_new_prefs_union.
Qed.

Lemma setupPrefs_lookup (prefs : gmap string (gmap string V)) (name : string) :
  setupPrefs font_tweaks miscellaneous_settings update_settings combobox_defaults
    rules_default prefs !! name
  = match group_defaults font_tweaks miscellaneous_settings update_settings
            combobox_defaults rules_default name with
    | Some (fix_keys, defaults) => Some (settled fix_keys defaults (prefs !! name))
    | None => prefs !! name
    end.
Proof.
  unfold setupPrefs, group_defaults. rewrite !setup_group_settled.
  repeat match goal with
  | |- context [String.eqb name ?s] => destruct (String.eqb_spec name s) as [->|?]
  end; by simplify_map_eq.
Qed.

Lemma rename_key_absent (old new : string) (d : gmap string V) :
  d !! old = None -> rename_key old new d = d.
Proof. unfold rename_key. by intros ->. Qed.

Lemma fix_old_keys_lookup_old (g : gmap string V) :
  fix_old_keys g !! "sec_changes" = None /\ fix_old_keys g !! "block_changes" = None.
Proof.
  unfold fix_old_keys, rename_key.
  destruct (g !! "sec_changes") as [v1|] eqn:H1;
    destruct (g !! "block_changes") as [v2|] eqn:H2;
    simplify_map_eq; split; by simplify_map_eq.
Qed.

Lemma settled_again (fix_keys : bool) (defaults : gmap string V)
    (group : option (gmap string V)) :
  defaults !! "sec_changes" = None -> defaults !! "block_changes" = None ->
  settled fix_keys defaults (Some (settled fix_keys defaults group))
  = settled fix_keys defaults group.
Proof.
  intros Hsec Hblock.
  assert (forall g : gmap string V, (g ∪ defaults) ∪ defaults = g ∪ defaults) as Hunion.
  { intros g. by rewrite <- (assoc_L (∪)), (idemp_L (∪)). }
  assert (forall g : gmap string V,
            g !! "sec_changes" = None -> g !! "block_changes" = None ->
            fix_old_keys g = g) as Hfix.
  { intros g H1 H2. unfold fix_old_keys.
    rewrite (rename_key_absent "sec_changes") by done. by apply rename_key_absent. }
  destruct fix_keys, group as [g|]; simpl; try apply Hunion.
  - destruct (fix_old_keys_lookup_old g) as [H1 H2].
    rewrite (Hfix (fix_old_keys g ∪ defaults)).
    + apply Hunion.
    + by rewrite lookup_union, H1, Hsec.
    + by rewrite lookup_union, H2, Hblock.
  - rewrite Hfix by done. apply (idemp_L (∪)).
  - apply (idemp_L (∪)).
Qed.

End SetupPrefsProperties.

(** After [setupPrefs] each of its five groups is there and has every key
    of its defaults; a group that was there keeps the values of its keys
    (after the renaming of the old keys, for the two groups that go
    through [fix_old_keys]); the other entries of the preferences are left
    alone. *)
Theorem setupPrefs_fills_in_defaults {V : Type}
    (font_tweaks miscellaneous_settings update_settings combobox_defaults rules_default
       : gmap string V)
    (prefs : gmap string (gmap string V)) (name : string) :
  let after := setupPrefs font_tweaks miscellaneous_settings update_settings
                 combobox_defaults rules_default prefs in
  match group_defaults font_tweaks miscellaneous_settings update_settings
          combobox_defaults rules_default name with
  | Some (fix_keys, defaults) =>
      exists group, after !! name = Some group
        /\ (forall key, is_Some (defaults !! key) -> is_Some (group !! key))
        /\ (forall before key v,
              prefs !! name = Some before ->
              (if fix_keys then fix_old_keys before else before) !! key = Some v ->
              group !! key = Some v)
        /\ (prefs !! name = None -> group = defaults)
  | None => after !! name = prefs !! name
  end.
Proof.
  cbv zeta. rewrite setupPrefs_lookup.
  destruct (group_defaults _ _ _ _ _ name) as [[fix_keys defaults]|]; [|done].
  eexists. split; [done|]. split; [|split].
  - intros key [v Hv]. unfold settled.
    destruct (prefs !! name) as [g|]; [|rewrite Hv; by eexists].
    apply lookup_union_is_Some. right. by eexists.
  - intros before key v -> Hkey. unfold settled. by apply lookup_union_Some_l.
  - by intros ->.
Qed.

(** Setting up twice is setting up once, as long as the defaults of the
    groups do not themselves use the old key names. *)
Theorem setupPrefs_idempotent {V : Type}
    (font_tweaks miscellaneous_settings update_settings combobox_defaults rules_default
       : gmap string V)
    (prefs : gmap string (gmap string V)) :
  combobox_defaults !! "sec_changes" = None ->
  combobox_defaults !! "block_changes" = None ->
  rules_default !! "sec_changes" = None ->
  rules_default !! "block_changes" = None ->
  let setup := setupPrefs font_tweaks miscellaneous_settings update_settings
                 combobox_defaults rules_default in
  setup (setup prefs) = setup prefs.
Proof.
  intros Hc1 Hc2 Hr1 Hr2. cbv zeta. apply map_eq. intros name.
  rewrite !setupPrefs_lookup. unfold group_defaults.
  repeat match goal with
  | |- context [String.eqb name ?s] => destruct (String.eqb_spec name s) as [->|?]
  end; try done; f_equal.
  - by destruct (prefs !! "font_tweaks"); simpl; rewrite ?(idemp_L (∪));
      rewrite <- ?(assoc_L (∪)), ?(idemp_L (∪)).
  - by destruct (prefs !! "miscellaneous_settings"); simpl; rewrite ?(idemp_L (∪));
      rewrite <- ?(assoc_L (∪)), ?(idemp_L (∪)).
  - by destruct (prefs !! "update_settings"); simpl; rewrite ?(idemp_L (∪));
      rewrite <- ?(assoc_L (∪)), ?(idemp_L (∪)).
  - by apply settled_again.
  - by apply settled_again.
Qed.

Lemma setupPrefs_idempotent_witness :
  let font_tweaks : gmap string string := {["font_size" := "10"]} in
  let miscellaneous_settings : gmap string string := {["icon_color" := "#27AAE1"]} in
  let update_settings : gmap string string := {["last_online_version" := "0.0.0"]} in
  let combobox_defaults : gmap string string := {["tags" := "span"]} in
  let rules_default : gmap string string := {["rules" := "h1"]} in
  let prefs : gmap string (gmap string string) :=
    {["combobox_values" := {["sec_changes" := "section"]}]} in
  let setup := setupPrefs font_tweaks miscellaneous_settings update_settings
                 combobox_defaults rules_default in
  combobox_defaults !! "sec_changes" = None
  /\ combobox_defaults !! "block_changes" = None
  /\ rules_default !! "sec_changes" = None
  /\ rules_default !! "block_changes" = None
  /\ setup (setup prefs) = setup prefs.
Proof.
  cbv zeta. split; [reflexivity|]. split; [reflexivity|]. split; [reflexivity|].
  split; [reflexivity|].
  apply (setupPrefs_idempotent {["font_size" := "10"]} {["icon_color" := "#27AAE1"]}
           {["last_online_version" := "0.0.0"]} {["tags" := "span"]} {["rules" := "h1"]}
           {["combobox_values" := {["sec_changes" := "section"]}]});
    reflexivity.
Defined.

(** ** The navigation map keeps the order of the document *)

Section NavStore.
Local Open Scope list_scope.

Lemma nav_store_lookup (h : list (option Z * tnode * list nat)) (r : nat) :
  nav_store h !! r = nav_proj <$> h !! r.
Proof. apply list_lookup_fmap. Qed.

Lemma nav_reify_store (fuel : nat) (h : list (option Z * tnode * list nat)) :
  forall refs, NavPoints.reify fuel h refs = reify fuel (nav_store h) refs.
Proof.
  induction fuel as [|fuel IH]; intros refs; [done|]. simpl.
  induction refs as [|r refs IHrefs]; [done|]. simpl. rewrite IHrefs. f_equal.
  rewrite nav_store_lookup.
  destruct (h !! r) as [[[lv d] cs]|]; simpl; [|done]. by rewrite IH.
Qed.

Lemma nav_store_grow (h : list (option Z * tnode * list nat))
    (c : option Z * tnode * list nat) :
  nav_store (h ++ [c]) = nav_store h ++ [nav_proj c].
Proof. unfold nav_store. by rewrite fmap_app. Qed.

Lemma nav_store_set_level (h : list (option Z * tnode * list nat)) (lv : Z) (i : nat) :
  nav_store (alter (NavPoints.set_level lv) i h) = nav_store h.
Proof.
  unfold nav_store.
  rewrite (list_fmap_alter nav_proj (NavPoints.set_level lv) id).
  - apply list_eq. intros j. rewrite list_lookup_alter.
    destruct (decide (i = j)) as [->|]; [|done]. by destruct (_ !! j).
  - apply Forall_forall. by intros [[? ?] ?] _.
Qed.

Lemma nav_store_add_child (h : list (option Z * tnode * list nat)) (child i : nat) :
  nav_store (alter (NavPoints.add_child child) i h)
  = alter (fun c : cell => (c.1, c.2 ++ [child])) i (nav_store h).
Proof.
  unfold nav_store. apply list_fmap_alter. apply Forall_forall. by intros [[? ?] ?] _.
Qed.

Lemma nav_store_length (h : list (option Z * tnode * list nat)) :
  length (nav_store h) = length h.
Proof. unfold nav_store. by rewrite length_fmap. Qed.

Lemma stored_kids_app (h : heap) (b r : nat) (cs cs' : list nat) (ts ts' : list tree) :
  stored_kids h b r cs ts -> stored_kids h b r cs' ts' ->
  stored_kids h b r (cs ++ cs') (ts ++ ts').
Proof.
  intros Hkids Hmore. induction Hkids; simpl; [done|].
  constructor; [done|done|by apply IHHkids].
Qed.

Lemma open_listing_cons (f : frame) (open : list frame) :
  open_listing (f :: open) = open_listing open ++ f.1.2 :: forest_preorder f.2.
Proof.
  unfold open_listing. simpl. rewrite map_app, concat_app. simpl. by rewrite app_nil_r.
Qed.

Lemma forest_preorder_app (ts ts' : list tree) :
  forest_preorder (ts ++ ts') = forest_preorder ts ++ forest_preorder ts'.
Proof. unfold forest_preorder. by rewrite map_app, concat_app. Qed.

Lemma close_up_listing (open : list frame) :
  forall extra,
    forest_preorder (close_up extra open) = open_listing open ++ forest_preorder extra.
Proof.
  induction open as [|[[r d] ts] below IH]; intros extra; simpl; [done|].
  rewrite IH, open_listing_cons. cbn [fst snd].
  change (forest_preorder [tree_of d (ts ++ extra)])
    with (preorder (tree_of d (ts ++ extra)) ++ []).
  by rewrite app_nil_r, preorder_tree_of, forest_preorder_app, <- app_assoc.
Qed.

Lemma nav_store_set_level_id (h : list (option Z * tnode * list nat)) (lv : Z) (i : nat) :
  nav_store (alter (NavPoints.set_level lv) i h) = alter id i (nav_store h).
Proof.
  unfold nav_store. apply list_fmap_alter. apply Forall_forall. by intros [[? ?] ?] _.
Qed.

Lemma nav_chain_grow (h : list (option Z * tnode * list nat))
    (c : option Z * tnode * list nat) (open : list frame) :
  forall b above, nav_chain h b above open -> nav_chain (h ++ [c]) b above open.
Proof.
  induction open as [|[[r d] ts] below IH]; intros b above; simpl; [done|].
  intros (Hr & cs & Hcell & Hkids & Hbelow). split; [done|]. exists cs.
  split; [by apply lookup_app_l_Some|]. split; [|by apply IH].
  rewrite nav_store_grow. by apply stored_grow.
Qed.

Lemma nav_chain_alter (h : list (option Z * tnode * list nat))
    (f : option Z * tnode * list nat -> option Z * tnode * list nat) (g : cell -> cell)
    (top : nat) (open : list frame) :
  nav_store (alter f top h) = alter g top (nav_store h) ->
  forall b above,
    (b <= top)%nat -> nav_chain h b above open -> nav_chain (alter f top h) b above open.
Proof.
  intros Hstore. induction open as [|[[r d] ts] below IH]; intros b above Hb; simpl; [done|].
  intros (Hr & cs & Hcell & Hkids & Hbelow). split; [done|]. exists cs.
  split; [by rewrite list_lookup_alter_ne by lia|]. split; [|apply IH; [lia|done]].
  rewrite Hstore. apply stored_alter; [done|lia].
Qed.

Lemma nav_chain_top_stored (h : list (option Z * tnode * list nat)) (b : nat)
    (r : nat) (d : tnode) (ts : list tree) (below : list frame) :
  nav_chain h b [] ((r, d, ts) :: below) -> stored (nav_store h) b r (tree_of d ts).
Proof.
  simpl. intros (Hr & cs & Hcell & Hkids & _). rewrite app_nil_r in Hcell.
  apply (stored_node _ _ r d cs ts); [done| |done].
  rewrite nav_store_lookup, Hcell. done.
Qed.

Lemma nav_chain_close1 (h : list (option Z * tnode * list nat)) (b : nat)
    (r r' : nat) (d d' : tnode) (ts ts' : list tree) (below : list frame) :
  nav_chain h b [] ((r, d, ts) :: (r', d', ts') :: below) ->
  nav_chain h b [] ((r', d', ts' ++ [tree_of d ts]) :: below).
Proof.
  intros Hchain. pose proof (nav_chain_top_stored _ _ _ _ _ _ Hchain) as Htop.
  simpl in Hchain. destruct Hchain as (Hr & _ & _ & _ & Hr' & cs' & Hcell' & Hkids' & Hbelow).
  simpl. split; [lia|]. exists (cs' ++ [r]). split; [by rewrite app_nil_r|]. split; [|done].
  apply stored_kids_snoc; [|lia|done].
  by apply (proj2 (stored_mono (nav_store h) r b ltac:(lia))).
Qed.

Lemma nav_close_all (h : list (option Z * tnode * list nat)) (open : list frame) :
  forall (b B : nat) (above : list nat) (extra : list tree),
    (b <= B)%nat -> nav_chain h b above open -> open <> [] ->
    (forall r, head (map (fun f : frame => f.1.1) open) = Some r ->
               stored_kids (nav_store h) B r above extra) ->
    exists bottom T,
      bottom_ref open = [bottom] /\ close_up extra open = [T]
      /\ stored (nav_store h) B bottom T.
Proof.
  induction open as [|[[r d] ts] below IH]; intros b B above extra Hb Hchain Hne Habove;
    [done|].
  simpl in Hchain. destruct Hchain as (Hr & cs & Hcell & Hkids & Hbelow).
  assert (stored (nav_store h) B r (tree_of d (ts ++ extra))) as Hhere.
  { apply (stored_node _ _ r d (cs ++ above) (ts ++ extra)); [lia| |].
    - by rewrite nav_store_lookup, Hcell.
    - apply stored_kids_app; [|by apply Habove].
      by apply (proj2 (stored_mono (nav_store h) b B Hb)). }
  destruct below as [|[[r' d'] ts'] below'].
  - exists r, (tree_of d (ts ++ extra)). done.
  - destruct (IH r B [r] [tree_of d (ts ++ extra)]) as (bottom & T & Hbot & Hclose & Hst);
      [lia|done|done| |].
    + intros r0 [= <-]. simpl in Hbelow. destruct Hbelow as (Hlt & _).
      constructor; [done|done|constructor].
    + exists bottom, T. done.
Qed.

Lemma nav_chain_linked (h : list (option Z * tnode * list nat)) (open : list frame) :
  forall b above, nav_chain h b above open ->
    Forall (linked h) (map (fun f : frame => f.1.1) open).
Proof.
  induction open as [|[[r d] ts] below IH]; intros b above; simpl; [constructor|].
  intros (Hr & cs & Hcell & Hkids & Hbelow). constructor; [|by eapply IH].
  by exists (n_level d), d, (cs ++ above).
Qed.

Lemma rooted_same_nodes (f f' : frame) (below : list frame) :
  f.1.2 = f'.1.2 -> rooted (f :: below) -> rooted (f' :: below).
Proof. intros Hd. destruct below; simpl; [by rewrite Hd|done]. Qed.

Lemma nav_pop_cons (h : list (option Z * tnode * list nat)) (level : Z) (top : nat)
    (below : list nat) :
  NavPoints.pop_while h level (top :: below)
  = match NavPoints.top_level h top with
    | None => raise KeyError
    | Some l => if l >=? level then NavPoints.pop_while h level below else ret (top :: below)
    end.
Proof. reflexivity. Qed.

Lemma nav_pop (h : list (option Z * tnode * list nat)) (b : nat) (level : Z) (n : nat) :
  forall open,
    length open = n ->
    nav_chain h b [] open -> rooted open -> 1 < level ->
    exists open',
      NavPoints.pop_while h level (map (fun f : frame => f.1.1) open)
      = inr (map (fun f : frame => f.1.1) open')
      /\ nav_chain h b [] open'
      /\ rooted open'
      /\ open_listing open' = open_listing open
      /\ bottom_ref open' = bottom_ref open
      /\ (open <> [] -> open' <> [])
      /\ (forall s, In s (map (fun f : frame => f.1.1) open') ->
                    In s (map (fun f : frame => f.1.1) open))
      /\ map frame_level open' = pop_levels level (map frame_level open)
      /\ frames_depth 0 open' = frames_depth 0 open.
Proof.
  induction n as [|n IH]; intros open Hlen Hchain Hroot Hlevel.
  { destruct open; [|done]. exists []. done. }
  destruct open as [|[[r d] ts] rest]; [done|].
  assert (NavPoints.top_level h r = Some (n_level d)) as Htop.
  { simpl in Hchain. destruct Hchain as (Hr & cs & Hcell & _).
    unfold NavPoints.top_level. by rewrite Hcell. }
  destruct rest as [|[[r' d'] ts'] below].
  - exists [(r, d, ts)].
    change (map (fun f : frame => f.1.1) [(r, d, ts)]) with [r].
    change (map frame_level [(r, d, ts)]) with [n_level d].
    rewrite nav_pop_cons, Htop. simpl in Hroot. rewrite Hroot. simpl.
    destruct (Z.geb_spec 1 level); [lia|done].
  - change (map (fun f : frame => f.1.1) ((r, d, ts) :: (r', d', ts') :: below))
      with (r :: map (fun f : frame => f.1.1) ((r', d', ts') :: below)).
    change (map frame_level ((r, d, ts) :: (r', d', ts') :: below))
      with (n_level d :: map frame_level ((r', d', ts') :: below)).
    rewrite nav_pop_cons, Htop. cbn [pop_levels].
    destruct (n_level d >=? level).
    + destruct (IH ((r', d', ts' ++ [tree_of d ts]) :: below)) as (open' & Hpop & Hrest);
        [simpl in *; lia|by apply (nav_chain_close1 h b r r' d d' ts ts' below)| |done|].
      { eapply rooted_same_nodes; [|exact Hroot]. done. }
      exists open'. split; [exact Hpop|].
      destruct Hrest as (Hc & Hro & Hl & Hb & Hn & Hin & Hlv & Hdepth).
      split; [done|]. split; [done|].
      split; [|split; [|split; [intros _; by apply Hn|split; [|split]]]].
      * rewrite Hl, !open_listing_cons. cbn [fst snd].
        rewrite forest_preorder_snoc, preorder_tree_of, <- !app_assoc. done.
      * rewrite Hb. by destruct below.
      * intros s Hs. right. by apply Hin.
      * exact Hlv.
      * rewrite Hdepth. cbn [frames_depth].
        rewrite calc_max_depth_app, calc_max_depth_tree_of. by rewrite !Nat.max_0_r.
    + exists ((r, d, ts) :: (r', d', ts') :: below). done.
Qed.

Lemma nav_chain_bound (h : list (option Z * tnode * list nat)) (b b' : nat)
    (above : list nat) (open : list frame) :
  (b <= b')%nat -> nav_chain h b above open -> nav_chain h b' above open.
Proof.
  intros Hb. destruct open as [|[[r d] ts] below]; simpl; [done|].
  intros (Hr & cs & Hcell & Hkids & Hbelow). split; [lia|]. exists cs.
  split; [done|]. split; [|done]. by apply (proj2 (stored_mono (nav_store h) b b' Hb)).
Qed.

Lemma top_ok_stack (h : list (option Z * tnode * list nat)) (stack stack' : list nat)
    (e : nat * nat * tree) :
  top_ok h stack e ->
  (forall s, In s stack' -> In s stack \/ (e.1.2 <= s)%nat) ->
  top_ok h stack' e.
Proof.
  intros (Hst & Hb & Hout) Hsub. split; [done|]. split; [done|].
  apply Forall_forall. intros s Hs. rewrite Forall_forall in Hout.
  destruct (Hsub s Hs) as [Hin|Hge]; [by apply Hout|by right].
Qed.

Lemma top_ok_grow (h : list (option Z * tnode * list nat))
    (c : option Z * tnode * list nat) (stack : list nat) (e : nat * nat * tree) :
  top_ok h stack e -> top_ok (h ++ [c]) stack e.
Proof.
  intros (Hst & Hb & Hout). split; [|split; [|done]].
  - rewrite nav_store_grow. by apply stored_grow.
  - rewrite length_app. lia.
Qed.

Lemma top_ok_alter (h : list (option Z * tnode * list nat))
    (f : option Z * tnode * list nat -> option Z * tnode * list nat) (g : cell -> cell)
    (top : nat) (stack : list nat) (e : nat * nat * tree) :
  nav_store (alter f top h) = alter g top (nav_store h) ->
  In top stack \/ (e.1.2 <= top)%nat ->
  top_ok h stack e -> top_ok (alter f top h) stack e.
Proof.
  intros Hstore Htop (Hst & Hb & Hout). split; [|split; [|done]].
  - rewrite Hstore. apply stored_alter; [done|].
    destruct Htop as [Hin|Hge]; [|by right].
    rewrite Forall_forall in Hout. by apply Hout.
  - by rewrite length_alter.
Qed.

Lemma nav_listing_push (tops : list (nat * nat * tree)) (open : list frame) (f : frame) :
  nav_listing tops (f :: open) = nav_listing tops open ++ f.1.2 :: forest_preorder f.2.
Proof. unfold nav_listing. by rewrite open_listing_cons, app_assoc. Qed.

Lemma nav_step_inv (st st' : NavPoints.state) (item : toc_item)
    (tops : list (nat * nat * tree)) (open : list frame) :
  nav_inv st tops open -> NavPoints.step st item = inr st' ->
  exists tops' open',
    nav_inv st' tops' open'
    /\ nav_listing tops' open'
       = (if ti_level item >? 0
          then if (ti_level item =? 1) || negb (no_open open)
               then nav_listing tops open ++ [item_node item]
               else nav_listing tops open
          else item_node item :: nav_listing tops open)
    /\ no_open open'
       = (if ti_level item >? 0
          then negb ((ti_level item =? 1) || negb (no_open open))
          else no_open open)
    /\ (map frame_level open', nav_depth tops' open')
       = nav_track (map frame_level open, nav_depth tops open) (ti_level item).
Proof.
  intros (Hchain & Hstack & Hroot & Hnav & Htops). unfold NavPoints.step, nav_track.
  cbn [fst snd].
  change {| n_level := ti_level item; n_text := ti_text item; n_src := item_src item |}
    with (item_node item).
  set (d := item_node item).
  set (cell0 := (None, d, []) : option Z * tnode * list nat).
  set (h := NavPoints.st_heap st) in *.
  set (np := length h) in *.
  set (h1 := h ++ [cell0]).
  assert (h1 !! np = Some cell0) as Hnp1 by by apply list_lookup_middle.
  assert (length h1 = S np) as Hlen1 by (unfold h1; rewrite length_app; simpl; lia).
  assert (nav_chain h1 np [] open) as Hchain1 by by apply nav_chain_grow.
  assert (Forall (linked h1) (map (fun f : frame => f.1.1) open)) as Hlinked1
    by by eapply nav_chain_linked.
  assert (forall s, In s (map (fun f : frame => f.1.1) open) -> (s < np)%nat) as Hrefs.
  { intros s Hs. pose proof (nav_chain_linked _ _ _ _ Hchain) as Hl.
    rewrite Forall_forall in Hl. destruct (Hl s Hs) as (lv & d0 & cs & Hcell).
    by eapply lookup_lt_Some. }
  assert (Forall (top_ok h1 (NavPoints.st_stack st)) tops) as Htops1.
  { eapply Forall_impl; [|exact Htops]. intros e He. by apply top_ok_grow. }
  destruct (Z.gtb_spec (ti_level item) 0) as [Hpos|Hnonpos].
  - destruct (Z.eqb_spec (ti_level item) 1) as [Hone|Hother].
    + (* a point of level 1 *)
      rewrite Hstack.
      destruct (navpoints_pop_while_linked h1 (ti_level item) _ Hlinked1)
        as (stack' & -> & _).
      simpl. intros [= <-].
      set (h2 := alter (NavPoints.set_level 1) np h1).
      assert (h2 !! np = Some (Some (n_level d), d, [])) as Hnp2.
      { unfold h2. rewrite list_lookup_alter_eq, Hnp1. simpl.
        unfold NavPoints.set_level. simpl. by rewrite <- Hone. }
      assert (nav_store h2 = nav_store h ++ [nav_proj cell0]) as Hstore2.
      { unfold h2, h1. by rewrite nav_store_set_level, nav_store_grow. }
      assert (length h2 = S np) as Hlen2 by (unfold h2; by rewrite length_alter).
      assert (forall e, top_ok h (NavPoints.st_stack st) e -> top_ok h2 [np] e) as Hkeep.
      { intros e (Hst & Hb & Hout). split; [|split].
        - rewrite Hstore2. by apply stored_grow.
        - lia.
        - constructor; [right; fold np in Hb; lia|constructor]. }
      destruct open as [|f0 open0] eqn:Hopen.
      * exists tops, [(np, d, [])].
        split; [|split; [by rewrite nav_listing_push|split; [done|]]].
        { split; [|split; [done|split; [done|split]]].
          -- simpl. split; [lia|]. exists []. split; [done|]. split; [constructor|done].
          -- simpl. rewrite Hnav. simpl. by rewrite app_nil_r.
          -- eapply Forall_impl; [|exact Htops]. exact Hkeep. }
        change (map frame_level [(np, d, [])]) with [n_level d].
        change (n_level d) with (ti_level item). rewrite Hone. f_equal.
        unfold nav_depth. cbn [frames_depth]. change (calc_max_depth []) with 0%nat. lia.
      * destruct (nav_close_all h (f0 :: open0) np np [] [] (le_n _) Hchain)
          as (bottom & T & Hbot & Hclose & Hstored); [done| |].
        { intros r _. constructor. }
        exists (tops ++ [(bottom, np, T)]), [(np, d, [])].
        split; [split; [|split; [done|split; [done|split]]]|split; [|split; [done|]]].
        -- simpl. split; [lia|]. exists []. split; [done|]. split; [constructor|done].
        -- cbn [NavPoints.st_navpoints]. rewrite Hnav, Hbot, map_app. done.
        -- apply Forall_app. split.
           ++ eapply Forall_impl; [|exact Htops]. exact Hkeep.
           ++ constructor; [|constructor]. split; [|split].
              ** simpl. rewrite Hstore2. by apply stored_grow.
              ** simpl. lia.
              ** constructor; [right; simpl; lia|constructor].
        -- rewrite nav_listing_push. unfold nav_listing.
           rewrite map_app, forest_preorder_app. cbn [map snd].
           rewrite <- Hclose, close_up_listing.
           change (open_listing []) with (@nil tnode).
           change (forest_preorder []) with (@nil tnode).
           by rewrite !app_nil_r.
        -- change (map frame_level [(np, d, [])]) with [n_level d].
           change (n_level d) with (ti_level item). rewrite Hone. f_equal.
           unfold nav_depth. rewrite map_app, calc_max_depth_app. cbn [map snd].
           rewrite <- Hclose, close_up_depth. cbn [frames_depth].
           change (calc_max_depth []) with 0%nat. lia.
    + (* a point of level 2 or more *)
      rewrite Hstack.
      destruct (nav_pop h1 np (ti_level item) (length open) open eq_refl Hchain1 Hroot
                  ltac:(lia))
        as (open_k & -> & Hchain_k & Hroot_k & Hlist_k & Hbot_k & Hne_k & Hin_k
            & Hlevels_k & Hdepth_k).
      simpl.
      destruct (Z.eqb_spec (ti_level item) 1) as [|_]; [done|].
      rewrite <- Hlevels_k.
      destruct open_k as [|[[r d'] ts] below] eqn:Hopen_k.
      * simpl. intros [= <-].
        assert (open = []) as -> by (destruct open; [done|]; by destruct Hne_k).
        exists tops, []. split; [|done].
        split; [done|]. split; [done|]. split; [done|]. split; [done|].
        rewrite Hstack in Htops1. exact Htops1.
      * cbn [map fst snd]. intros [= <-].
        set (h2 := alter (NavPoints.set_level (ti_level item)) np
                     (alter (NavPoints.add_child np) r h1)).
        simpl in Hchain_k. destruct Hchain_k as (Hr & cs & Hcell & Hkids & Hbelow).
        rewrite app_nil_r in Hcell.
        assert (In r (NavPoints.st_stack st)) as Hrstack.
        { rewrite Hstack. apply Hin_k. by left. }
        assert (open <> []) as Hopen_ne by (intros ->; rewrite Hstack in Hrstack; done).
        assert (no_open open = false) as Hno by (by destruct open).
        assert (nav_store h2
                = alter (fun c : cell => (c.1, c.2 ++ [np])) r
                    (nav_store h ++ [nav_proj cell0])) as Hstore2.
        { unfold h2, h1.
          by rewrite nav_store_set_level, nav_store_add_child, nav_store_grow. }
        assert (length h2 = S np) as Hlen2 by (unfold h2; by rewrite !length_alter).
        assert (h2 !! np = Some (Some (n_level d), d, [])) as Hnp2.
        { unfold h2. rewrite list_lookup_alter_eq, list_lookup_alter_ne by lia.
          by rewrite Hnp1. }
        assert (h2 !! r = Some (Some (n_level d'), d', cs ++ [np])) as Hr2.
        { unfold h2. rewrite list_lookup_alter_ne by lia.
          by rewrite list_lookup_alter_eq, Hcell. }
        exists tops, ((np, d, []) :: (r, d', ts) :: below).
        split; [split; [|split; [done|split; [done|split]]]|].
        -- simpl. split; [lia|]. exists []. split; [done|]. split; [constructor|].
           split; [done|]. exists cs. split; [done|]. split.
           ++ rewrite Hstore2. apply stored_alter; [|lia].
              rewrite <- nav_store_grow. exact Hkids.
           ++ unfold h2.
              apply (nav_chain_alter _ _ id); [apply nav_store_set_level_id|lia|].
              apply (nav_chain_alter _ _ (fun c : cell => (c.1, c.2 ++ [np])));
                [apply nav_store_add_child|lia|done].
        -- cbn [NavPoints.st_navpoints]. rewrite Hnav.
           change (bottom_ref ((np, d, []) :: (r, d', ts) :: below))
             with (bottom_ref ((r, d', ts) :: below)).
           f_equal. symmetry. exact Hbot_k.
        -- cbn [NavPoints.st_heap NavPoints.st_stack].
           eapply Forall_impl; [|exact Htops]. intros e (Hst & Hb & Hout).
           fold np in Hb. rewrite Forall_forall in Hout.
           split; [|split].
           ++ rewrite Hstore2. apply stored_alter; [by apply stored_grow|].
              by apply Hout.
           ++ lia.
           ++ constructor; [right; lia|]. apply Forall_forall. intros s Hs.
              apply Hout. rewrite Hstack. by apply Hin_k.
        -- rewrite Hno. split; [|split; [done|]].
           ++ rewrite nav_listing_push.
              cbn [orb negb fst snd]. f_equal. unfold nav_listing. f_equal. exact Hlist_k.
           ++ change (map frame_level ((np, d, []) :: (r, d', ts) :: below))
                with (ti_level item :: map frame_level ((r, d', ts) :: below)).
              cbn [map]. f_equal. unfold nav_depth. rewrite <- Hdepth_k.
              change (frames_depth 0 ((np, d, []) :: (r, d', ts) :: below))
                with (frames_depth 1 ((r, d', ts) :: below)).
              rewrite (frames_depth_extra _ 1), length_map. simpl length.
              by rewrite Nat.max_assoc.
  - (* a point of level 0 or less *)
    intros [= <-].
    exists ((np, S np, tree_of d []) :: tops), open.
    split; [split; [|split; [done|split; [done|split]]]|split; [|split; [done|]]].
    + cbn [NavPoints.st_heap]. fold h1. rewrite Hlen1.
      apply (nav_chain_bound h1 np); [lia|done].
    + cbn [NavPoints.st_navpoints]. by rewrite Hnav.
    + cbn [NavPoints.st_heap NavPoints.st_stack]. fold h1. constructor; [|done].
      split; [|split].
      * simpl. apply (stored_node _ _ np d [] []); [lia| |constructor].
        by rewrite nav_store_lookup, Hnp1.
      * simpl. lia.
      * apply Forall_forall. intros s Hs. left. simpl. apply Hrefs. by rewrite <- Hstack.
    + unfold nav_listing. cbn [map snd].
      change (forest_preorder (tree_of d [] :: map snd tops))
        with (preorder (tree_of d []) ++ forest_preorder (map snd tops)).
      by rewrite preorder_tree_of.
    + f_equal. unfold nav_depth. cbn [map snd].
      change (tree_of d [] :: map snd tops) with ([tree_of d []] ++ map snd tops).
      rewrite calc_max_depth_app, calc_max_depth_tree_of.
      change (calc_max_depth []) with 0%nat. lia.
Qed.

Lemma nav_loop_inv (items : list toc_item) :
  forall (st st' : NavPoints.state) (tops : list (nat * nat * tree)) (open : list frame),
    nav_inv st tops open -> NavPoints.loop st items = inr st' ->
    exists tops' open',
      nav_inv st' tops' open'
      /\ nav_listing tops' open'
         = rev (map item_node (List.filter (fun item => negb (ti_level item >? 0)) items))
           ++ nav_listing tops open
           ++ map item_node (nav_kept (negb (no_open open)) items)
      /\ (map frame_level open', nav_depth tops' open')
         = fold_left nav_track (map ti_level items)
             (map frame_level open, nav_depth tops open).
Proof.
  induction items as [|item rest IH]; intros st st' tops open Hinv; simpl.
  - intros [= <-]. exists tops, open. by rewrite app_nil_r.
  - destruct (NavPoints.step st item) as [e|st1] eqn:Hstep; simpl; [done|]. intros Hloop.
    destruct (nav_step_inv _ _ _ _ _ Hinv Hstep)
      as (tops1 & open1 & Hinv1 & Hlist1 & Hno1 & Htrack1).
    destruct (IH _ _ _ _ Hinv1 Hloop) as (tops' & open' & Hinv' & Hlist' & Htrack').
    exists tops', open'. split; [done|]. split; [|by rewrite Htrack', Htrack1].
    rewrite Hlist', Hlist1, Hno1.
    destruct (ti_level item >? 0); simpl.
    + destruct ((ti_level item =? 1) || negb (no_open open)); simpl.
      * by rewrite <- !app_assoc.
      * done.
    + by rewrite <- !app_assoc.
Qed.

Lemma reify_app (fuel : nat) (h : heap) (refs refs' : list nat) :
  reify fuel h (refs ++ refs') = reify fuel h refs ++ reify fuel h refs'.
Proof.
  induction refs as [|r refs IH]; simpl; [by destruct fuel|].
  by rewrite reify_cons, IH, app_assoc, <- reify_cons.
Qed.

Lemma nav_inv_result (st : NavPoints.state) (tops : list (nat * nat * tree))
    (open : list frame) :
  nav_inv st tops open -> NavPoints.result st = map snd tops ++ close_up [] open.
Proof.
  intros (Hchain & Hstack & Hroot & Hnav & Htops).
  unfold NavPoints.result. rewrite nav_reify_store, Hnav, reify_app. f_equal.
  - clear Hnav. induction Htops as [|e tops (Hst & _ & _) _ IH]; [by destruct (length _)|].
    cbn [map]. rewrite reify_cons, IH.
    rewrite (proj1 (stored_reify _ _) _ _ Hst); [done|].
    rewrite nav_store_length. lia.
  - destruct open as [|f open0]; [by destruct (length _)|].
    destruct (nav_close_all _ (f :: open0) _ _ [] [] (le_n _) Hchain)
      as (bottom & T & -> & -> & Hstored); [done| |].
    { intros r _. constructor. }
    apply (proj1 (stored_reify _ _) _ _ Hstored). rewrite nav_store_length. lia.
Qed.

End NavStore.

Lemma build_navpoints_preorder (toc_items : list toc_item) :
  exists navpoints,
    build_navpoints toc_items = inr navpoints
    /\ forest_preorder navpoints
       = (rev (map item_node
                 (List.filter (fun item => negb (ti_level item >? 0)) toc_items))
          ++ map item_node (nav_kept false toc_items))%list.
Proof.
  unfold build_navpoints.
  destruct (navpoints_loop_total toc_items NavPoints.init) as [st Hloop]; [constructor|].
  rewrite Hloop. simpl. eexists. split; [done|].
  assert (nav_inv NavPoints.init [] []) as Hinit.
  { split; [done|]. split; [done|]. split; [done|]. split; [done|]. constructor. }
  destruct (nav_loop_inv _ _ _ _ _ Hinit Hloop) as (tops & open & Hinv & Hlist & _).
  rewrite (nav_inv_result _ _ _ Hinv), forest_preorder_app, close_up_listing.
  change (forest_preorder []) with (@nil tnode). rewrite app_nil_r.
  exact Hlist.
Qed.

(** The builder of the navigation points always returns, and the
    navigation map keeps the order of the document: read depth first, it
    lists the records of level 0 or less, the last one first, and then,
    in the order they come, the records of level 1 and the records of a
    greater level that follow one of level 1; a record of level 2 or more
    that comes before any record of level 1 gets no navigation point. *)
Theorem navpoints_keep_document_order (toc_items : list toc_item) :
  exists navpoints,
    build_navpoints toc_items = inr navpoints
    /\ forest_preorder navpoints
       = (rev (map item_node
                 (List.filter (fun item => negb (ti_level item >? 0)) toc_items))
          ++ map item_node (nav_kept false toc_items))%list.
Proof. apply build_navpoints_preorder. Qed.

(** ** The two tables list the same headings *)

Lemma nav_kept_all (entries : list toc_item) :
  Forall (fun item => 1 <= ti_level item) entries -> nav_kept true entries = entries.
Proof.
  induction 1 as [|item rest Hitem _ IH]; [done|]. simpl.
  destruct (Z.gtb_spec (ti_level item) 0); [|lia]. by rewrite orb_true_r, IH.
Qed.

Lemma filter_positive_levels (entries : list toc_item) :
  Forall (fun item => 1 <= ti_level item) entries ->
  List.filter (fun item => negb (ti_level item >? 0)) entries = []
  /\ List.filter (fun item => negb (ti_level item =? 0)) entries = entries.
Proof.
  induction 1 as [|item rest Hitem _ [IH1 IH2]]; [done|]. simpl.
  destruct (Z.gtb_spec (ti_level item) 0); [|lia].
  destruct (Z.eqb_spec (ti_level item) 0); [lia|]. simpl. by rewrite IH1, IH2.
Qed.

(** When every heading record has a level of 1 or more and the first one
    is of level 1, as after a numbering pass over rules of positive level,
    both builders return, and the navigation map lists the page of the
    table of contents followed by exactly the headings of the HTML tree,
    in the same order, whatever the nesting each of them gives. *)
Theorem both_tables_list_the_same_headings (entries : list toc_item) :
  Forall (fun item => 1 <= ti_level item) entries ->
  match entries with
  | [] => True
  | first :: _ => ti_level first = 1
  end ->
  exists toc_tree navpoints,
    build_tree (toc_root_item :: entries) = inr toc_tree
    /\ build_navpoints (toc_root_item :: entries) = inr navpoints
    /\ forest_preorder toc_tree = map item_node entries
    /\ forest_preorder navpoints = item_node toc_root_item :: forest_preorder toc_tree.
Proof.
  intros Hlevels Hfirst.
  destruct (filter_positive_levels entries Hlevels) as [Hnone Hall].
  assert (exists toc_tree, build_tree (toc_root_item :: entries) = inr toc_tree)
    as [toc_tree Htree].
  { unfold build_tree.
    pose proof (build_tree_loop_outcome (toc_root_item :: entries) BuildTree.init) as Hout.
    destruct (BuildTree.loop BuildTree.init (toc_root_item :: entries)) as [e|st];
      [|by eexists].
    destruct Hout as [_ Hneg]; [done|]. exfalso.
    apply Exists_exists in Hneg as (item & Hin & Hlt).
    destruct Hin as [<-|Hin]; [done|].
    rewrite Forall_forall in Hlevels. specialize (Hlevels item Hin). simpl in *. lia. }
  destruct (build_navpoints_preorder (toc_root_item :: entries))
    as (navpoints & Hnav & Horder).
  exists toc_tree, navpoints. split; [done|]. split; [done|].
  pose proof (build_tree_preorder _ _ Htree) as Htree_order.
  simpl in Htree_order. rewrite Hall in Htree_order.
  split; [done|]. rewrite Horder, Htree_order. simpl. rewrite Hnone. simpl. f_equal. f_equal.
  destruct entries as [|first rest]; [done|].
  inversion Hlevels as [|? ? _ Hrest]; subst. simpl.
  destruct (Z.gtb_spec (ti_level first) 0); [|lia].
  rewrite Hfirst. simpl. by rewrite nav_kept_all.
Qed.

Lemma both_tables_list_the_same_headings_witness :
  let entries := [entry 1 "One" "a.xhtml" "1"; entry 3 "Deep" "a.xhtml" "1-s1";
                  entry 3 "Deeper" "a.xhtml" "1-s2"] in
  Forall (fun item => 1 <= ti_level item) entries
  /\ ti_level (entry 1 "One" "a.xhtml" "1") = 1
  /\ exists toc_tree navpoints,
       build_tree (toc_root_item :: entries) = inr toc_tree
       /\ build_navpoints (toc_root_item :: entries) = inr navpoints
       /\ forest_preorder toc_tree = map item_node entries
       /\ forest_preorder navpoints = item_node toc_root_item :: forest_preorder toc_tree.
Proof.
  cbv zeta.
  assert (Forall (fun item => 1 <= ti_level item)
            [entry 1 "One" "a.xhtml" "1"; entry 3 "Deep" "a.xhtml" "1-s1";
             entry 3 "Deeper" "a.xhtml" "1-s2"]) as Hlevels.
  { repeat constructor; simpl; lia. }
  split; [exact Hlevels|]. split; [reflexivity|].
  exact (both_tables_list_the_same_headings
           [entry 1 "One" "a.xhtml" "1"; entry 3 "Deep" "a.xhtml" "1-s1";
            entry 3 "Deeper" "a.xhtml" "1-s2"] Hlevels eq_refl).
Defined.

(** ** The count the run reports *)

Section Reported.
Context `{PyLib}.
Local Open Scope list_scope.

Lemma write_soups_done (b : book) (stamps : list (elem_ref * string))
    (file_soups : list (string * (nat * list node))) :
  forall log log',
    write_soups b stamps file_soups log = (log', None) ->
    log' = log ++ map (content_write stamps) file_soups.
Proof.
  induction file_soups as [|[fname [pos soup]] rest IH]; intros log log'; simpl.
  - intros [= <-]. by rewrite app_nil_r.
  - destruct (perform b log _) as [log1 [e|]] eqn:Hp; [done|].
    apply perform_log in Hp as [(_ & ? & _)|(-> & _ & _)]; [done|].
    intros Hrest. rewrite (IH _ _ Hrest), <- app_assoc. done.
Qed.

Lemma integrate_no_stamps (self : MarkupParser)
    (manifest : list (option string * option string)) (spine : list (option string))
    (title : string) (toc : list tree) (style_cls : list (string * string)) (n : nat)
    (log : list effect) :
  exists rest,
    effects (integrate self manifest spine (PHtmlToc title toc style_cls) n log)
    = log ++ rest
    /\ Forall (fun e => stamps_written e = 0%nat) rest.
Proof.
  destruct (integrate_effects self manifest spine title toc style_cls n log)
    as (page & spine_entry & -> & Hpage & _ & Hspine & _ & _).
  exists (page ++ spine_entry). split; [done|]. apply Forall_app. split.
  - apply Forall_forall. intros e He. rewrite forallb_forall in Hpage.
    specialize (Hpage e He). by destruct e as [? []|? ? [] ?|].
  - apply Forall_forall. intros e He. rewrite forallb_forall in Hspine.
    specialize (Hspine e He). by destruct e as [? []|? ? [] ?|].
Qed.

Lemma emit_success (self : MarkupParser) (root : opf) (title uid : string)
    (st : nstate) (file_soups : list (string * (nat * list node))) (n : nat) :
  returned (emit self root title uid st file_soups) = RetPair None n ->
  n = ns_occurrences st
  /\ exists rest,
       effects (emit self root title uid st file_soups)
       = map (content_write (ns_stamps st)) file_soups ++ rest
       /\ Forall (fun e => stamps_written e = 0%nat) rest.
Proof.
  unfold emit.
  destruct (write_soups _ _ _ _) as [log [e|]] eqn:Hw; [done|].
  apply write_soups_done in Hw. simpl in Hw. subst log.
  destruct (build_tree _) as [e|toc_tree]; [done|].
  destruct (build_navpoints _) as [e|navpoints]; [done|].
  set (ncx := PNcx _ _ _ _).
  assert (stamps_written (ncx_upsert (bk self) ncx) = 0%nat) as Hncx.
  { unfold ncx_upsert. by destruct (bk_toc_ncx_id (bk self)). }
  destruct (perform _ _ _) as [log1 [e|]] eqn:Hp; [done|].
  apply perform_log in Hp as [(_ & ? & _)|(-> & _ & _)]; [done|].
  destruct (opf_manifest root) as [manifest|]; [|done].
  destruct (opf_spine root) as [spine|]; [|done].
  destruct (integrate_no_stamps self manifest spine title toc_tree
              (style_cls_of (style self)) (ns_occurrences st)
              (map (content_write (ns_stamps st)) file_soups ++ [ncx_upsert (bk self) ncx]))
    as (rest & Heff & Hrest).
  rewrite Heff. intros Hret. split.
  - unfold integrate in Hret.
    destruct (perform _ _ _) as [log2 [e|]]; [done|].
    destruct (if existsb _ spine then _ else _) as [log3 [e|]]; [done|].
    destruct (_ && _); [|done]. simpl in Hret. congruence.
  - exists (ncx_upsert (bk self) ncx :: rest). rewrite <- app_assoc. split; [done|].
    by constructor.
Qed.

Lemma stamps_of_count (positions : list nat) (stamps : list (elem_ref * string)) :
  NoDup positions ->
  Forall (fun s : elem_ref * string => s.1.1 ∈ positions) stamps ->
  list_sum (map (fun pos => length (stamps_of pos stamps)) positions) = length stamps.
Proof.
  intros Hnd. induction 1 as [|s stamps Hs _ IH]; simpl.
  - induction positions as [|p ps IHp]; [done|]. simpl. apply IHp.
    by apply list.NoDup_cons in Hnd as [_ ?].
  - rewrite <- IH. clear IH.
    induction positions as [|p ps IHp]; [by apply elem_of_nil in Hs|].
    apply list.NoDup_cons in Hnd as [Hnotin Hnd]. simpl.
    unfold stamps_of at 1. simpl. fold (stamps_of p stamps).
    destruct (Nat.eqb_spec s.1.1 p) as [Heq|Hne]; simpl.
    + f_equal. f_equal. apply f_equal. apply map_ext_in. intros q Hq.
      unfold stamps_of. simpl. destruct (Nat.eqb_spec s.1.1 q) as [Heq'|]; [|done].
      exfalso. apply Hnotin. rewrite <- Heq, Heq'. by apply list_elem_of_In.
    + apply elem_of_cons in Hs as [Hs|Hs]; [done|].
      rewrite (IHp Hnd Hs). lia.
Qed.

Lemma scan_elems_position (crs : list crule) (file_name : string) (pos : nat)
    (elems : list tag) :
  forall k, Forall (fun item => (i_elem item).1 = pos) (scan_elems crs file_name pos k elems).
Proof.
  induction elems as [|elem rest IH]; intros k; simpl; [constructor|].
  destruct (classify_heading crs elem); [constructor; [done|apply IH]|apply IH].
Qed.

Lemma readings_positions (b : book) (crs : list crule) (tgs : list string)
    (files : list string) :
  Forall (fun item => ((i_elem item).1 < length files)%nat)
    (concat (imap (reading b crs tgs) files)).
Proof.
  apply Forall_forall. intros item Hitem.
  apply in_concat in Hitem as (items & Hitems & Hitem).
  apply list_elem_of_In, elem_of_lookup_imap_1 in Hitems as (pos & fname & -> & Hpos).
  pose proof (scan_elems_position crs (bk_id_to_href b fname) pos
                (find_all tgs (default [] (bk_readfile b fname))) 0) as Hall.
  rewrite Forall_forall in Hall. unfold reading in Hitem. rewrite (Hall item Hitem).
  by eapply lookup_lt_Some.
Qed.

Lemma headings_kept_Forall (P : raw_item -> Prop) (items : list raw_item) :
  forall seen1, Forall P items -> Forall P (headings_kept seen1 items).
Proof.
  induction items as [|item rest IH]; intros seen1 Hall; simpl; [constructor|].
  inversion Hall as [|? ? Hitem Hrest]; subst.
  destruct ((i_level item =? 1) || seen1); [constructor; [done|]|]; by apply IH.
Qed.

Lemma remove_dupes_NoDup_id (files : list string) :
  NoDup files -> remove_dupes files = files.
Proof.
  intros Hnd.
  destruct (remove_dupes_loop_spec files [] ∅) as (_ & Hmem & added & Heq & Hsub);
    [constructor|set_solver|].
  fold (remove_dupes files) in *. simpl in Heq. subst added.
  apply sublist_same_length; [done|].
  apply submseteq_length, NoDup_submseteq; [done|]. intros x Hx. apply Hmem. by right.
Qed.

Lemma soups_positions (b : book) (files : list string)
    (file_soups : list (string * (nat * list node))) :
  NoDup files ->
  map fst file_soups = files ->
  Forall (last_reading b files) file_soups ->
  map (fun e : string * (nat * list node) => e.2.1) file_soups = seq 0 (length files).
Proof.
  intros Hnd Hkeys Hlast.
  assert (length file_soups = length files) as Hlen
    by (by rewrite <- Hkeys, length_map).
  apply list_eq. intros i.
  destruct (decide (i < length files)%nat) as [Hlt|Hge].
  - rewrite lookup_seq_lt by done. simpl.
    destruct (lookup_lt_is_Some_2 file_soups i ltac:(lia)) as [e He].
    change (map (fun e0 : string * (nat * list node) => e0.2.1) file_soups)
      with ((fun e0 : string * (nat * list node) => e0.2.1) <$> file_soups).
    rewrite list_lookup_fmap, He. simpl. f_equal.
    rewrite Forall_forall in Hlast.
    destruct (Hlast e) as (Hpos & _); [by eapply list_elem_of_In, list_elem_of_lookup_2|].
    assert (files !! i = Some e.1) as Hi.
    { rewrite <- Hkeys.
      change (map fst file_soups) with (fst <$> file_soups).
      by rewrite list_lookup_fmap, He. }
    by eapply NoDup_lookup.
  - rewrite lookup_seq_ge by lia. apply lookup_ge_None_2. rewrite length_map. lia.
Qed.

End Reported.

(** When no document is listed twice in the spine and the run reports
    success, the count it reports is its starting count plus the number
    of [id] attributes it has written into the content documents: every
    heading it counted is stamped in a document that was written. *)
Theorem reported_count_is_ids_written `{PyLib} (self : MarkupParser) (n : nat) :
  NoDup (spine_files (bk self)) ->
  returned (generate_toc self) = RetPair None n ->
  n = (occurrences self
       + list_sum (map stamps_written (effects (generate_toc self))))%nat.
Proof.
  intros Hnd. unfold generate_toc.
  destruct (compile_rules _) as [e|crs]; [done|].
  pose proof (scan_files_inv (bk self) crs (tags self) (spine_files (bk self)) []
                ([], []) eq_refl (Forall_nil _) eq_refl) as Hscan.
  simpl in Hscan.
  destruct (spine_files (bk self)) as [|f files] eqn:Hfiles; [done|].
  destruct (bk_get_opf _) as [root|]; [|done].
  destruct (get_title_and_uid root) as [title uid].
  destruct (scan_files _ _ _ _ _ _) as [e|[items soups]]; [done|].
  destruct Hscan as (Hkeys & Hlast & Hitems). simpl in Hkeys, Hlast, Hitems.
  change (reading (bk self) crs (tags self) 0 f
          ++ concat (imap (reading (bk self) crs (tags self) ∘ S) files))%list
    with (concat (imap (reading (bk self) crs (tags self)) (f :: files))) in Hitems.
  destruct items as [|it items]; [intros [= <-]; simpl; lia|].
  pose proof (number_from_accounted (it :: items) (occurrences self)
                (length (it :: items)) (numbering_init (it :: items) (occurrences self)) 0)
    as Hacc.
  pose proof (number_from_kept (length (it :: items))
                (numbering_init (it :: items) (occurrences self))) as Hkept.
  unfold number_all.
  destruct (number_from _ _ _) as [st [e|]] eqn:Hrun; [done|].
  destruct Hacc as (_ & Hocc & _).
  { unfold accounted. simpl. split; [|split; [lia|done]].
    apply Forall2_same_length_lookup_2; [done|]. intros i x y Hx Hy. left. congruence. }
  simpl in Hocc.
  specialize (Hkept st 0%nat eq_refl Hrun). cbv zeta in Hkept.
  destruct Hkept as [_ Hstamps].
  assert (map fst (ns_stamps st) = map i_elem (headings_kept false (it :: items)))
    as Hstamps' by exact Hstamps.
  clear Hstamps.
  intros Hret. apply emit_success in Hret as (-> & rest & -> & Hrest).
  rewrite Hocc. f_equal.
  rewrite map_app, list_sum_app.
  assert (list_sum (map stamps_written rest) = 0%nat) as ->.
  { clear -Hrest. induction Hrest as [|e rest He _ IH]; [done|]. simpl. by rewrite He, IH. }
  rewrite Nat.add_0_r, map_map.
  rewrite remove_dupes_NoDup_id in Hkeys by done.
  pose proof (soups_positions (bk self) (f :: files) soups Hnd Hkeys Hlast) as Hpos.
  symmetry.
  etrans; [|apply (stamps_of_count (seq 0 (length (f :: files))) (ns_stamps st));
            [apply NoDup_seq|]].
  - rewrite <- Hpos, map_map. done.
  - assert (Forall (fun e : elem_ref => (e.1 < length (f :: files))%nat)
              (map fst (ns_stamps st))) as Hall.
    { rewrite Hstamps'. apply Forall_forall. intros e He.
      apply in_map_iff in He as (item & <- & Hitem).
      assert (Forall (fun item => ((i_elem item).1 < length (f :: files))%nat)
                (headings_kept false (it :: items))) as Hk.
      { apply headings_kept_Forall. rewrite Hitems. apply readings_positions. }
      rewrite Forall_forall in Hk. by apply Hk. }
    apply Forall_forall. intros s Hs. apply elem_of_seq.
    rewrite Forall_forall in Hall. specialize (Hall s.1 (in_map fst _ _ Hs)). lia.
Qed.

Lemma reported_count_is_ids_written_witness :
  let self :=
    RunExamples.parser
      (RunExamples.package RunExamples.ch1_spine RunExamples.chapter_doc
         RunExamples.opf_complete) in
  NoDup (spine_files (bk self))
  /\ returned (@generate_toc mini_lib self) = RetPair None 1
  /\ 1%nat = (occurrences self
              + list_sum (map stamps_written (effects (@generate_toc mini_lib self))))%nat.
Proof.
  cbv zeta.
  assert (NoDup (spine_files (bk (RunExamples.parser
            (RunExamples.package RunExamples.ch1_spine RunExamples.chapter_doc
               RunExamples.opf_complete))))) as Hnd.
  { apply NoDup_singleton. }
  split; [exact Hnd|]. split; [reflexivity|].
  exact (reported_count_is_ids_written (H := mini_lib)
           (RunExamples.parser
              (RunExamples.package RunExamples.ch1_spine RunExamples.chapter_doc
                 RunExamples.opf_complete)) 1 Hnd eq_refl).
Defined.

(** With the document listed twice the run counts its heading twice and
    writes one id, that of the second reading. *)
Example listed_twice_counts_twice :
  returned (@generate_toc mini_lib RunExamples2.listed_twice) = RetPair None 2
  /\ map stamps_written (effects (@generate_toc mini_lib RunExamples2.listed_twice))
     = [1; 0; 0; 0]%nat.
Proof. split; vm_compute; reflexivity. Qed.

(** ** The depth declared in the navigation document *)

Section DeclaredDepth.
Local Open Scope list_scope.

Lemma max_depth_calc (nodes : list tree) : max_depth nodes = calc_max_depth nodes.
Proof.
  destruct nodes as [|t ts]; [done|].
  unfold max_depth, calc_max_depth. f_equal. apply map_ext. intros [l x s cs].
  rewrite child_depth_calc. simpl. unfold calc_max_depth. lia.
Qed.

Lemma build_tree_depth (items : list toc_item) (forest : list tree) :
  build_tree items = inr forest ->
  Forall (fun level => 0 <= level) (map ti_level items)
  /\ calc_max_depth forest = (fold_left tree_track (map ti_level items) (0, 0)%nat).2.
Proof.
  unfold build_tree.
  pose proof (build_tree_loop_outcome items BuildTree.init) as Hout.
  destruct (BuildTree.loop BuildTree.init items) as [e|st] eqn:Hloop; simpl; [done|].
  intros [= <-]. split.
  { apply Forall_map. by apply Hout. }
  assert (build_inv BuildTree.init ([], [])) as Hinit.
  { split; [|done]. exists []. split; [done|constructor]. }
  destruct (build_tree_loop_inv _ _ _ _ Hinit Hloop) as (z' & Hinv & _ & Htrack).
  rewrite (build_inv_depth _ _ Hinv).
  change (length ([] : list frame, [] : list tree).1, zipper_depth ([], []))
    with (0%nat, 0%nat) in Htrack.
  by rewrite <- Htrack.
Qed.

Lemma nav_inv_depth (st : NavPoints.state) (tops : list (nat * nat * tree))
    (open : list frame) :
  nav_inv st tops open -> calc_max_depth (NavPoints.result st) = nav_depth tops open.
Proof.
  intros Hinv. rewrite (nav_inv_result _ _ _ Hinv), calc_max_depth_app, close_up_depth.
  done.
Qed.

Lemma build_navpoints_depth (items : list toc_item) (navpoints : list tree) :
  build_navpoints items = inr navpoints ->
  calc_max_depth navpoints
  = (fold_left nav_track (map ti_level items) ([], 0%nat)).2.
Proof.
  unfold build_navpoints.
  destruct (NavPoints.loop NavPoints.init items) as [e|st] eqn:Hloop; simpl; [done|].
  intros [= <-].
  assert (nav_inv NavPoints.init [] []) as Hinit.
  { split; [done|]. split; [done|]. split; [done|]. split; [done|]. constructor. }
  destruct (nav_loop_inv _ _ _ _ _ Hinit Hloop) as (tops & open & Hinv & _ & Htrack).
  rewrite (nav_inv_depth _ _ _ Hinv).
  change (map frame_level [], nav_depth [] []) with (@nil Z, 0%nat) in Htrack.
  by rewrite <- Htrack.
Qed.

End DeclaredDepth.

(** The depth declared in the head of the navigation document is computed
    on the tree of the HTML table, the map below it is built from the
    navigation points: whenever both are built, the declared [dtb:depth]
    is at least the depth of the map, so that no navigation point lies
    deeper than declared. It can be greater: on levels 1, 3, 3 the
    document declares 3 over a map of depth 2. *)
Theorem declared_depth_covers_nav_map (toc_items : list toc_item)
    (toc_tree navpoints : list tree) :
  build_tree toc_items = inr toc_tree ->
  build_navpoints toc_items = inr navpoints ->
  exists declared : nat,
    dtb_depth toc_tree = str_of_nat declared
    /\ (calc_max_depth navpoints <= declared)%nat.
Proof.
  intros [Hlevels Htree]%build_tree_depth Hnav%build_navpoints_depth.
  exists (Nat.max 1 (max_depth toc_tree)). split.
  - unfold dtb_depth. destruct (Nat.ltb_spec 0 (max_depth toc_tree)); f_equal; lia.
  - rewrite max_depth_calc, Hnav, Htree.
    apply (tracks_compared _ (0, 0)%nat ([], 0%nat)); simpl; [done|lia|lia|done].
Qed.

Lemma declared_depth_covers_nav_map_witness :
  let toc_items := [toc_root_item; entry 1 "One" "a.xhtml" "1";
                    entry 3 "Two" "a.xhtml" "1-s1"; entry 3 "Three" "a.xhtml" "1-s2"] in
  let toc_tree :=
    [TNode 1 "One" "a.xhtml#1"
       [TNode 3 "Two" "a.xhtml#1-s1" [TNode 3 "Three" "a.xhtml#1-s2" []]]] in
  let navpoints :=
    [TNode 0 "Table of Contents" "toc.html#toc" [];
     TNode 1 "One" "a.xhtml#1"
       [TNode 3 "Two" "a.xhtml#1-s1" []; TNode 3 "Three" "a.xhtml#1-s2" []]] in
  build_tree toc_items = inr toc_tree
  /\ build_navpoints toc_items = inr navpoints
  /\ dtb_depth toc_tree = "3"
  /\ calc_max_depth navpoints = 2%nat
  /\ exists declared : nat,
      dtb_depth toc_tree = str_of_nat declared
      /\ (calc_max_depth navpoints <= declared)%nat.
Proof.
  cbv zeta.
  split; [reflexivity|]. split; [reflexivity|]. split; [reflexivity|]. split; [reflexivity|].
  exact (declared_depth_covers_nav_map
           [toc_root_item; entry 1 "One" "a.xhtml" "1";
            entry 3 "Two" "a.xhtml" "1-s1"; entry 3 "Three" "a.xhtml" "1-s2"]
           [TNode 1 "One" "a.xhtml#1"
              [TNode 3 "Two" "a.xhtml#1-s1" [TNode 3 "Three" "a.xhtml#1-s2" []]]]
           [TNode 0 "Table of Contents" "toc.html#toc" [];
            TNode 1 "One" "a.xhtml#1"
              [TNode 3 "Two" "a.xhtml#1-s1" []; TNode 3 "Three" "a.xhtml#1-s2" []]]
           eq_refl eq_refl).
Defined.
